(** * DTensor Send/Recv lowering (tensorflow/dtensor/mlir/dtensor_send_recv.cc)

    A shallow embedding of the lowering of [DTensorSend] / [DTensorRecv] into
    host and XLA transfer ops, and the properties of the design document
    checked against it.

    The MLIR module is an arena: every operation carries an identity (the
    pointer in C++), the block it lives in, its operands and its result types.
    The operations of the module are kept in program order, the order in which
    [walk] visits them.  A function of the source that returns
    [StatusOr<T>] and mutates the module is a state transformer with three
    outcomes: a value, a [Status], or a crash (a failed [assert], a null
    dereference, an index out of range).  Where C++ leaves the order in which
    the arguments of a call are evaluated to the compiler and the arguments
    create operations, the order is a parameter of the function, and every
    statement holds for each order. *)

From Stdlib Require Import ZArith List String Ascii Bool Arith Lia Permutation.
From Stdlib Require Import DecimalString DecimalNat.
Import ListNotations.

Local Open Scope list_scope.

(* ------------------------------------------------------------------ *)
(** ** Status and outcomes *)

Inductive Code : Type :=
| INVALID_ARGUMENT
| INTERNAL
| UNKNOWN.

Record Status : Type := mkStatus { code : Code; message : string }.

(** [errors::InvalidArgument(msg)] *)
Definition InvalidArgument (msg : string) : Status :=
  {| code := INVALID_ARGUMENT; message := msg |}.

(** [StatusOr<T>] as a plain value (no state). *)
Inductive StatusOr (A : Type) : Type :=
| OkValue (a : A)
| NotOk (s : Status).
Arguments OkValue {A} a.
Arguments NotOk {A} s.

(* ------------------------------------------------------------------ *)
(** ** Types, values, meshes, layouts *)

Definition OpId := nat.
Definition Loc := string.

Inductive ElementType : Type :=
| IntegerType (width : nat)
| FloatType (width : nat)
| StringType.

Definition isInteger (w : nat) (t : ElementType) : bool :=
  match t with
  | IntegerType w' => Nat.eqb w' w
  | _ => false
  end.

(** [mlir::RankedTensorType]: a shape and an element type. *)
Record TensorType : Type := RankedTensorType
  { getShape : list Z; getElementType : ElementType }.

(** An SSA value: the [i]-th result of an operation, or the [i]-th argument
    of the entry block of a function. *)
Inductive Value : Type :=
| OpResult (owner : OpId) (i : nat)
| BlockArgument (owner : OpId) (i : nat).

Definition Value_eqb (v w : Value) : bool :=
  match v, w with
  | OpResult a i, OpResult b j => Nat.eqb a b && Nat.eqb i j
  | BlockArgument a i, BlockArgument b j => Nat.eqb a b && Nat.eqb i j
  | _, _ => false
  end.

(** [Value::getDefiningOp]: null for a block argument. *)
Definition getDefiningOp (v : Value) : option OpId :=
  match v with
  | OpResult o _ => Some o
  | BlockArgument _ _ => None
  end.

Record Mesh : Type := mkMesh
  { num_devices : Z;
    local_device_ids : list Z;
    local_devices : list string;
    device_type : string }.

Definition is_cpu_mesh (m : Mesh) : bool := String.eqb (device_type m) "CPU".
Definition is_tpu_mesh (m : Mesh) : bool := String.eqb (device_type m) "TPU".

Record Layout : Type := mkLayout
  { mesh : Mesh;
    ToString : string }.

(* ------------------------------------------------------------------ *)
(** ** Operations *)

Inductive OpKind : Type :=
| DTensorSend (key : string) (target_layout : Layout)
| DTensorRecv (key : string) (layout : Layout)
| _HostSendOp (tensor_name send_device : string) (send_device_incarnation : Z)
              (recv_device : string) (client_terminated : bool)
| _HostRecvOp (tensor_name send_device : string) (send_device_incarnation : Z)
              (recv_device : string)
| _XlaSendFromHostV2Op (key : string)
| XlaSendToHostOp (key : string)
| _XlaRecvAtHostV2Op (key : string)
| XlaRecvFromHostOp (shape : list Z) (key : string)
| _TPUCompileMlirPlaceholderProgramKeyOp
| ConstOp (value : list Z)
| SliceOp
| ReshapeOp
| CastOp
| CaseOp (branches : list string) (is_stateless : bool)
| ReturnOp
| OtherOp (name : string).

(** The block an operation lives in: the body of a [tf_device.cluster], the
    entry block of a function outside every cluster, or the module body. *)
Inductive Block : Type :=
| InCluster (c : OpId)
| InFunc (f : OpId)
| InModule.

Definition Block_eqb (a b : Block) : bool :=
  match a, b with
  | InCluster c, InCluster d => Nat.eqb c d
  | InFunc f, InFunc g => Nat.eqb f g
  | InModule, InModule => true
  | _, _ => false
  end.

Record Op : Type := mkOp
  { op_id : OpId;
    op_loc : Loc;
    op_kind : OpKind;
    op_operands : list Value;
    op_types : list TensorType;
    op_attrs : list (string * string);
    op_block : Block }.

(** [tf_device.cluster].  [cl_mesh] is what [ExtractDeviceMeshFromOp] reads
    from the cluster's mesh attribute. *)
Record ClusterOp : Type := mkCluster
  { cl_id : OpId;
    cl_loc : Loc;
    cl_mesh : StatusOr (option Mesh);
    cl_func : option OpId }.

Inductive Visibility : Type := Public | Private.

Record FuncOp : Type := mkFunc
  { fn_id : OpId;
    fn_loc : Loc;
    sym_name : string;
    sym_visibility : Visibility;
    fn_arg_types : list TensorType;
    fn_arg_attrs : list (list (string * string));
    fn_result_types : list TensorType }.

Record ModuleOp : Type := mkModule
  { mod_ops : list Op;
    mod_clusters : list ClusterOp;
    mod_funcs : list FuncOp;
    next_id : OpId }.

(* ------------------------------------------------------------------ *)
(** ** The lowering monad *)

Inductive Outcome (A : Type) : Type :=
| Done (a : A) (m : ModuleOp)
| Fails (s : Status) (m : ModuleOp)
| Crashes.
Arguments Done {A} a m.
Arguments Fails {A} s m.
Arguments Crashes {A}.

Definition M (A : Type) : Type := ModuleOp -> Outcome A.

Definition ret {A} (a : A) : M A := fun m => Done a m.

Definition bind {A B} (c : M A) (k : A -> M B) : M B :=
  fun m =>
    match c m with
    | Done a m' => k a m'
    | Fails s m' => Fails s m'
    | Crashes => Crashes
    end.

Notation "x <- c ;; k" := (bind c (fun x => k))
  (at level 61, c at next level, right associativity).
Notation "c ;;; k" := (bind c (fun _ => k))
  (at level 61, right associativity).

(** [return errors::...] *)
Definition fail {A} (s : Status) : M A := fun m => Fails s m.

(** a failed [assert], a null dereference, an access out of range *)
Definition crash {A} : M A := fun _ => Crashes.

(** dereference of a pointer that may be null *)
Definition nonnull {A} (o : option A) : M A :=
  match o with
  | Some a => ret a
  | None => crash
  end.

(** [TF_ASSIGN_OR_RETURN] on a plain [StatusOr] *)
Definition assign_or_return {A} (r : StatusOr A) : M A :=
  match r with
  | OkValue a => ret a
  | NotOk s => fail s
  end.

Definition get : M ModuleOp := fun m => Done m m.

(* ------------------------------------------------------------------ *)
(** ** Reading the module *)

Definition lookup_op (m : ModuleOp) (x : OpId) : option Op :=
  find (fun o => Nat.eqb (op_id o) x) (mod_ops m).

Definition lookup_cluster (m : ModuleOp) (x : OpId) : option ClusterOp :=
  find (fun c => Nat.eqb (cl_id c) x) (mod_clusters m).

Definition lookup_func (m : ModuleOp) (x : OpId) : option FuncOp :=
  find (fun f => Nat.eqb (fn_id f) x) (mod_funcs m).

(** the operation behind a handle *)
Definition deref (x : OpId) : M Op :=
  fun m => nonnull (lookup_op m x) m.

(** [op->getParentOfType<tf_device::ClusterOp>()] *)
Definition getParentOfType_ClusterOp (o : Op) : M (option ClusterOp) :=
  fun m =>
    match op_block o with
    | InCluster c => Done (lookup_cluster m c) m
    | _ => Done None m
    end.

(** [cluster->getParentOfType<func::FuncOp>()] *)
Definition getParentOfType_FuncOp (c : ClusterOp) : M (option OpId) :=
  fun m =>
    match cl_func c with
    | Some f => Done (option_map fn_id (lookup_func m f)) m
    | None => Done None m
    end.

(** [Value::getType] *)
Definition getType (v : Value) : M TensorType :=
  fun m =>
    match v with
    | OpResult o i =>
        match lookup_op m o with
        | Some op => nonnull (nth_error (op_types op) i) m
        | None => Crashes
        end
    | BlockArgument f i =>
        match lookup_func m f with
        | Some fn => nonnull (nth_error (fn_arg_types fn) i) m
        | None => Crashes
        end
    end.

Fixpoint mapM {A B} (f : A -> M B) (l : list A) : M (list B) :=
  match l with
  | [] => ret []
  | a :: l' => b <- f a ;; bs <- mapM f l' ;; ret (b :: bs)
  end.

(** [Value::getLoc] *)
Definition getLoc (v : Value) : M Loc :=
  fun m =>
    match v with
    | OpResult o _ =>
        match lookup_op m o with
        | Some op => Done (op_loc op) m
        | None => Crashes
        end
    | BlockArgument f _ =>
        match lookup_func m f with
        | Some fn => Done (fn_loc fn) m
        | None => Crashes
        end
    end.

(** [op->getResults()] *)
Definition getResults (o : Op) : list Value :=
  map (OpResult (op_id o)) (seq 0 (List.length (op_types o))).

(* ------------------------------------------------------------------ *)
(** ** Mutating the module: builder, erase, replaceAllUsesWith *)

(** [mlir::OpBuilder]: the block new operations go to, and the operation
    before which they are inserted ([None]: the end of the block, which for a
    block that is being filled is the end of the program order). *)
Record OpBuilder : Type := mkBuilder
  { ip_block : Block;
    ip_before : option OpId }.

Fixpoint split_before (y : OpId) (l : list Op) : list Op * list Op :=
  match l with
  | [] => ([], [])
  | o :: l' =>
      if Nat.eqb (op_id o) y then ([], l)
      else let (a, b) := split_before y l' in (o :: a, b)
  end.

Definition place (pt : option OpId) (n : Op) (l : list Op) : list Op :=
  match pt with
  | None => l ++ [n]
  | Some y => let (a, b) := split_before y l in a ++ n :: b
  end.

(** [builder.create<OpTy>(loc, ...)] *)
Definition create (b : OpBuilder) (loc : Loc) (k : OpKind)
    (operands : list Value) (types : list TensorType) : M OpId :=
  fun m =>
    let o := {| op_id := next_id m; op_loc := loc; op_kind := k;
                op_operands := operands; op_types := types;
                op_attrs := []; op_block := ip_block b |} in
    Done (next_id m)
      {| mod_ops := place (ip_before b) o (mod_ops m);
         mod_clusters := mod_clusters m;
         mod_funcs := mod_funcs m;
         next_id := S (next_id m) |}.

(** [OpBuilder builder(op)]: insert before [op], in its block. *)
Definition OpBuilder_at (o : Op) : OpBuilder :=
  {| ip_block := op_block o; ip_before := Some (op_id o) |}.

Definition uses_result_of (x : OpId) (o : Op) : bool :=
  existsb (fun v => match v with
                    | OpResult y _ => Nat.eqb y x
                    | BlockArgument _ _ => false
                    end) (op_operands o).

(** [op->erase()]: the operation must have no uses left. *)
Definition erase (x : OpId) : M unit :=
  fun m =>
    if existsb (uses_result_of x) (mod_ops m) then Crashes
    else Done tt
      {| mod_ops := filter (fun o => negb (Nat.eqb (op_id o) x)) (mod_ops m);
         mod_clusters := mod_clusters m;
         mod_funcs := mod_funcs m;
         next_id := next_id m |}.

Definition map_operands (f : Value -> Value) (o : Op) : Op :=
  {| op_id := op_id o; op_loc := op_loc o; op_kind := op_kind o;
     op_operands := map f (op_operands o); op_types := op_types o;
     op_attrs := op_attrs o; op_block := op_block o |}.

Definition update_ops (f : Op -> Op) : M unit :=
  fun m =>
    Done tt
      {| mod_ops := map f (mod_ops m);
         mod_clusters := mod_clusters m;
         mod_funcs := mod_funcs m;
         next_id := next_id m |}.

(** an operand after [old.replaceAllUsesWith(new)], for values and for the
    results of an operation *)
Definition substitute (old new : Value) (v : Value) : Value :=
  if Value_eqb v old then new else v.

Definition redirect (old new : OpId) (v : Value) : Value :=
  match v with
  | OpResult y i => if Nat.eqb y old then OpResult new i else v
  | BlockArgument _ _ => v
  end.

(** [value.replaceAllUsesWith(new_value)] *)
Definition Value_replaceAllUsesWith (old new : Value) : M unit :=
  update_ops (map_operands (substitute old new)).

(** [op->replaceAllUsesWith(new_op)]: result [i] by result [i]. *)
Definition Operation_replaceAllUsesWith (old new : OpId) : M unit :=
  update_ops (map_operands (redirect old new)).

Notation "' pat <- c ;; k" :=
  (bind c (fun x => match x with pat => k end))
  (at level 61, pat pattern, c at next level, right associativity).

(** [builder.setInsertionPointAfter(op)]: before the operation that follows
    [op] in program order, in the block of [op]. *)
Fixpoint next_op (x : OpId) (l : list Op) : option OpId :=
  match l with
  | [] => None
  | o :: l' =>
      if Nat.eqb (op_id o) x then option_map op_id (hd_error l')
      else next_op x l'
  end.

Definition setInsertionPointAfter (x : OpId) : M OpBuilder :=
  o <- deref x ;;
  m <- get ;;
  ret {| ip_block := op_block o; ip_before := next_op x (mod_ops m) |}.

(** a fresh operation identity ([Operation::create]) *)
Definition fresh_id : M OpId :=
  fun m =>
    Done (next_id m)
      {| mod_ops := mod_ops m;
         mod_clusters := mod_clusters m;
         mod_funcs := mod_funcs m;
         next_id := S (next_id m) |}.

Definition update_funcs (f : list FuncOp -> list FuncOp) : M unit :=
  fun m =>
    Done tt
      {| mod_ops := mod_ops m;
         mod_clusters := mod_clusters m;
         mod_funcs := f (mod_funcs m);
         next_id := next_id m |}.

Fixpoint set_nth {A} (i : nat) (a : A) (l : list A) : option (list A) :=
  match l, i with
  | [], _ => None
  | _ :: l', O => Some (a :: l')
  | b :: l', S i' => option_map (cons b) (set_nth i' a l')
  end.

Definition with_arg_attrs (f : FuncOp) (attrs : list (list (string * string)))
  : FuncOp :=
  {| fn_id := fn_id f; fn_loc := fn_loc f; sym_name := sym_name f;
     sym_visibility := sym_visibility f; fn_arg_types := fn_arg_types f;
     fn_arg_attrs := attrs; fn_result_types := fn_result_types f |}.

(** [func_op.setArgAttr(index, name, value)] *)
Definition setArgAttr (f : OpId) (index : nat) (name value : string) : M unit :=
  m <- get ;;
  fn <- nonnull (lookup_func m f) ;;
  old <- nonnull (nth_error (fn_arg_attrs fn) index) ;;
  attrs <- nonnull (set_nth index ((name, value) :: old) (fn_arg_attrs fn)) ;;
  update_funcs (map (fun g => if Nat.eqb (fn_id g) f
                              then with_arg_attrs g attrs else g)).

Definition with_attr (name value : string) (o : Op) : Op :=
  {| op_id := op_id o; op_loc := op_loc o; op_kind := op_kind o;
     op_operands := op_operands o; op_types := op_types o;
     op_attrs := (name, value) :: op_attrs o; op_block := op_block o |}.

(** [op->setAttr(name, value)] *)
Definition setAttr (x : OpId) (name value : string) : M unit :=
  update_ops (fun o => if Nat.eqb (op_id o) x then with_attr name value o else o).

(** typed handles: [mlir::TF::DTensorSend], [mlir::TF::DTensorRecv] *)
Definition DTensorSend_attrs (o : Op) : M (string * Layout) :=
  match op_kind o with
  | DTensorSend key target_layout => ret (key, target_layout)
  | _ => crash
  end.

Definition DTensorRecv_attrs (o : Op) : M (string * Layout) :=
  match op_kind o with
  | DTensorRecv key layout => ret (key, layout)
  | _ => crash
  end.

(** [dtensor_send.input()] *)
Definition DTensorSend_input (o : Op) : M Value :=
  nonnull (nth_error (op_operands o) 0).

(** [dtensor_recv.getType()] *)
Definition DTensorRecv_getType (o : Op) : M TensorType :=
  nonnull (nth_error (op_types o) 0).

(* ------------------------------------------------------------------ *)
(** ** Helpers of the repository that the lowering calls *)

(** Modelled from the spec: [DeviceId] (device_utils) is the "current device
    id" accessor of the enclosing function, its first argument; it is
    unavailable, an invalid-argument failure, when there is no function or the
    function has no argument. *)
Definition DeviceId (function : option OpId) : M Value :=
  match function with
  | None =>
      fail (InvalidArgument "operation must be enclosed inside a function.")
  | Some f =>
      m <- get ;;
      fn <- nonnull (lookup_func m f) ;;
      match fn_arg_types fn with
      | [] => fail (InvalidArgument
                      "enclosing function must contain device id as argument")
      | _ :: _ => ret (BlockArgument f 0)
      end
  end.

(** Modelled from the spec: [ExtractDeviceMeshFromOp] (layout_parsing) yields
    the mesh of the surrounding op; no mesh when the op is absent or carries
    none, a failure when the attribute cannot be read. *)
Definition ExtractDeviceMeshFromOp (c : option ClusterOp) : M (option Mesh) :=
  match c with
  | None => ret None
  | Some c => assign_or_return (cl_mesh c)
  end.

(** Modelled from the spec: [IntConst] (value_utils) builds a rank-1 32-bit
    integer constant. *)
Definition IntConst (builder : OpBuilder) (loc : Loc) (values : list Z)
  : M Value :=
  c <- create builder loc (ConstOp values) []
         [RankedTensorType [Z.of_nat (List.length values)] (IntegerType 32)] ;;
  ret (OpResult c 0).

(** Modelled from the spec: [CreateIntScalarConst] (value_utils) builds a
    scalar integer constant. *)
Definition CreateIntScalarConst (value : Z) (builder : OpBuilder) (loc : Loc)
  : M Value :=
  c <- create builder loc (ConstOp [value]) []
         [RankedTensorType [] (IntegerType 64)] ;;
  ret (OpResult c 0).

(** [EffectivelyScalarR1Type]: a rank-1 tensor of one element. *)
Definition EffectivelyScalarR1Type (e : ElementType) : TensorType :=
  RankedTensorType [1%Z] e.

(** Modelled from the spec: [ReshapeScalarToSizeType] (collection_ops_util)
    reshapes a scalar to a one-element rank-1 32-bit tensor, the form of a
    slice offset. *)
Definition ReshapeScalarToSizeType (builder : OpBuilder) (scalar : Value)
    (loc : Loc) : M Value :=
  r <- create builder loc ReshapeOp [scalar]
         [RankedTensorType [1%Z] (IntegerType 32)] ;;
  ret (OpResult r 0).

(** Modelled from the spec: [ReshapeSizeTypeToScalar] (value_utils) reshapes
    a one-element tensor down to a 32-bit scalar. *)
Definition ReshapeSizeTypeToScalar (builder : OpBuilder) (loc : Loc)
    (tensor : Value) : M Value :=
  r <- create builder loc ReshapeOp [tensor]
         [RankedTensorType [] (IntegerType 32)] ;;
  ret (OpResult r 0).

(* ------------------------------------------------------------------ *)
(** ** GetOrCreateCompilationKey *)

Definition in_cluster (c : OpId) (o : Op) : bool :=
  Block_eqb (op_block o) (InCluster c).

Definition is_program_key (o : Op) : bool :=
  match op_kind o with
  | _TPUCompileMlirPlaceholderProgramKeyOp => true
  | _ => false
  end.

(** [cluster.walk(...)] over the placeholder ops of the cluster: every visit
    assigns [key]. *)
Definition walk_program_keys (c : OpId) (ops : list Op) : option Value :=
  fold_left
    (fun key o =>
       if in_cluster c o && is_program_key o
       then Some (OpResult (op_id o) 0) else key)
    ops None.

(** [&cluster.GetBody().front()] *)
Definition GetBody_front (cluster : ClusterOp) : M Op :=
  fun m => nonnull (find (in_cluster (cl_id cluster)) (mod_ops m)) m.

Definition GetOrCreateCompilationKey (op : OpId) : M Value :=
  o <- deref op ;;
  cluster <- getParentOfType_ClusterOp o ;;
  match cluster with
  | None => crash (* assert(cluster) *)
  | Some cluster =>
      m <- get ;;
      match walk_program_keys (cl_id cluster) (mod_ops m) with
      | Some key => ret key
      | None =>
          front <- GetBody_front cluster ;;
          let builder := OpBuilder_at front in
          let result_type := RankedTensorType [3%Z] StringType in
          new_compilation_key <-
            create builder (cl_loc cluster)
              _TPUCompileMlirPlaceholderProgramKeyOp [] [result_type] ;;
          ret (OpResult new_compilation_key 0)
      end
  end.

(* ------------------------------------------------------------------ *)
(** ** GetDeviceOrdinal *)

(** The order in which a call evaluates three arguments that have effects.
    C++ leaves it to the compiler (the evaluations are indeterminately
    sequenced), so each of the six orders can occur; [Args123] is left to
    right, [Args321] right to left. *)
Inductive ArgOrder : Type :=
| Args123
| Args132
| Args213
| Args231
| Args312
| Args321.

Definition call_args {A B C} (order : ArgOrder) (a : M A) (b : M B) (c : M C)
  : M (A * B * C) :=
  match order with
  | Args123 => x <- a ;; y <- b ;; z <- c ;; ret (x, y, z)
  | Args132 => x <- a ;; z <- c ;; y <- b ;; ret (x, y, z)
  | Args213 => y <- b ;; x <- a ;; z <- c ;; ret (x, y, z)
  | Args231 => y <- b ;; z <- c ;; x <- a ;; ret (x, y, z)
  | Args312 => z <- c ;; x <- a ;; y <- b ;; ret (x, y, z)
  | Args321 => z <- c ;; y <- b ;; x <- a ;; ret (x, y, z)
  end.

(** [device_id_to_ordinal[id] = i]; an index outside the vector is an
    access out of range. *)
Definition store (id : Z) (i : Z) (table : list Z) : option (list Z) :=
  if (0 <=? id)%Z then set_nth (Z.to_nat id) i table else None.

(** the loop [for (int i = 0; i < local_device_ids().size(); ++i)];
    [i] is an [int], so the stored [int32] is [i] itself *)
Fixpoint fill_ordinals (ids : list Z) (i : nat) (table : list Z)
  : option (list Z) :=
  match ids with
  | [] => Some table
  | id :: ids' =>
      match store id (Z.of_nat i) table with
      | Some table' => fill_ordinals ids' (S i) table'
      | None => None
      end
  end.

Definition device_id_to_ordinal (mesh : Mesh) : option (list Z) :=
  fill_ordinals (local_device_ids mesh) 0
    (repeat 0%Z (Z.to_nat (num_devices mesh))).

(** [order] is the order in which the compiler evaluates the three operands
    of [create<SliceOp>], each of which creates an operation.  In the callers
    that omit [return_int64_type] it takes its default, [true]. *)
Definition GetDeviceOrdinal (order : ArgOrder) (mesh : Mesh) (loc : Loc)
    (function : option OpId) (builder : OpBuilder) (return_int64_type : bool)
  : M Value :=
  device_id_to_ordinal <- nonnull (device_id_to_ordinal mesh) ;;
  device_id <- DeviceId function ;;
  '(input, begin, size) <-
    call_args order
      (IntConst builder loc device_id_to_ordinal)
      (ReshapeScalarToSizeType builder device_id loc)
      (IntConst builder loc [1%Z]) ;;
  device_ordinal <-
    create builder loc SliceOp [input; begin; size]
      [EffectivelyScalarR1Type (IntegerType 32)] ;;
  device_ordinal_scalar <-
    ReshapeSizeTypeToScalar builder loc (OpResult device_ordinal 0) ;;
  if return_int64_type then
    cast <- create builder loc CastOp [device_ordinal_scalar]
              [RankedTensorType [] (IntegerType 64)] ;;
    ret (OpResult cast 0)
  else ret device_ordinal_scalar.

(* ------------------------------------------------------------------ *)
(** ** Single-target lowerings *)

Definition LowerDTensorSendToTFOp (send_input_layout : Layout)
    (send_input : Value) (dtensor_send : OpId) : M OpId :=
  send <- deref dtensor_send ;;
  '(key, target_layout) <- DTensorSend_attrs send ;;
  def <- nonnull (getDefiningOp send_input) ;;
  builder <- setInsertionPointAfter def ;;
  let tensor_name := key in
  let sending_devices := local_devices (mesh send_input_layout) in
  let receiving_devices := local_devices (mesh target_layout) in
  loc <- getLoc send_input ;;
  sending_device <- nonnull (nth_error sending_devices 0) ;;
  receiving_device <- nonnull (nth_error receiving_devices 0) ;;
  lowered_send_op <-
    create builder loc
      (_HostSendOp tensor_name sending_device 0 receiving_device false)
      [send_input] [] ;;
  erase dtensor_send ;;;
  ret lowered_send_op.

(** [builder.saveInsertionPoint] / [restoreInsertionPoint] around the
    compilation key have no counterpart: the key is built with a builder of
    its own.  The call of [GetDeviceOrdinal] passes four arguments:
    [return_int64_type] is at its default, [true]. *)
Definition LowerDTensorSendToXlaOp (order : ArgOrder)
    (send_input_layout : Layout) (send_input : Value) (dtensor_send : OpId)
    (send_from_device_zero : bool) : M OpId :=
  send <- deref dtensor_send ;;
  '(key, _) <- DTensorSend_attrs send ;;
  let send_from_cpu := negb (is_tpu_mesh (mesh send_input_layout)) in
  let builder := OpBuilder_at send in
  let loc := op_loc send in
  lowered_send_op <-
    (if send_from_cpu then
       let value_to_send := [send_input] in
       program_key <- GetOrCreateCompilationKey dtensor_send ;;
       device_ordinal <-
         (if send_from_device_zero then CreateIntScalarConst 0 builder loc
          else
            send_cluster <- getParentOfType_ClusterOp send ;;
            match send_cluster with
            | None =>
                fail (InvalidArgument "DTensorSend is not inside a ClusterOp")
            | Some send_cluster =>
                send_func <- getParentOfType_FuncOp send_cluster ;;
                match send_func with
                | None =>
                    fail (InvalidArgument "DTensorSend is not inside a FuncOp")
                | Some _ =>
                    GetDeviceOrdinal order (mesh send_input_layout) loc
                      send_func builder true
                end
            end) ;;
       create builder loc (_XlaSendFromHostV2Op key)
         (value_to_send ++ [program_key; device_ordinal]) []
     else
       create builder loc (XlaSendToHostOp key) [send_input] []) ;;
  erase dtensor_send ;;;
  ret lowered_send_op.

Definition LowerDTensorRecvToXlaOp (order : ArgOrder) (dtensor_recv : OpId)
    (output_type : TensorType) : M OpId :=
  recv <- deref dtensor_recv ;;
  '(key, layout) <- DTensorRecv_attrs recv ;;
  let recv_at_cpu := is_cpu_mesh (mesh layout) in
  let builder := OpBuilder_at recv in
  if recv_at_cpu then
    let output_types := [output_type] in
    recv_cluster <- getParentOfType_ClusterOp recv ;;
    mesh <- ExtractDeviceMeshFromOp recv_cluster ;;
    match mesh with
    | None =>
        fail (InvalidArgument
          "failed to get device ordinal as mesh for operation is not specified.")
    | Some mesh =>
        recv_cluster <- nonnull recv_cluster ;;
        front <- GetBody_front recv_cluster ;;
        let builder := OpBuilder_at front in
        function <- getParentOfType_FuncOp recv_cluster ;;
        device_ordinal <-
          GetDeviceOrdinal order mesh (cl_loc recv_cluster) function builder
            true ;;
        program_key <- GetOrCreateCompilationKey dtensor_recv ;;
        let builder := OpBuilder_at recv in
        create builder (op_loc recv) (_XlaRecvAtHostV2Op key)
          [program_key; device_ordinal] output_types
    end
  else
    recv_type <- DTensorRecv_getType recv ;;
    create builder (op_loc recv) (XlaRecvFromHostOp (getShape recv_type) key)
      [] [output_type].

(** the overloads that take the op's own type, or an unused mesh *)
Definition LowerDTensorRecvToXlaOp_default (order : ArgOrder)
    (dtensor_recv : OpId) : M OpId :=
  recv <- deref dtensor_recv ;;
  recv_type <- DTensorRecv_getType recv ;;
  LowerDTensorRecvToXlaOp order dtensor_recv recv_type.

Definition LowerDTensorRecvToXlaOp_mesh (order : ArgOrder) (_ : Mesh)
    (dtensor_recv : OpId) (output_type : TensorType) : M OpId :=
  LowerDTensorRecvToXlaOp order dtensor_recv output_type.

(** the loop of [LowerDTensorSendFromCPUToTFOp]; [lowered_send_op] is
    uninitialised ([None]) until the first iteration *)
Fixpoint send_to_each (builder : OpBuilder) (send_input : Value) (send : Op)
    (tensor_name : string) (sending_devices receiving_devices : list string)
    (lowered_send_op : option OpId) : M (option OpId) :=
  match receiving_devices with
  | [] => ret lowered_send_op
  | receiving_device :: rest =>
      loc <- getLoc send_input ;;
      input <- DTensorSend_input send ;;
      sending_device <- nonnull (nth_error sending_devices 0) ;;
      op <- create builder loc
              (_HostSendOp tensor_name sending_device 0 receiving_device false)
              [input] [] ;;
      send_to_each builder send_input send tensor_name sending_devices rest
        (Some op)
  end.

(** The pointer returned is the one the loop assigned last.  Without a
    receiving device the loop does not run and the pointer is returned as it
    is, never assigned: [None]. *)
Definition LowerDTensorSendFromCPUToTFOp (send_input_layout : Layout)
    (send_input : Value) (dtensor_send : OpId) : M (option OpId) :=
  send <- deref dtensor_send ;;
  '(key, target_layout) <- DTensorSend_attrs send ;;
  def <- nonnull (getDefiningOp send_input) ;;
  builder <- setInsertionPointAfter def ;;
  let sending_devices := local_devices (mesh send_input_layout) in
  let receiving_devices := local_devices (mesh target_layout) in
  let tensor_name := key in
  lowered_send_op <-
    send_to_each builder send_input send tensor_name sending_devices
      receiving_devices None ;;
  erase dtensor_send ;;;
  ret lowered_send_op.

(** the loop of [LowerDTensorRecvFromCPUToTFOp] *)
Fixpoint recv_at_each (builder : OpBuilder) (loc : Loc) (type : TensorType)
    (tensor_name : string) (sending_devices receiving_devices : list string)
    (lowered_recv_op : option OpId) : M (option OpId) :=
  match receiving_devices with
  | [] => ret lowered_recv_op
  | receiving_device :: rest =>
      sending_device <- nonnull (nth_error sending_devices 0) ;;
      op <- create builder loc
              (_HostRecvOp tensor_name sending_device 0 receiving_device)
              [] [type] ;;
      recv_at_each builder loc type tensor_name sending_devices rest (Some op)
  end.

Definition LowerDTensorRecvFromCPUToTFOp (send_mesh : Mesh)
    (dtensor_recv : OpId) : M OpId :=
  recv <- deref dtensor_recv ;;
  '(key, recv_layout) <- DTensorRecv_attrs recv ;;
  recv_cluster <- getParentOfType_ClusterOp recv ;;
  recv_cluster <- nonnull recv_cluster ;;
  GetBody_front recv_cluster ;;;
  recv_type <- DTensorRecv_getType recv ;;
  let builder := OpBuilder_at recv in
  let tensor_name := key in
  let sending_devices := local_devices send_mesh in
  let receiving_devices := local_devices (mesh recv_layout) in
  let loc := op_loc recv in
  lowered_recv_op <-
    recv_at_each builder loc recv_type tensor_name sending_devices
      receiving_devices None ;;
  lowered_recv_op <- nonnull lowered_recv_op ;; (* assert(lowered_recv_op) *)
  Operation_replaceAllUsesWith dtensor_recv lowered_recv_op ;;;
  erase dtensor_recv ;;;
  ret lowered_recv_op.

Definition LowerDTensorRecvToTFOp (send_mesh : Mesh) (dtensor_recv : OpId)
    (output_type : TensorType) : M OpId :=
  recv <- deref dtensor_recv ;;
  '(key, recv_layout) <- DTensorRecv_attrs recv ;;
  recv_cluster <- getParentOfType_ClusterOp recv ;;
  recv_cluster <- nonnull recv_cluster ;;
  GetBody_front recv_cluster ;;;
  let builder := OpBuilder_at recv in
  let tensor_name := key in
  let sending_devices := local_devices send_mesh in
  let receiving_devices := local_devices (mesh recv_layout) in
  let loc := op_loc recv in
  sending_device <- nonnull (nth_error sending_devices 0) ;;
  receiving_device <- nonnull (nth_error receiving_devices 0) ;;
  create builder loc
    (_HostRecvOp tensor_name sending_device 0 receiving_device)
    [] [output_type].

(* ------------------------------------------------------------------ *)
(** ** Symbol table and subprogram names *)

(** [std::to_string] of an unsigned number *)
Definition decimal (n : nat) : string :=
  NilEmpty.string_of_uint (Nat.to_uint n).

Definition digit_of (c : ascii) : option nat :=
  let n := nat_of_ascii c in
  if (48 <=? n) && (n <=? 57) then Some (n - 48) else None.

(** [llvm::formatv(fmt, args...)] for the replacement fields [{0}] .. [{9}] *)
Fixpoint formatv (fmt : string) (args : list string) : string :=
  match fmt with
  | EmptyString => EmptyString
  | String c rest =>
      match rest with
      | String d (String e rest') =>
          if Ascii.eqb c "{" && Ascii.eqb e "}" then
            match digit_of d with
            | Some i => (nth i args EmptyString ++ formatv rest' args)%string
            | None => String c (formatv rest args)
            end
          else String c (formatv rest args)
      | _ => String c (formatv rest args)
      end
  end.

Definition taken (names : list string) (name : string) : bool :=
  existsb (String.eqb name) names.

(** the uniquing loop of [mlir::SymbolTable::insert]:
    [do name = base + "_" + to_string(counter++) while (name is taken)] *)
Fixpoint unique_name (fuel : nat) (names : list string) (base : string)
    (counter : nat) : option (string * nat) :=
  match fuel with
  | O => None
  | S fuel' =>
      let name := (base ++ "_" ++ decimal counter)%string in
      if taken names name then unique_name fuel' names base (S counter)
      else Some (name, S counter)
  end.

(** [mlir::SymbolTable]: the symbols are those of the module; the table keeps
    the counter of the uniquing loop. *)
Record SymbolTable : Type := mkSymbolTable { uniquingCounter : nat }.

Definition with_name (f : FuncOp) (name : string) : FuncOp :=
  {| fn_id := fn_id f; fn_loc := fn_loc f; sym_name := name;
     sym_visibility := sym_visibility f; fn_arg_types := fn_arg_types f;
     fn_arg_attrs := fn_arg_attrs f; fn_result_types := fn_result_types f |}.

Definition setVisibility (v : Visibility) (f : FuncOp) : FuncOp :=
  {| fn_id := fn_id f; fn_loc := fn_loc f; sym_name := sym_name f;
     sym_visibility := v; fn_arg_types := fn_arg_types f;
     fn_arg_attrs := fn_arg_attrs f; fn_result_types := fn_result_types f |}.

(** [symbol_table.insert(func_op)]: the function goes to the end of the
    module under its name, or, when the name is taken, under the first free
    name the uniquing loop finds.  The loop meets a free name within as many
    steps as there are symbols, plus one. *)
Definition SymbolTable_insert (symbol_table : SymbolTable) (func_op : FuncOp)
  : M (string * SymbolTable) :=
  m <- get ;;
  let names := map sym_name (mod_funcs m) in
  if taken names (sym_name func_op) then
    '(name, counter) <-
      nonnull (unique_name (S (List.length names)) names (sym_name func_op)
                 (uniquingCounter symbol_table)) ;;
    update_funcs (fun fs => fs ++ [with_name func_op name]) ;;;
    ret (name, {| uniquingCounter := counter |})
  else
    update_funcs (fun fs => fs ++ [func_op]) ;;;
    ret (sym_name func_op, symbol_table).

(** [func::FuncOp::create(location, name, type, attrs)] *)
Definition FuncOp_create (id : OpId) (location : Loc) (name : string)
    (inputs results : list TensorType) : FuncOp :=
  {| fn_id := id; fn_loc := location; sym_name := name;
     sym_visibility := Public; fn_arg_types := inputs;
     fn_arg_attrs := repeat [] (List.length inputs);
     fn_result_types := results |}.

(* ------------------------------------------------------------------ *)
(** ** Branching lowerings *)

Section Branching.

(** Helpers and constants of the repository that are declared elsewhere:
    the name and the structural hash of an operation (op_utils), the names of
    two attributes (constants), and the local type of a global tensor type
    under a layout (value_utils). *)
Variable OpName : Op -> string.
Variable OpHash : Op -> nat.
Variable kCustomDeviceAttr : string.
Variable kLayoutAttr : string.
Variable LocalTypeFromGlobalType : Layout -> TensorType -> StatusOr TensorType.

(** Modelled from the spec: [SetSingleLayoutOnOp] (layout_parsing) records
    the layout's string form as an attribute of the lowered op. *)
Definition SetSingleLayoutOnOp (op : OpId) (layout : Layout) : M unit :=
  setAttr op kLayoutAttr (ToString layout).

(** [GenerateBranches], the iteration of [llvm::enumerate(values)] from
    [index] on; the result is the list [branches] in the order of
    [push_back]. *)
Fixpoint GenerateBranches_from {V : Type} (index : nat) (op : Op)
    (symbol_table : SymbolTable) (result_types : list TensorType)
    (fmt : string) (values : list V)
    (fn : OpBuilder -> Loc -> option Value -> V -> M OpId)
  : M (list string) :=
  match values with
  | [] => ret []
  | value :: rest =>
      operand_types <- mapM getType (op_operands op) ;;
      let location := op_loc op in
      id <- fresh_id ;;
      let func_op :=
        FuncOp_create id location
          (formatv fmt [OpName op; decimal (OpHash op); decimal index])
          operand_types result_types in
      let func_op := setVisibility Private func_op in
      '(name, symbol_table) <- SymbolTable_insert symbol_table func_op ;;
      let fn_builder := {| ip_block := InFunc id; ip_before := None |} in
      let arg :=
        if Nat.ltb 0 (List.length operand_types)
        then Some (BlockArgument id 0) else None in
      branch_op <- fn fn_builder location arg value ;;
      branch <- deref branch_op ;;
      create fn_builder location ReturnOp (getResults branch) [] ;;;
      branches <-
        GenerateBranches_from (S index) op symbol_table result_types fmt rest
          fn ;;
      ret (name :: branches)
  end.

Definition GenerateBranches {V : Type} (op : Op) (symbol_table : SymbolTable)
    (result_types : list TensorType) (fmt : string) (values : list V)
    (fn : OpBuilder -> Loc -> option Value -> V -> M OpId)
  : M (list string) :=
  GenerateBranches_from 0 op symbol_table result_types fmt values fn.

(** the owner of a block argument, as a function *)
Definition arg_func (arg : option Value) : M (OpId * nat) :=
  arg <- nonnull arg ;;
  match arg with
  | BlockArgument f i => ret (f, i)
  | OpResult _ _ => crash
  end.

(** the lambda of [LowerOneToOneDTensorSendToTFHostSend]: the body of one
    branch function, with its captures [send_layout], [i32_copy] and
    [tensor_name] *)
Definition send_branch (send_layout : Layout) (i32_copy : bool)
    (tensor_name : string) (op_builder : OpBuilder) (loc : Loc)
    (arg : option Value) (device_pair : string * string) : M OpId :=
  '(func_op, arg_number) <- arg_func arg ;;
  setArgAttr func_op arg_number kCustomDeviceAttr (ToString send_layout) ;;;
  let val := BlockArgument func_op arg_number in
  val <-
    (if i32_copy then
       val_type <- getType val ;;
       cast <- create op_builder loc CastOp [val]
                 [RankedTensorType (getShape val_type) (IntegerType 64)] ;;
       ret (OpResult cast 0)
     else ret val) ;;
  create op_builder loc
    (_HostSendOp tensor_name (fst device_pair) 0 (snd device_pair) false)
    [val] [].

(** the lambda of [LowerOneToOneDTensorRecvToTFHostRecv], with its captures
    [recv_layout], [local_output_type] and [tensor_name] *)
Definition recv_branch (recv_layout : Layout) (local_output_type : TensorType)
    (tensor_name : string) (op_builder : OpBuilder) (loc : Loc)
    (_ : option Value) (device_pair : string * string) : M OpId :=
  recv_op <-
    create op_builder loc
      (_HostRecvOp tensor_name (fst device_pair) 0 (snd device_pair))
      [] [local_output_type] ;;
  SetSingleLayoutOnOp recv_op recv_layout ;;;
  ret recv_op.

Definition LowerOneToOneDTensorSendToTFHostSend (order : ArgOrder)
    (send_layout : Layout) (recv_mesh : Mesh) (dtensor_send : OpId) : M OpId :=
  send <- deref dtensor_send ;;
  '(key, _) <- DTensorSend_attrs send ;;
  let send_mesh := mesh send_layout in
  input <- DTensorSend_input send ;;
  input_type <- getType input ;;
  let i32_copy := isInteger 32 (getElementType input_type) in
  let symbol_table := {| uniquingCounter := 0 |} in
  let device_pairs :=
    combine (local_devices send_mesh) (local_devices recv_mesh) in
  let builder := OpBuilder_at send in
  send_cluster <- getParentOfType_ClusterOp send ;;
  send_fn <- (c <- nonnull send_cluster ;; getParentOfType_FuncOp c) ;;
  mesh <- ExtractDeviceMeshFromOp send_cluster ;;
  mesh <- nonnull mesh ;; (* *mesh *)
  device_ordinal <-
    GetDeviceOrdinal order mesh (op_loc send) send_fn builder false ;;
  let tensor_name := key in
  branches <-
    GenerateBranches send symbol_table [] "{0}_send_{1}_{2}" device_pairs
      (send_branch send_layout i32_copy tensor_name) ;;
  case_op <-
    create builder (op_loc send) (CaseOp branches false)
      (device_ordinal :: op_operands send) [] ;;
  (if String.eqb (device_type recv_mesh) "GPU" then erase dtensor_send
   else ret tt) ;;;
  ret case_op.

Definition LowerOneToOneDTensorRecvToTFHostRecv (order : ArgOrder)
    (send_mesh : Mesh) (recv_layout : Layout) (dtensor_recv : OpId) : M OpId :=
  recv <- deref dtensor_recv ;;
  '(key, layout) <- DTensorRecv_attrs recv ;;
  let recv_mesh := mesh recv_layout in
  let symbol_table := {| uniquingCounter := 0 |} in
  let device_pairs :=
    combine (local_devices send_mesh) (local_devices recv_mesh) in
  let builder := OpBuilder_at recv in
  recv_cluster <- getParentOfType_ClusterOp recv ;;
  recv_fn <- (c <- nonnull recv_cluster ;; getParentOfType_FuncOp c) ;;
  mesh <- ExtractDeviceMeshFromOp recv_cluster ;;
  mesh <- nonnull mesh ;; (* *mesh *)
  recv_cluster <- nonnull recv_cluster ;;
  device_ordinal <-
    GetDeviceOrdinal order mesh (cl_loc recv_cluster) recv_fn builder false ;;
  recv_type <- DTensorRecv_getType recv ;;
  let i32_copy := isInteger 32 (getElementType recv_type) in
  local_recv_type <-
    assign_or_return (LocalTypeFromGlobalType layout recv_type) ;;
  let local_output_type :=
    if i32_copy
    then RankedTensorType (getShape local_recv_type) (IntegerType 64)
    else local_recv_type in
  let tensor_name := key in
  branches <-
    GenerateBranches recv symbol_table [local_output_type]
      "{0}_receive_{1}_{2}" device_pairs
      (recv_branch recv_layout local_output_type tensor_name) ;;
  case_op <-
    create builder (op_loc recv) (CaseOp branches false)
      (device_ordinal :: op_operands recv) [local_output_type] ;;
  lowered_recv <-
    (if i32_copy then
       create builder (op_loc recv) CastOp [OpResult case_op 0]
         [local_recv_type]
     else ret case_op) ;;
  Value_replaceAllUsesWith (OpResult dtensor_recv 0) (OpResult lowered_recv 0) ;;;
  erase dtensor_recv ;;;
  ret lowered_recv.

End Branching.

(* ------------------------------------------------------------------ *)
(** ** What the emitted ops compute

    The run-time meaning of the four op kinds the ordinal computation is
    made of, by demand from a value back to the arguments of the function. *)

Record Tensor : Type := mkTensor { t_type : TensorType; t_data : list Z }.

Definition Env := Value -> option Tensor.

Definition numel (ty : TensorType) : Z := fold_right Z.mul 1%Z (getShape ty).

(** two's complement wrap-around to [w] bits *)
Definition wrap (w : nat) (z : Z) : Z :=
  let half := Z.pow 2 (Z.of_nat w - 1) in
  ((z + half) mod (2 * half) - half)%Z.

Definition cast_to (from to : ElementType) (z : Z) : Z :=
  match from, to with
  | IntegerType a, IntegerType b => if Nat.leb a b then z else wrap b z
  | _, _ => z
  end.

Definition eval_op (o : Op) (args : list Tensor) : option Tensor :=
  match op_kind o, args, op_types o with
  | ConstOp value, [], [ty] => Some (mkTensor ty value)
  | ReshapeOp, [t], [ty] =>
      if Z.eqb (numel ty) (Z.of_nat (List.length (t_data t)))
      then Some (mkTensor ty (t_data t)) else None
  | SliceOp, [input; begin; size], [ty] =>
      match t_data begin, t_data size with
      | [b], [s] =>
          if ((0 <=? b) && (0 <=? s)
              && (b + s <=? Z.of_nat (List.length (t_data input))))%Z
          then Some (mkTensor ty
                       (firstn (Z.to_nat s) (skipn (Z.to_nat b) (t_data input))))
          else None
      | _, _ => None
      end
  | CastOp, [t], [ty] =>
      Some (mkTensor ty
              (map (cast_to (getElementType (t_type t)) (getElementType ty))
                 (t_data t)))
  | _, _, _ => None
  end.

Fixpoint all_some {A} (l : list (option A)) : option (list A) :=
  match l with
  | [] => Some []
  | Some a :: l' => option_map (cons a) (all_some l')
  | None :: _ => None
  end.

Fixpoint eval (fuel : nat) (m : ModuleOp) (env : Env) (v : Value)
  : option Tensor :=
  match v with
  | BlockArgument _ _ => env v
  | OpResult x i =>
      match fuel, i with
      | S fuel', O =>
          match lookup_op m x with
          | Some o =>
              match all_some (map (eval fuel' m env) (op_operands o)) with
              | Some args => eval_op o args
              | None => None
              end
          | None => None
          end
      | _, _ => None
      end
  end.

(** a scalar 32-bit tensor *)
Definition scalar_i32 (z : Z) : Tensor :=
  mkTensor (RankedTensorType [] (IntegerType 32)) [z].

(* ------------------------------------------------------------------ *)
(** ** Well-formed modules *)

(** identities are unique and below the next fresh one *)
Definition wf_module (m : ModuleOp) : Prop :=
  NoDup (map op_id (mod_ops m)) /\
  (forall o, In o (mod_ops m) -> op_id o < next_id m) /\
  (forall f, In f (mod_funcs m) -> fn_id f < next_id m).

(** a mesh lists each local device once, by an id below the device count *)
Definition mesh_consistent (mesh : Mesh) : Prop :=
  NoDup (local_device_ids mesh) /\
  Forall (fun id => (0 <= id < num_devices mesh)%Z) (local_device_ids mesh).

(** the backend kinds of the design document: host/CPU, accelerator/TPU,
    accelerator/GPU *)
Definition is_accelerator (mesh : Mesh) : bool :=
  String.eqb (device_type mesh) "TPU" || String.eqb (device_type mesh) "GPU".

(** a mesh, and a layout, cut down to their first [n] local devices *)
Definition truncate_devices (n : nat) (mesh : Mesh) : Mesh :=
  {| num_devices := num_devices mesh;
     local_device_ids := local_device_ids mesh;
     local_devices := firstn n (local_devices mesh);
     device_type := device_type mesh |}.

Definition truncate_layout (n : nat) (layout : Layout) : Layout :=
  {| mesh := truncate_devices n (mesh layout); ToString := ToString layout |}.

Definition is_cast (o : Op) : bool :=
  match op_kind o with
  | CastOp => true
  | _ => false
  end.

(** every operand that is the result of an operation comes from an
    operation with an identity below [n] *)
Definition operands_below (n : OpId) (o : Op) : Prop :=
  forall y i, In (OpResult y i) (op_operands o) -> y < n.


(** the operation with identity [x] is no longer in the module *)
Definition erased (m : ModuleOp) (x : OpId) : Prop := lookup_op m x = None.

(** the operations of [m] that take a result of [x] as an operand *)
Definition users (m : ModuleOp) (x : OpId) : list Op :=
  filter (uses_result_of x) (mod_ops m).

(** the operations of [m'] that were created after [m] *)
Definition created (m m' : ModuleOp) : list Op :=
  filter (fun o => Nat.leb (next_id m) (op_id o)) (mod_ops m').

(** the functions of [m'] that were created after [m] *)
Definition created_funcs (m m' : ModuleOp) : list FuncOp :=
  filter (fun f => Nat.leb (next_id m) (fn_id f)) (mod_funcs m').

(* ------------------------------------------------------------------ *)
(** ** What a lowering is expected to build

    The operations and symbols the claims speak of, written out: what a
    lowering creates is compared with these. *)

(* ---------- create ---------- *)
Definition new_op (b : OpBuilder) loc k operands types (m : ModuleOp) : Op :=
  {| op_id := next_id m; op_loc := loc; op_kind := k;
     op_operands := operands; op_types := types;
     op_attrs := []; op_block := ip_block b |}.

Definition key_ops (c : OpId) (ops : list Op) : list Op :=
  filter (fun o => in_cluster c o && is_program_key o) ops.

Definition cluster_body (m : ModuleOp) (c : OpId) : list Op :=
  filter (in_cluster c) (mod_ops m).

(** the place (0, 1 or 2) each of the three arguments has in the order of
    evaluation *)
Definition arg_rank (order : ArgOrder) : nat * nat * nat :=
  match order with
  | Args123 => (0, 1, 2)
  | Args132 => (0, 2, 1)
  | Args213 => (1, 0, 2)
  | Args231 => (2, 0, 1)
  | Args312 => (1, 2, 0)
  | Args321 => (2, 1, 0)
  end.

(** three things, listed in the order in which they are evaluated *)
Definition in_order {A} (order : ArgOrder) (a b c : A) : list A :=
  match order with
  | Args123 => [a; b; c]
  | Args132 => [a; c; b]
  | Args213 => [b; a; c]
  | Args231 => [b; c; a]
  | Args312 => [c; a; b]
  | Args321 => [c; b; a]
  end.

(** the operations [GetDeviceOrdinal] emits, first identity [n]: the three
    operands of the slice in the order the compiler evaluates them, then the
    slice, the reshape and, when asked for, the cast *)
Definition ordinal_ops (order : ArgOrder) (builder : OpBuilder) (loc : Loc)
    (table : list Z) (device_id : Value) (n : OpId) (return_int64_type : bool)
  : list Op :=
  let mk id k operands types :=
    mkOp id loc k operands types [] (ip_block builder) in
  let '(i, j, k) := arg_rank order in
  in_order order
    (mk (i + n) (ConstOp table) []
       [RankedTensorType [Z.of_nat (List.length table)] (IntegerType 32)])
    (mk (j + n) ReshapeOp [device_id]
       [RankedTensorType [1%Z] (IntegerType 32)])
    (mk (k + n) (ConstOp [1%Z]) [] [RankedTensorType [1%Z] (IntegerType 32)])
  ++ [ mk (3 + n) SliceOp
         [OpResult (i + n) 0; OpResult (j + n) 0; OpResult (k + n) 0]
         [RankedTensorType [1%Z] (IntegerType 32)];
       mk (4 + n) ReshapeOp [OpResult (3 + n) 0]
         [RankedTensorType [] (IntegerType 32)] ]
  ++ (if return_int64_type
      then [mk (5 + n) CastOp [OpResult (4 + n) 0]
              [RankedTensorType [] (IntegerType 64)]]
      else []).

(** the sends and receives a fan-out lowering is expected to emit, one per
    receiving device, first identity [n] *)
Fixpoint host_sends (blk : Block) (loc : Loc) (key sd : string) (input : Value)
    (rds : list string) (n : OpId) : list Op :=
  match rds with
  | [] => []
  | rd :: rest =>
      mkOp n loc (_HostSendOp key sd 0 rd false) [input] [] [] blk
      :: host_sends blk loc key sd input rest (S n)
  end.

Fixpoint host_recvs (blk : Block) (loc : Loc) (key sd : string)
    (type : TensorType) (rds : list string) (n : OpId) : list Op :=
  match rds with
  | [] => []
  | rd :: rest =>
      mkOp n loc (_HostRecvOp key sd 0 rd) [] [type] [] blk
      :: host_recvs blk loc key sd type rest (S n)
  end.

(** the names the branch functions of a Send are given, for the op name
    [name], the hash [hash] and the index [i] of the device pair *)
Definition send_branch_name (name : string) (hash i : nat) : string :=
  (name ++ "_send_" ++ decimal hash ++ "_" ++ decimal i)%string.

(** the same for the branch functions of a Recv *)
Definition receive_branch_name (name : string) (hash i : nat) : string :=
  (name ++ "_receive_" ++ decimal hash ++ "_" ++ decimal i)%string.

(** what a symbol is to the rest of the module *)
Definition func_sig (f : FuncOp) : OpId * string * Visibility :=
  (fn_id f, sym_name f, sym_visibility f).

Definition sig_name (s : OpId * string * Visibility) : string := snd (fst s).

Definition is_return (o : Op) : Prop :=
  op_kind o = ReturnOp /\ operands_below (op_id o) o.

(** the type the branches and the case op of a one-to-one receive declare *)
Definition declared_output_type (recv_type local_recv_type : TensorType)
  : TensorType :=
  if isInteger 32 (getElementType recv_type)
  then RankedTensorType (getShape local_recv_type) (IntegerType 64)
  else local_recv_type.

(** what the branch body of the one-to-one receive creates *)
Definition host_recv_of (type : TensorType) (o : Op) : Prop :=
  (exists key sd rd, op_kind o = _HostRecvOp key sd 0 rd) /\
  op_types o = [type] /\ op_operands o = [] /\
  exists f, op_block o = InFunc f.

(* ------------------------------------------------------------------ *)
(** ** A sample program

    A function [main] with the device id as its argument and two clusters,
    one per mesh: the first produces a tensor and sends it, the second
    receives it and uses it. *)

Local Open Scope string_scope.

Definition i32_tensor : TensorType := RankedTensorType [4%Z] (IntegerType 32).
Definition f32_tensor : TensorType := RankedTensorType [4%Z] (FloatType 32).

Definition cpu_mesh : Mesh :=
  {| num_devices := 4; local_device_ids := [2%Z; 3%Z];
     local_devices := ["/job:localhost/task:0/device:CPU:0";
                       "/job:localhost/task:0/device:CPU:1"];
     device_type := "CPU" |}.

Definition gpu_mesh : Mesh :=
  {| num_devices := 2; local_device_ids := [0%Z; 1%Z];
     local_devices := ["/job:localhost/task:0/device:GPU:0";
                       "/job:localhost/task:0/device:GPU:1"];
     device_type := "GPU" |}.

Definition tpu_mesh : Mesh :=
  {| num_devices := 2; local_device_ids := [0%Z; 1%Z];
     local_devices := ["/job:localhost/task:0/device:TPU:0";
                       "/job:localhost/task:0/device:TPU:1";
                       "/job:localhost/task:0/device:TPU:2"];
     device_type := "TPU" |}.

Definition cpu_layout : Layout :=
  {| mesh := cpu_mesh; ToString := "sharding_specs:unsharded, mesh:cpu" |}.
Definition gpu_layout : Layout :=
  {| mesh := gpu_mesh; ToString := "sharding_specs:unsharded, mesh:gpu" |}.
Definition tpu_layout : Layout :=
  {| mesh := tpu_mesh; ToString := "sharding_specs:unsharded, mesh:tpu" |}.

Definition sample_ops (elem : TensorType) (target source : Layout) : list Op :=
  [ mkOp 3 "a" (OtherOp "tf.A") [] [elem] [] (InCluster 1);
    mkOp 4 "send" (DTensorSend "t1" target) [OpResult 3 0] [] [] (InCluster 1);
    mkOp 5 "ret1" (OtherOp "tf_device.return") [] [] [] (InCluster 1);
    mkOp 6 "recv" (DTensorRecv "t1" source) [] [elem] [] (InCluster 2);
    mkOp 7 "b" (OtherOp "tf.B") [OpResult 6 0] [elem] [] (InCluster 2);
    mkOp 8 "ret2" (OtherOp "tf_device.return") [OpResult 7 0] [] [] (InCluster 2) ].

Definition sample_module (elem : TensorType) (send_mesh recv_mesh : Mesh)
    (target source : Layout) : ModuleOp :=
  {| mod_ops := sample_ops elem target source;
     mod_clusters :=
       [ mkCluster 1 "c1" (OkValue (Some send_mesh)) (Some 0);
         mkCluster 2 "c2" (OkValue (Some recv_mesh)) (Some 0) ];
     mod_funcs :=
       [ mkFunc 0 "main" "main" Public
           [RankedTensorType [] (IntegerType 32)] [[]] [] ];
     next_id := 9 |}.

(** host to host *)
Definition cpu_module : ModuleOp :=
  sample_module i32_tensor cpu_mesh cpu_mesh cpu_layout cpu_layout.

(** host to a GPU mesh, and host to a TPU mesh *)
Definition cpu_gpu_module : ModuleOp :=
  sample_module i32_tensor cpu_mesh gpu_mesh gpu_layout gpu_layout.
Definition cpu_tpu_module : ModuleOp :=
  sample_module i32_tensor cpu_mesh tpu_mesh tpu_layout tpu_layout.

(** a [DTensorSend] outside every cluster *)
Definition stray_module : ModuleOp :=
  {| mod_ops :=
       [ mkOp 3 "a" (OtherOp "tf.A") [] [f32_tensor] [] (InFunc 0);
         mkOp 4 "send" (DTensorSend "t1" tpu_layout) [OpResult 3 0] [] []
           (InFunc 0) ];
     mod_clusters := [];
     mod_funcs :=
       [ mkFunc 0 "main" "main" Public
           [RankedTensorType [] (IntegerType 32)] [[]] [] ];
     next_id := 5 |}.

(** a [DTensorSend] in a cluster that carries no mesh *)
Definition meshless_module : ModuleOp :=
  {| mod_ops := sample_ops i32_tensor gpu_layout cpu_layout;
     mod_clusters :=
       [ mkCluster 1 "c1" (OkValue None) (Some 0);
         mkCluster 2 "c2" (OkValue None) (Some 0) ];
     mod_funcs :=
       [ mkFunc 0 "main" "main" Public
           [RankedTensorType [] (IntegerType 32)] [[]] [] ];
     next_id := 9 |}.

(** sample instances of the helpers declared elsewhere *)
Definition sample_OpName (o : Op) : string :=
  match op_kind o with
  | DTensorSend _ _ => "tf.DTensorSend"
  | DTensorRecv _ _ => "tf.DTensorRecv"
  | _ => "op"
  end.
Definition sample_OpHash (o : Op) : nat := 17 + op_id o.
Definition sample_LocalType (_ : Layout) (t : TensorType)
  : StatusOr TensorType := OkValue t.

Local Close Scope string_scope.

(* ------------------------------------------------------------------ *)
(** ** Further sample programs, and notions used in the statements *)

(** a computation that reports no status: it returns or it crashes *)
Definition never_fails {A} (c : M A) : Prop :=
  forall m s m', c m <> Fails s m'.

(** a mesh that lists a local device id beyond its device count *)
Definition overflowing_mesh : Mesh :=
  {| num_devices := 4; local_device_ids := [0%Z; 5%Z];
     local_devices := ["/job:localhost/task:0/device:CPU:0"%string;
                       "/job:localhost/task:0/device:CPU:1"%string];
     device_type := "CPU"%string |}.

(** the sample program with two compilation keys in the first cluster and
    one in the second *)
Definition keyed_module : ModuleOp :=
  {| mod_ops :=
       [ mkOp 9 "key1"%string _TPUCompileMlirPlaceholderProgramKeyOp []
           [RankedTensorType [3%Z] StringType] [] (InCluster 1);
         mkOp 3 "a"%string (OtherOp "tf.A"%string) [] [i32_tensor] []
           (InCluster 1);
         mkOp 10 "key2"%string _TPUCompileMlirPlaceholderProgramKeyOp []
           [RankedTensorType [3%Z] StringType] [] (InCluster 1);
         mkOp 4 "send"%string (DTensorSend "t1"%string tpu_layout)
           [OpResult 3 0] [] [] (InCluster 1);
         mkOp 11 "key3"%string _TPUCompileMlirPlaceholderProgramKeyOp []
           [RankedTensorType [3%Z] StringType] [] (InCluster 2) ];
     mod_clusters := mod_clusters cpu_tpu_module;
     mod_funcs := mod_funcs cpu_tpu_module;
     next_id := 12 |}.

(** a mesh without local devices, and the sample program sending to it *)
Definition deviceless_mesh : Mesh :=
  {| num_devices := 2; local_device_ids := []; local_devices := [];
     device_type := "CPU"%string |}.

(** a layout on the mesh without local devices *)
Definition deviceless_layout : Layout :=
  {| mesh := deviceless_mesh;
     ToString := "sharding_specs:unsharded, mesh:remote"%string |}.

(** the sample program sending to, and receiving on, that mesh *)
Definition deviceless_module : ModuleOp :=
  sample_module i32_tensor cpu_mesh deviceless_mesh deviceless_layout
    deviceless_layout.

(** a [DTensorRecv] outside every cluster *)
Definition stray_recv_module : ModuleOp :=
  {| mod_ops :=
       [ mkOp 6 "recv"%string (DTensorRecv "t1"%string cpu_layout) []
           [i32_tensor] [] (InFunc 0);
         mkOp 7 "b"%string (OtherOp "tf.B"%string) [OpResult 6 0]
           [i32_tensor] [] (InFunc 0) ];
     mod_clusters := [];
     mod_funcs := mod_funcs cpu_module;
     next_id := 9 |}.

(** [ordinal] is a scalar integer of [width] bits that, where the running
    device has id [d], holds entry [d] of [table] *)
Definition computes_ordinal (m : ModuleOp) (table : list Z)
    (device_id ordinal : Value) (width : nat) : Prop :=
  getType ordinal m = Done (RankedTensorType [] (IntegerType width)) m /\
  forall env d,
    (0 <= d < Z.of_nat (List.length table))%Z ->
    env device_id = Some (scalar_i32 d) ->
    eval 4 m env ordinal
    = Some (mkTensor (RankedTensorType [] (IntegerType width))
              [nth (Z.to_nat d) table 0%Z]).

(** the operations of a list without the one of identity [x] *)
Definition without (x : OpId) (l : list Op) : list Op :=
  filter (fun o => negb (Nat.eqb (op_id o) x)) l.

(** the sample program with a TPU source mesh *)
Definition tpu_cpu_module : ModuleOp :=
  sample_module i32_tensor tpu_mesh cpu_mesh cpu_layout tpu_layout.

(** the sample program with clusters that sit in no function *)
Definition orphan_module : ModuleOp :=
  {| mod_ops := sample_ops i32_tensor tpu_layout cpu_layout;
     mod_clusters :=
       [ mkCluster 1 "c1"%string (OkValue (Some cpu_mesh)) None;
         mkCluster 2 "c2"%string (OkValue (Some cpu_mesh)) None ];
     mod_funcs := mod_funcs cpu_module;
     next_id := 9 |}.

(** the function [GenerateBranches] creates for one branch, as it stands
    after [symbol_table.insert]: private, under the name the symbol table
    gave it, from the operand types of the abstract op to the result types
    asked for, no argument attributes yet *)
Definition branch_func (id : OpId) (loc : Loc) (name : string)
    (inputs results : list TensorType) : FuncOp :=
  {| fn_id := id; fn_loc := loc; sym_name := name;
     sym_visibility := Private; fn_arg_types := inputs;
     fn_arg_attrs := repeat [] (List.length inputs);
     fn_result_types := results |}.

(** the sample program moving a tensor of floats from the host to a GPU *)
Definition float_module : ModuleOp :=
  sample_module f32_tensor cpu_mesh gpu_mesh gpu_layout gpu_layout.

(** a local-type helper that reports a status *)
Definition failing_LocalType (_ : Layout) (_ : TensorType)
  : StatusOr TensorType :=
  NotOk {| code := INTERNAL; message := "no local type"%string |}.

(* ================================================================== *)
(** * Proofs *)

(* ---------- monad inversion ---------- *)
Lemma bind_Done {A B} (c : M A) (k : A -> M B) m b m' :
  bind c k m = Done b m' ->
  exists a m1, c m = Done a m1 /\ k a m1 = Done b m'.
Proof.
  unfold bind. destruct (c m) as [a m1| |]; try discriminate.
  intros H. now exists a, m1.
Qed.

Lemma nonnull_Done {A} (o : option A) m a m' :
  nonnull o m = Done a m' -> o = Some a /\ m' = m.
Proof.
  destruct o; cbn; intros H; inversion H; auto.
Qed.

Lemma deref_Done x m o m' :
  deref x m = Done o m' -> lookup_op m x = Some o /\ m' = m.
Proof. unfold deref. apply nonnull_Done. Qed.

Lemma get_Done m a m' : get m = Done a m' -> a = m /\ m' = m.
Proof. unfold get. intros H; inversion H; auto. Qed.

Lemma ret_Done {A} (a : A) m b m' : ret a m = Done b m' -> b = a /\ m' = m.
Proof. unfold ret. intros H; inversion H; auto. Qed.

(* ---------- lists of operations ---------- *)
Lemma split_before_app y l :
  l = fst (split_before y l) ++ snd (split_before y l).
Proof.
  induction l as [|o l IH]; cbn; auto.
  destruct (Nat.eqb (op_id o) y); cbn; auto.
  destruct (split_before y l) as [a b]; cbn in *. now f_equal.
Qed.

Lemma place_split pt n l :
  exists a b, l = a ++ b /\ place pt n l = a ++ n :: b.
Proof.
  destruct pt as [y|]; cbn.
  - pose proof (split_before_app y l) as E.
    destruct (split_before y l) as [a b]; cbn in E. now exists a, b.
  - exists l, []. now rewrite app_nil_r.
Qed.

Lemma in_place pt n l o : In o (place pt n l) <-> o = n \/ In o l.
Proof.
  destruct (place_split pt n l) as (a & b & -> & ->).
  rewrite !in_app_iff; cbn. intuition congruence.
Qed.

Lemma place_perm pt n l : Permutation (n :: l) (place pt n l).
Proof.
  destruct (place_split pt n l) as (a & b & -> & ->).
  apply Permutation_middle.
Qed.

Lemma lookup_In m x o :
  lookup_op m x = Some o -> In o (mod_ops m) /\ op_id o = x.
Proof.
  unfold lookup_op. intros H. apply find_some in H as [H1 H2].
  split; auto. now apply Nat.eqb_eq.
Qed.

Lemma NoDup_find (l : list Op) o :
  NoDup (map op_id l) -> In o l ->
  find (fun o' => Nat.eqb (op_id o') (op_id o)) l = Some o.
Proof.
  induction l as [|p l IH]; cbn; [easy|].
  intros ND [->|Hin].
  - now rewrite Nat.eqb_refl.
  - inversion ND as [|? ? Hn ND']; subst.
    destruct (Nat.eqb (op_id p) (op_id o)) eqn:E.
    + apply Nat.eqb_eq in E. exfalso. apply Hn. rewrite E. now apply in_map.
    + auto.
Qed.

Lemma In_lookup m o :
  NoDup (map op_id (mod_ops m)) -> In o (mod_ops m) ->
  lookup_op m (op_id o) = Some o.
Proof. apply NoDup_find. Qed.

Lemma lookup_None m x :
  lookup_op m x = None <-> (forall o, In o (mod_ops m) -> op_id o <> x).
Proof.
  unfold lookup_op. split.
  - intros H o Hin E.
    apply (find_none _ _ H) in Hin. apply Nat.eqb_neq in Hin. auto.
  - intros H. destruct (find _ _) eqn:E; auto.
    apply find_some in E as [E1 E2]. apply Nat.eqb_eq in E2.
    exfalso. eapply H; eauto.
Qed.

Lemma create_Done b loc k operands types m r m' :
  create b loc k operands types m = Done r m' ->
  r = next_id m /\
  mod_ops m' = place (ip_before b) (new_op b loc k operands types m) (mod_ops m) /\
  mod_clusters m' = mod_clusters m /\
  mod_funcs m' = mod_funcs m /\
  next_id m' = S (next_id m).
Proof. unfold create. intros H; inversion H; subst; cbn. auto. Qed.

Lemma wf_place m m' pt n :
  wf_module m ->
  mod_ops m' = place pt n (mod_ops m) ->
  op_id n = next_id m ->
  mod_funcs m' = mod_funcs m ->
  next_id m' = S (next_id m) ->
  wf_module m'.
Proof.
  intros (ND & Hops & Hfn) Eo En Ef Ei. unfold wf_module.
  rewrite Eo, Ef, Ei. repeat split.
  - eapply Permutation_NoDup.
    + apply Permutation_map. apply place_perm.
    + cbn. constructor; auto.
      rewrite in_map_iff. intros (o & E1 & E2). apply Hops in E2. lia.
  - intros o Hin. apply in_place in Hin as [->|Hin]; [lia|].
    apply Hops in Hin. lia.
  - intros f Hin. apply Hfn in Hin. lia.
Qed.

Lemma wf_create b loc k operands types m r m' :
  wf_module m ->
  create b loc k operands types m = Done r m' -> wf_module m'.
Proof.
  intros W H. apply create_Done in H as (_ & Eo & _ & Ef & Ei).
  eapply wf_place; eauto.
Qed.

Lemma lookup_create_new b loc k operands types m r m' :
  wf_module m ->
  create b loc k operands types m = Done r m' ->
  lookup_op m' r = Some (new_op b loc k operands types m).
Proof.
  intros W H. pose proof (wf_create _ _ _ _ _ _ _ _ W H) as (ND & _).
  apply create_Done in H as (-> & Eo & _).
  change (next_id m) with (op_id (new_op b loc k operands types m)) at 1.
  apply In_lookup; auto. rewrite Eo. apply in_place. now left.
Qed.

Lemma lookup_create_old b loc k operands types m r m' x :
  wf_module m ->
  create b loc k operands types m = Done r m' ->
  x <> r ->
  lookup_op m' x = lookup_op m x.
Proof.
  intros W H Hx. pose proof (wf_create _ _ _ _ _ _ _ _ W H) as (ND' & _).
  destruct W as (ND & _).
  apply create_Done in H as (-> & Eo & _).
  destruct (lookup_op m x) as [o|] eqn:E.
  - apply lookup_In in E as [E1 <-]. apply In_lookup; auto.
    rewrite Eo. apply in_place. now right.
  - apply lookup_None. intros o Hin. rewrite Eo in Hin.
    apply in_place in Hin as [->|Hin]; cbn; auto.
    rewrite lookup_None in E. auto.
Qed.

Lemma Block_eqb_eq a b : Block_eqb a b = true <-> a = b.
Proof.
  destruct a, b; cbn; try (split; congruence);
    rewrite Nat.eqb_eq; split; congruence.
Qed.

Lemma in_cluster_true c o : in_cluster c o = true <-> op_block o = InCluster c.
Proof. unfold in_cluster. apply Block_eqb_eq. Qed.

Lemma lookup_cluster_id m c cl : lookup_cluster m c = Some cl -> cl_id cl = c.
Proof.
  unfold lookup_cluster. intros H. apply find_some in H as [_ H].
  now apply Nat.eqb_eq.
Qed.

Lemma filter_nil {A} (f : A -> bool) l :
  (forall x, In x l -> f x = false) -> filter f l = [].
Proof.
  induction l as [|a l IH]; cbn; auto. intros H.
  rewrite (H a) by auto. apply IH. auto.
Qed.

Lemma filter_nil_inv {A} (f : A -> bool) l x :
  filter f l = [] -> In x l -> f x = false.
Proof.
  intros E Hin. destruct (f x) eqn:F; auto.
  assert (In x (filter f l)) by (apply filter_In; auto).
  rewrite E in H. destruct H.
Qed.

Lemma walk_fold c ops acc :
  fold_left
    (fun key o =>
       if in_cluster c o && is_program_key o
       then Some (OpResult (op_id o) 0) else key) ops acc
  = match rev (key_ops c ops) with
    | p :: _ => Some (OpResult (op_id p) 0)
    | [] => acc
    end.
Proof.
  revert acc. induction ops as [|o l IH]; intros acc; cbn; auto.
  rewrite IH. unfold key_ops; cbn.
  destruct (in_cluster c o && is_program_key o); auto.
  cbn. destruct (rev _); cbn; auto.
Qed.

Lemma walk_program_keys_last c ops :
  walk_program_keys c ops =
  option_map (fun p => OpResult (op_id p) 0) (hd_error (rev (key_ops c ops))).
Proof.
  unfold walk_program_keys. rewrite walk_fold. now destruct (rev _).
Qed.

Lemma walk_Some c ops key :
  walk_program_keys c ops = Some key ->
  exists p, In p ops /\ op_block p = InCluster c /\ is_program_key p = true /\
            key = OpResult (op_id p) 0.
Proof.
  rewrite walk_program_keys_last. destruct (rev _) as [|p r] eqn:E; cbn;
    [discriminate|].
  intros H; inversion H; subst. exists p.
  assert (Hin : In p (key_ops c ops)).
  { apply in_rev. rewrite E. now left. }
  apply filter_In in Hin as [H1 H2]. apply andb_true_iff in H2 as [H2 H3].
  apply in_cluster_true in H2. auto.
Qed.

Lemma walk_None c ops :
  walk_program_keys c ops = None -> key_ops c ops = [].
Proof.
  rewrite walk_program_keys_last. destruct (rev _) as [|p r] eqn:E; cbn;
    [|discriminate].
  intros _. apply (f_equal (@rev Op)) in E. now rewrite rev_involutive in E.
Qed.

Lemma front_split (P : Op -> bool) l front :
  find P l = Some front ->
  forall o, In o (fst (split_before (op_id front) l)) -> P o = false.
Proof.
  induction l as [|p l IH]; cbn; [discriminate|].
  destruct (P p) eqn:Pp.
  - intros H; inversion H; subst. rewrite Nat.eqb_refl. cbn. tauto.
  - intros H. destruct (Nat.eqb (op_id p) (op_id front)); cbn; [tauto|].
    specialize (IH H). destruct (split_before (op_id front) l) as [a b].
    cbn in *. intros o [<-|Hin]; auto.
Qed.

Lemma created_self m :
  wf_module m -> created m m = [].
Proof.
  intros (_ & H & _). apply filter_nil. intros o Hin.
  apply H in Hin. apply Nat.leb_gt. lia.
Qed.

Lemma GetOrCreateCompilationKey_Done op m key m1 o c :
  wf_module m ->
  lookup_op m op = Some o -> op_block o = InCluster c ->
  GetOrCreateCompilationKey op m = Done key m1 ->
  (exists p, In p (mod_ops m1) /\ op_block p = InCluster c /\
             is_program_key p = true /\ key = OpResult (op_id p) 0 /\
             walk_program_keys c (mod_ops m1) = Some key) /\
  wf_module m1 /\
  mod_clusters m1 = mod_clusters m /\
  (forall x, In x (mod_ops m) -> In x (mod_ops m1)) /\
  ((m1 = m /\ walk_program_keys c (mod_ops m) = Some key) \/
   (exists p,
       walk_program_keys c (mod_ops m) = None /\
       op_id p = next_id m /\
       op_kind p = _TPUCompileMlirPlaceholderProgramKeyOp /\
       op_types p = [RankedTensorType [3%Z] StringType] /\
       op_operands p = [] /\
       key = OpResult (op_id p) 0 /\
       created m m1 = [p] /\
       cluster_body m1 c = p :: cluster_body m c /\
       (forall x, In x (mod_ops m1) <-> x = p \/ In x (mod_ops m)))).
Proof.
  intros W L B H. unfold GetOrCreateCompilationKey in H.
  apply bind_Done in H as (o' & m0 & E & H).
  apply deref_Done in E as [E ->]. rewrite L in E. inversion E; subst o'.
  apply bind_Done in H as (cl & m0 & E' & H).
  unfold getParentOfType_ClusterOp in E'. rewrite B in E'.
  inversion E'; subst m0. clear E'.
  destruct (lookup_cluster m c) as [cluster|] eqn:LC; subst cl; [|discriminate].
  apply lookup_cluster_id in LC.
  apply bind_Done in H as (m0' & m0 & G & H).
  apply get_Done in G as [-> ->]. rewrite LC in H.
  destruct (walk_program_keys c (mod_ops m)) as [k|] eqn:Wk.
  - apply ret_Done in H as [-> ->].
    destruct (walk_Some _ _ _ Wk) as (p & P1 & P2 & P3 & P4).
    split; [exists p; auto|]. split; [exact W|]. split; [reflexivity|].
    split; [auto|]. left; auto.
  - apply bind_Done in H as (front & m0 & F & H).
    unfold GetBody_front in F. apply nonnull_Done in F as [F ->].
    rewrite LC in F.
    apply bind_Done in H as (r & m2 & C & H).
    apply ret_Done in H as [-> <-].
    pose proof (wf_create _ _ _ _ _ _ _ _ W C) as W1.
    pose proof C as C'.
    apply create_Done in C' as (-> & Eo & Ec & Ef & Ei).
    set (p := new_op (OpBuilder_at front) (cl_loc cluster)
                _TPUCompileMlirPlaceholderProgramKeyOp []
                [RankedTensorType [3%Z] StringType] m) in *.
    assert (Bp : op_block p = InCluster c).
    { cbn. apply find_some in F as [_ F]. now apply in_cluster_true. }
    assert (Hin : forall x, In x (mod_ops m1) <-> x = p \/ In x (mod_ops m)).
    { intros x. rewrite Eo. apply in_place. }
    assert (Body : cluster_body m1 c = p :: cluster_body m c).
    { unfold cluster_body. rewrite Eo. cbn [OpBuilder_at ip_before place].
      pose proof (front_split _ _ _ F) as Fs.
      pose proof (split_before_app (op_id front) (mod_ops m)) as Sp.
      destruct (split_before (op_id front) (mod_ops m)) as [a b]. cbn in *.
      rewrite Sp, !filter_app. cbn.
      replace (in_cluster c p) with true
        by (symmetry; now apply in_cluster_true).
      rewrite (filter_nil _ a Fs). reflexivity. }
    assert (Wk1 : walk_program_keys c (mod_ops m1) = Some (OpResult (op_id p) 0)).
    { rewrite walk_program_keys_last.
      apply walk_None in Wk.
      assert (K : key_ops c (mod_ops m1) = [p]).
      { unfold key_ops in *. rewrite Eo.
        destruct (place_split (ip_before (OpBuilder_at front)) p (mod_ops m))
          as (a & b & Sp & ->).
        rewrite Sp, filter_app in Wk. apply app_eq_nil in Wk as [Wa Wb].
        rewrite filter_app. cbn.
        replace (in_cluster c p) with true
          by (symmetry; now apply in_cluster_true).
        cbn. now rewrite Wa, Wb. }
      now rewrite K. }
    split; [exists p; repeat split; auto; apply Hin; now left|].
    split; auto. split; auto. split; [intros x Hx; apply Hin; now right|].
    right. exists p.
    split; [reflexivity|]. split; [reflexivity|]. split; [reflexivity|].
    split; [reflexivity|]. split; [reflexivity|]. split; [reflexivity|].
    split; [|split; [exact Body|exact Hin]].
    unfold created. rewrite Eo.
    destruct (place_split (ip_before (OpBuilder_at front)) p (mod_ops m))
      as (a & b & Sp & ->).
    destruct W as (_ & Hlt & _). rewrite filter_app. cbn.
    rewrite Nat.leb_refl.
    rewrite !filter_nil; auto; intros x Hx; apply Nat.leb_gt, Hlt;
      rewrite Sp; apply in_app_iff; auto.
Qed.

Lemma wf_lookup_mono m m1 x o :
  wf_module m1 ->
  (forall y, In y (mod_ops m) -> In y (mod_ops m1)) ->
  lookup_op m x = Some o -> lookup_op m1 x = Some o.
Proof.
  intros (ND & _) Hin L. apply lookup_In in L as [L <-].
  apply In_lookup; auto.
Qed.

Lemma wf_In_inj m o p :
  wf_module m -> In o (mod_ops m) -> In p (mod_ops m) ->
  op_id o = op_id p -> o = p.
Proof.
  intros (ND & _) Ho Hp E.
  apply (In_lookup _ _ ND) in Ho. apply (In_lookup _ _ ND) in Hp.
  rewrite E in Ho. congruence.
Qed.

(** Claim C5.  For operations inside clusters, a first call of
    [GetOrCreateCompilationKey] leaves the module as it is or creates exactly
    one placeholder of type [tensor<3x!tf.string>] at the front of the
    cluster body and returns its result; a later call from the same cluster
    returns the same value and creates nothing; a later call from another
    cluster returns a different value. *)
Theorem compilation_key_per_cluster :
  forall m op1 op2 o1 o2 c1 c2 key1 m1 key2 m2,
    wf_module m ->
    lookup_op m op1 = Some o1 -> op_block o1 = InCluster c1 ->
    lookup_op m op2 = Some o2 -> op_block o2 = InCluster c2 ->
    GetOrCreateCompilationKey op1 m = Done key1 m1 ->
    GetOrCreateCompilationKey op2 m1 = Done key2 m2 ->
    (m1 = m \/
     exists p,
       created m m1 = [p] /\
       op_kind p = _TPUCompileMlirPlaceholderProgramKeyOp /\
       op_types p = [RankedTensorType [3%Z] StringType] /\
       key1 = OpResult (op_id p) 0 /\
       cluster_body m1 c1 = p :: cluster_body m c1) /\
    (c1 = c2 -> key2 = key1 /\ m2 = m1) /\
    (c1 <> c2 -> key2 <> key1).
Proof.
  intros m op1 op2 o1 o2 c1 c2 key1 m1 key2 m2 W L1 B1 L2 B2 G1 G2.
  destruct (GetOrCreateCompilationKey_Done _ _ _ _ _ _ W L1 B1 G1)
    as ((p1 & P1 & Q1 & _ & K1 & Wk1) & W1 & _ & Mono & Cases).
  assert (L2' : lookup_op m1 op2 = Some o2) by (eapply wf_lookup_mono; eauto).
  destruct (GetOrCreateCompilationKey_Done _ _ _ _ _ _ W1 L2' B2 G2)
    as ((p2 & P2 & Q2 & _ & K2 & _) & W2 & _ & Mono2 & Cases2).
  split; [|split].
  - destruct Cases as [[-> _]|(p & _ & _ & Hk & Ht & _ & Hkey & Hc & Hb & _)];
      [now left|].
    right. exists p. auto.
  - intros <-.
    destruct Cases2 as [[-> Wk2]|(p & Wk2 & _)]; [|congruence].
    split; congruence.
  - intros Hc E. apply Hc. subst key1 key2. inversion E as [Eid].
    apply Mono2 in P1.
    assert (p2 = p1) by (eapply wf_In_inj; eauto).
    subst p2. congruence.
Qed.

Lemma sample_module_wf elem sm rm target source :
  wf_module (sample_module elem sm rm target source).
Proof.
  unfold wf_module; cbn. split; [|split].
  - repeat constructor; cbn; intuition lia.
  - intros o H. repeat (destruct H as [<-|H]; [cbn; lia|]). destruct H.
  - intros f H. repeat (destruct H as [<-|H]; [cbn; lia|]). destruct H.
Qed.

Lemma cpu_module_wf : wf_module cpu_module.
Proof.
  unfold wf_module; cbn. split; [|split].
  - repeat constructor; cbn; intuition lia.
  - intros o H. repeat (destruct H as [<-|H]; [cbn; lia|]). destruct H.
  - intros f H. repeat (destruct H as [<-|H]; [cbn; lia|]). destruct H.
Qed.

Lemma compilation_key_per_cluster_witness :
  exists key1 m1 key2 m2,
    GetOrCreateCompilationKey 4 cpu_module = Done key1 m1 /\
    GetOrCreateCompilationKey 6 m1 = Done key2 m2 /\
    key2 <> key1.
Proof.
  eexists _, _, _, _. split; [lazy; reflexivity|]. split; [lazy; reflexivity|].
  refine (proj2 (proj2
    (compilation_key_per_cluster cpu_module 4 6 _ _ 1 2 _ _ _ _
       cpu_module_wf eq_refl eq_refl eq_refl eq_refl _ _)) _);
    [lazy; reflexivity | lazy; reflexivity | discriminate].
Defined.

(* ---------- the ordinal table ---------- *)
Lemma set_nth_Some {A} i (a : A) l :
  i < List.length l ->
  exists l', set_nth i a l = Some l' /\
             List.length l' = List.length l /\
             (forall d, nth i l' d = a) /\
             (forall j d, j <> i -> nth j l' d = nth j l d).
Proof.
  revert i. induction l as [|b l IH]; intros i Hi; cbn in Hi; [lia|].
  destruct i as [|i]; cbn.
  - exists (a :: l). repeat split; auto.
    intros [|j] d Hj; [lia|reflexivity].
  - destruct (IH i) as (l' & -> & E1 & E2 & E3); [lia|].
    exists (b :: l'). cbn. repeat split; auto.
    intros [|j] d Hj; auto.
Qed.

Lemma fill_ordinals_spec ids :
  forall k table,
    NoDup ids ->
    Forall (fun id => (0 <= id < Z.of_nat (List.length table))%Z) ids ->
    exists t,
      fill_ordinals ids k table = Some t /\
      List.length t = List.length table /\
      (forall j d, nth_error ids j = Some d ->
                   nth (Z.to_nat d) t 0%Z = Z.of_nat (k + j)) /\
      (forall d, ~ In d ids -> (0 <= d)%Z ->
                 nth (Z.to_nat d) t 0%Z = nth (Z.to_nat d) table 0%Z).
Proof.
  induction ids as [|id ids IH]; intros k table ND R; cbn.
  - exists table. repeat split; auto. intros [|j] d; cbn; discriminate.
  - inversion ND as [|? ? Hn ND']; subst. inversion R as [|? ? R1 R']; subst.
    unfold store. replace (0 <=? id)%Z with true by (symmetry; apply Z.leb_le; lia).
    destruct (set_nth_Some (Z.to_nat id) (Z.of_nat k) table)
      as (t1 & -> & E1 & E2 & E3); [lia|].
    destruct (IH (S k) t1 ND') as (t & -> & F1 & F2 & F3).
    { rewrite E1. exact R'. }
    exists t. split; [reflexivity|]. split; [congruence|]. split.
    + intros [|j] d; cbn.
      * intros H; inversion H; subst d. rewrite F3; auto; [|lia].
        rewrite E2. f_equal. lia.
      * intros H. rewrite (F2 _ _ H). f_equal. lia.
    + intros d Hd Hd0. rewrite F3; [|tauto|auto].
      apply E3. intros E. apply Hd. left. lia.
Qed.

Lemma device_id_to_ordinal_spec mesh :
  mesh_consistent mesh ->
  exists table,
    device_id_to_ordinal mesh = Some table /\
    List.length table = Z.to_nat (num_devices mesh) /\
    (forall i d, nth_error (local_device_ids mesh) i = Some d ->
                 nth (Z.to_nat d) table 0%Z = Z.of_nat i) /\
    (forall d, ~ In d (local_device_ids mesh) -> (0 <= d)%Z ->
               nth (Z.to_nat d) table 0%Z = 0%Z).
Proof.
  intros [ND R]. unfold device_id_to_ordinal.
  destruct (fill_ordinals_spec (local_device_ids mesh) 0
              (repeat 0%Z (Z.to_nat (num_devices mesh))) ND)
    as (t & E & F1 & F2 & F3).
  { rewrite repeat_length. eapply Forall_impl; [|exact R]. cbn. intros; lia. }
  exists t. split; [exact E|]. split; [now rewrite F1, repeat_length|].
  split; [exact F2|].
  intros d Hd H0. rewrite F3; auto. apply nth_repeat.
Qed.

(* ---------- DeviceId ---------- *)
Lemma DeviceId_Done function m v m0 :
  DeviceId function m = Done v m0 ->
  m0 = m /\ exists f, function = Some f /\ v = BlockArgument f 0.
Proof.
  destruct function as [f|]; cbn; [|discriminate].
  unfold bind, get, nonnull. destruct (lookup_func m f) as [fn|]; cbn;
    [|discriminate].
  destruct (fn_arg_types fn); cbn; [discriminate|].
  intros H; inversion H; subst. eauto.
Qed.

Lemma DeviceId_Fails function m s m0 :
  DeviceId function m = Fails s m0 -> m0 = m /\ code s = INVALID_ARGUMENT.
Proof.
  destruct function as [f|]; cbn.
  - unfold bind, get, nonnull. destruct (lookup_func m f) as [fn|]; cbn;
      [|discriminate].
    destruct (fn_arg_types fn); cbn; [|discriminate].
    intros H; inversion H; subst. auto.
  - intros H; inversion H; subst. auto.
Qed.

(* ---------- create, as seen by lookups ---------- *)
Lemma create_spec b loc k operands types m r m' :
  wf_module m ->
  create b loc k operands types m = Done r m' ->
  wf_module m' /\ r = next_id m /\ next_id m' = S (next_id m) /\
  mod_funcs m' = mod_funcs m /\ mod_clusters m' = mod_clusters m /\
  lookup_op m' r = Some (new_op b loc k operands types m) /\
  (forall x o, lookup_op m x = Some o -> lookup_op m' x = Some o) /\
  (forall o, In o (mod_ops m') <->
             o = new_op b loc k operands types m \/ In o (mod_ops m)).
Proof.
  intros W H.
  pose proof (wf_create _ _ _ _ _ _ _ _ W H) as W'.
  pose proof (lookup_create_new _ _ _ _ _ _ _ _ W H) as Ln.
  pose proof H as H'. apply create_Done in H' as (-> & Eo & Ec & Ef & Ei).
  repeat (split; [assumption || reflexivity|]).
  split.
  - intros x o L. rewrite <- L. eapply lookup_create_old; eauto.
    apply lookup_In in L as [L <-]. destruct W as (_ & Hlt & _).
    apply Hlt in L. lia.
  - intros o. rewrite Eo. apply in_place.
Qed.

Ltac splits := repeat match goal with |- _ /\ _ => split end.

Ltac step H :=
  let a := fresh "a" in let m := fresh "m" in let E := fresh "E" in
  apply bind_Done in H as (a & m & E & H).

Ltac use_create W E :=
  let W' := fresh "W" in let Er := fresh "Er" in let En := fresh "En" in
  let Ef := fresh "Ef" in let Ec := fresh "Ec" in let Ln := fresh "Ln" in
  let Lo := fresh "Lo" in let Hin := fresh "Hin" in
  apply (create_spec _ _ _ _ _ _ _ _ W) in E
    as (W' & Er & En & Ef & Ec & Ln & Lo & Hin).

Lemma call_args_Done {A B C} order (a : M A) (b : M B) (c : M C) r m m' :
  call_args order a b c m = Done r m' ->
  exists x y z, r = (x, y, z) /\
    exists m1 m2,
      match order with
      | Args123 => a m = Done x m1 /\ b m1 = Done y m2 /\ c m2 = Done z m'
      | Args132 => a m = Done x m1 /\ c m1 = Done z m2 /\ b m2 = Done y m'
      | Args213 => b m = Done y m1 /\ a m1 = Done x m2 /\ c m2 = Done z m'
      | Args231 => b m = Done y m1 /\ c m1 = Done z m2 /\ a m2 = Done x m'
      | Args312 => c m = Done z m1 /\ a m1 = Done x m2 /\ b m2 = Done y m'
      | Args321 => c m = Done z m1 /\ b m1 = Done y m2 /\ a m2 = Done x m'
      end.
Proof.
  intros H. destruct r as [[x y] z]. exists x, y, z. split; [reflexivity|].
  destruct order; cbn [call_args] in H;
    apply bind_Done in H as (v1 & m1 & E1 & H);
    apply bind_Done in H as (v2 & m2 & E2 & H);
    apply bind_Done in H as (v3 & m3 & E3 & H);
    apply ret_Done in H as [H ->]; inversion H; subst; eauto.
Qed.

Lemma GetDeviceOrdinal_Done {order} mesh loc function builder return_int64_type
    m v m' :
  wf_module m ->
  GetDeviceOrdinal order mesh loc function builder return_int64_type m
  = Done v m' ->
  exists table device_id,
    device_id_to_ordinal mesh = Some table /\
    DeviceId function m = Done device_id m /\
    wf_module m' /\
    mod_funcs m' = mod_funcs m /\ mod_clusters m' = mod_clusters m /\
    next_id m' = (if return_int64_type then 6 else 5) + next_id m /\
    v = OpResult ((if return_int64_type then 5 else 4) + next_id m) 0 /\
    (forall x o, lookup_op m x = Some o -> lookup_op m' x = Some o) /\
    (forall o, In o (ordinal_ops order builder loc table device_id (next_id m)
                       return_int64_type) ->
               lookup_op m' (op_id o) = Some o) /\
    (forall o, In o (mod_ops m') <->
               In o (ordinal_ops order builder loc table device_id (next_id m)
                       return_int64_type) \/ In o (mod_ops m)).
Proof.
  intros W H. unfold GetDeviceOrdinal in H.
  step H. apply nonnull_Done in E as [Et ->]. rename a into table.
  step H. pose proof (DeviceId_Done _ _ _ _ E) as [-> _].
  rename a into device_id, E into Ed.
  apply bind_Done in H as (args & m3 & EA & H).
  apply call_args_Done in EA as (input & begin & size & -> & EA).
  unfold IntConst, ReshapeScalarToSizeType, ReshapeSizeTypeToScalar in *.
  exists table, device_id. split; [exact Et|]. split; [exact Ed|].
  unfold EffectivelyScalarR1Type in *.
  destruct EA as (m1 & m2 & EA);
  destruct order; destruct EA as (E1 & E2 & E3);
    step E1; apply ret_Done in E1 as [-> ->]; use_create W E;
    step E2; apply ret_Done in E2 as [-> ->]; use_create W0 E;
    step E3; apply ret_Done in E3 as [-> ->]; use_create W1 E;
    step H; use_create W2 E;
    step H; step E; apply ret_Done in E as [-> ->]; use_create W3 E0;
    (destruct return_int64_type;
     [ step H; apply ret_Done in H as [-> ->]; use_create W4 E
     | apply ret_Done in H as [-> ->] ]);
    (split; [assumption|]); (split; [congruence|]); (split; [congruence|]);
    (split; [lia|]); (split; [f_equal; lia|]); (split; [auto 10|]);
    subst; unfold new_op in *;
    repeat match goal with
           | E : next_id _ = S _ |- _ => rewrite E in *; clear E
           end;
    cbn [op_id] in *;
    (split;
     [ unfold ordinal_ops, arg_rank, in_order; cbn [app Nat.add];
       intros o Ho;
       repeat (destruct Ho as [<-|Ho]; [cbn [op_id]; auto 10|]); destruct Ho
     | intros o;
       repeat match goal with
              | E : forall o, In o (mod_ops _) <-> _ |- _ =>
                  rewrite E; clear E
              end;
       unfold ordinal_ops, arg_rank, in_order;
       cbn [app In List.length Z.of_nat Pos.of_succ_nat Nat.add];
       intuition auto ]).
Qed.

Lemma GetDeviceOrdinal_total order mesh loc function builder return_int64_type
    m table device_id :
  device_id_to_ordinal mesh = Some table ->
  DeviceId function m = Done device_id m ->
  exists v m',
    GetDeviceOrdinal order mesh loc function builder return_int64_type m
    = Done v m'.
Proof.
  intros Et Ed. unfold GetDeviceOrdinal, bind, nonnull. rewrite Et.
  cbn [ret]. rewrite Ed.
  destruct order, return_int64_type; cbn; eauto.
Qed.

Lemma GetDeviceOrdinal_Fails {order} mesh loc function builder return_int64_type
    m table s m0 :
  device_id_to_ordinal mesh = Some table ->
  DeviceId function m = Fails s m0 ->
  GetDeviceOrdinal order mesh loc function builder return_int64_type m
  = Fails s m.
Proof.
  intros Et Ed. pose proof (DeviceId_Fails _ _ _ _ Ed) as [-> _].
  unfold GetDeviceOrdinal, bind, nonnull. rewrite Et.
  cbn [ret]. now rewrite Ed.
Qed.

Lemma firstn_1_skipn (l : list Z) i :
  i < List.length l -> firstn 1 (skipn i l) = [nth i l 0%Z].
Proof.
  revert i. induction l as [|a l IH]; intros i Hi; cbn in Hi; [lia|].
  destruct i as [|i]; cbn; auto. apply IH. lia.
Qed.

Lemma eval_S fuel m env x :
  eval (S fuel) m env (OpResult x 0)
  = match lookup_op m x with
    | Some o =>
        match all_some (map (eval fuel m env) (op_operands o)) with
        | Some args => eval_op o args
        | None => None
        end
    | None => None
    end.
Proof. reflexivity. Qed.

Lemma eval_arg fuel m env f i :
  eval fuel m env (BlockArgument f i) = env (BlockArgument f i).
Proof. destruct fuel; reflexivity. Qed.

(** the operations of [ordinal_ops], one by one, whatever the order *)
Lemma ordinal_ops_parts (P : Op -> Prop) {order} builder loc table device_id n
    return_int64_type :
  (forall o, In o (ordinal_ops order builder loc table device_id n
                     return_int64_type) -> P o) ->
  exists i j k,
    arg_rank order = (i, j, k) /\
    P (mkOp (i + n) loc (ConstOp table) []
         [RankedTensorType [Z.of_nat (List.length table)] (IntegerType 32)]
         [] (ip_block builder)) /\
    P (mkOp (j + n) loc ReshapeOp [device_id]
         [RankedTensorType [1%Z] (IntegerType 32)] [] (ip_block builder)) /\
    P (mkOp (k + n) loc (ConstOp [1%Z]) []
         [RankedTensorType [1%Z] (IntegerType 32)] [] (ip_block builder)) /\
    P (mkOp (3 + n) loc SliceOp
         [OpResult (i + n) 0; OpResult (j + n) 0; OpResult (k + n) 0]
         [RankedTensorType [1%Z] (IntegerType 32)] [] (ip_block builder)) /\
    P (mkOp (4 + n) loc ReshapeOp [OpResult (3 + n) 0]
         [RankedTensorType [] (IntegerType 32)] [] (ip_block builder)) /\
    (return_int64_type = true ->
     P (mkOp (5 + n) loc CastOp [OpResult (4 + n) 0]
          [RankedTensorType [] (IntegerType 64)] [] (ip_block builder))).
Proof.
  intros H. unfold ordinal_ops in H.
  destruct order; cbn [arg_rank in_order] in H;
    (eexists _, _, _; split; [reflexivity|]);
    repeat (split; [apply H; cbn [app In]; auto 10|]);
    intros ->; apply H; cbn [app In]; auto 10.
Qed.


Lemma ordinal_ops_length {order} builder loc table device_id n
    return_int64_type :
  List.length (ordinal_ops order builder loc table device_id n
                 return_int64_type)
  = if return_int64_type then 6 else 5.
Proof. destruct order, return_int64_type; reflexivity. Qed.

(** Claim C1.  For a mesh whose local device ids are pairwise distinct and lie
    below its device count, and a function whose device-id accessor is
    available, [GetDeviceOrdinal] returns a scalar integer value: evaluated
    where the running device's id is the [i]-th local device id, it is [i],
    of 32 bits, or of 64 bits exactly when [return_int64_type] is set.  The
    value is read out of a table of [num_devices] zeros in which every local
    device id is mapped to its position.  Where the accessor is unavailable
    the call fails with an invalid-argument status and builds nothing. *)
Theorem GetDeviceOrdinal_ordinal :
  forall order mesh loc function builder return_int64_type m,
    wf_module m ->
    mesh_consistent mesh ->
    (forall device_id m0,
        DeviceId function m = Done device_id m0 ->
        exists ordinal m',
          GetDeviceOrdinal order mesh loc function builder return_int64_type m
          = Done ordinal m' /\
          getType ordinal m'
          = Done (RankedTensorType []
                    (IntegerType (if return_int64_type then 64 else 32))) m' /\
          forall env i d,
            nth_error (local_device_ids mesh) i = Some d ->
            env device_id = Some (scalar_i32 d) ->
            eval 4 m' env ordinal
            = Some (mkTensor
                      (RankedTensorType []
                         (IntegerType (if return_int64_type then 64 else 32)))
                      [Z.of_nat i])) /\
    (forall s m0,
        DeviceId function m = Fails s m0 ->
        GetDeviceOrdinal order mesh loc function builder return_int64_type m
        = Fails s m /\ code s = INVALID_ARGUMENT).
Proof.
  intros order mesh loc function builder r64 m W MC.
  destruct (device_id_to_ordinal_spec mesh MC) as (table & Et & Len & Pos & _).
  split.
  - intros device_id m0 Ed.
    pose proof (DeviceId_Done _ _ _ _ Ed) as (-> & f & -> & ->).
    destruct (GetDeviceOrdinal_total order mesh loc (Some f) builder r64 m _ _
                Et Ed) as (v & m' & G).
    exists v, m'. split; [exact G|].
    destruct (GetDeviceOrdinal_Done _ _ _ _ _ _ _ _ W G)
      as (table' & did & Et' & Ed' & W' & _ & _ & _ & -> & _ & Lk & _).
    rewrite Et in Et'. inversion Et'; subst table'.
    rewrite Ed in Ed'. inversion Ed'; subst did.
    set (n := next_id m) in *.
    apply ordinal_ops_parts in Lk
      as (a & b & c & _ & L0 & L1 & L2 & L3 & L4 & L5).
    cbn [op_id] in L0, L1, L2, L3, L4, L5.
    assert (Slice : forall k env i d,
      nth_error (local_device_ids mesh) i = Some d ->
      env (BlockArgument f 0) = Some (scalar_i32 d) ->
      eval (S (S (S k))) m' env (OpResult (4 + n) 0)
      = Some (mkTensor (RankedTensorType [] (IntegerType 32)) [Z.of_nat i])).
    { intros k env i d Hi He.
      destruct MC as [_ R]. rewrite Forall_forall in R.
      specialize (R d (nth_error_In _ _ Hi)).
      rewrite eval_S, L4. cbn [op_operands map].
      rewrite eval_S, L3. cbn [op_operands map].
      rewrite !eval_S, L0, L1, L2. cbn [op_operands map].
      rewrite eval_arg, He.
      cbn -[Z.to_nat firstn skipn Z.leb Z.add].
      replace ((0 <=? d)%Z) with true by (symmetry; apply Z.leb_le; lia).
      replace ((0 <=? 1)%Z) with true by reflexivity.
      replace ((d + 1 <=? Z.of_nat (List.length table))%Z) with true
        by (symmetry; apply Z.leb_le; lia).
      cbn -[Z.to_nat firstn skipn Z.leb Z.add].
      change (Z.to_nat 1) with 1.
      rewrite firstn_1_skipn by lia. rewrite (Pos _ _ Hi). reflexivity. }
    destruct r64.
    + specialize (L5 eq_refl). split.
      * cbn [getType]. rewrite L5. reflexivity.
      * intros env i d Hi He. rewrite eval_S, L5. cbn [op_operands map].
        rewrite (Slice 0 env i d Hi He). reflexivity.
    + split.
      * cbn [getType]. rewrite L4. reflexivity.
      * intros env i d Hi He. apply (Slice 1 env i d Hi He).
  - intros s m0 Ed. split.
    + eapply GetDeviceOrdinal_Fails; eauto.
    + eapply DeviceId_Fails; eauto.
Qed.

Lemma cpu_mesh_consistent : mesh_consistent cpu_mesh.
Proof.
  split; cbn.
  - repeat constructor; cbn; intuition discriminate.
  - repeat constructor; lia.
Qed.

Lemma GetDeviceOrdinal_ordinal_witness :
  wf_module cpu_module /\ mesh_consistent cpu_mesh /\
  exists ordinal m',
    GetDeviceOrdinal Args321 cpu_mesh "loc"%string (Some 0)
      {| ip_block := InCluster 1; ip_before := Some 4 |} true cpu_module
    = Done ordinal m' /\
    eval 4 m' (fun _ => Some (scalar_i32 3)) ordinal
    = Some (mkTensor (RankedTensorType [] (IntegerType 64)) [1%Z]).
Proof.
  split; [exact cpu_module_wf|]. split; [exact cpu_mesh_consistent|].
  destruct (proj1 (GetDeviceOrdinal_ordinal Args321 cpu_mesh "loc"%string
                     (Some 0)
                     {| ip_block := InCluster 1; ip_before := Some 4 |} true
                     cpu_module cpu_module_wf cpu_mesh_consistent)
              (BlockArgument 0 0) cpu_module eq_refl)
    as (ordinal & m' & G & _ & Ev).
  exists ordinal, m'. split; [exact G|].
  exact (Ev (fun _ => Some (scalar_i32 3)) 1 3%Z eq_refl eq_refl).
Defined.

(* ---------- pure reads ---------- *)
Lemma DTensorSend_attrs_Done o m key tl m' :
  DTensorSend_attrs o m = Done (key, tl) m' ->
  op_kind o = DTensorSend key tl /\ m' = m.
Proof.
  unfold DTensorSend_attrs. destruct (op_kind o); cbn; try discriminate.
  intros H; inversion H; subst; auto.
Qed.

Lemma DTensorRecv_attrs_Done o m key l m' :
  DTensorRecv_attrs o m = Done (key, l) m' ->
  op_kind o = DTensorRecv key l /\ m' = m.
Proof.
  unfold DTensorRecv_attrs. destruct (op_kind o); cbn; try discriminate.
  intros H; inversion H; subst; auto.
Qed.

Lemma getLoc_Done v m loc m' : getLoc v m = Done loc m' -> m' = m.
Proof.
  unfold getLoc. destruct v.
  - destruct (lookup_op m owner); [|discriminate]. intros H; now inversion H.
  - destruct (lookup_func m owner); [|discriminate]. intros H; now inversion H.
Qed.

Lemma getType_Done v m ty m' : getType v m = Done ty m' -> m' = m.
Proof.
  unfold getType. destruct v.
  - destruct (lookup_op m owner); [|discriminate].
    intros H. now apply nonnull_Done in H.
  - destruct (lookup_func m owner); [|discriminate].
    intros H. now apply nonnull_Done in H.
Qed.

Lemma setInsertionPointAfter_Done x m b m' :
  setInsertionPointAfter x m = Done b m' ->
  m' = m /\ exists o, lookup_op m x = Some o /\ ip_block b = op_block o.
Proof.
  unfold setInsertionPointAfter. intros H.
  step H. apply deref_Done in E as [L ->].
  step H. apply get_Done in E as [-> ->].
  apply ret_Done in H as [-> ->]. split; auto. exists a. auto.
Qed.

Lemma getParentOfType_ClusterOp_Done o m c m' :
  getParentOfType_ClusterOp o m = Done c m' ->
  m' = m /\
  (forall cl, c = Some cl -> op_block o = InCluster (cl_id cl)).
Proof.
  unfold getParentOfType_ClusterOp. destruct (op_block o) eqn:B;
    intros H; inversion H; subst; split; auto; try discriminate.
  intros cl L. apply lookup_cluster_id in L. congruence.
Qed.

Lemma getParentOfType_FuncOp_Done c m f m' :
  getParentOfType_FuncOp c m = Done f m' -> m' = m.
Proof.
  unfold getParentOfType_FuncOp. destruct (cl_func c);
    intros H; now inversion H.
Qed.

Lemma GetBody_front_Done c m o m' : GetBody_front c m = Done o m' -> m' = m.
Proof. unfold GetBody_front. intros H. now apply nonnull_Done in H. Qed.

Lemma ExtractDeviceMeshFromOp_Done c m r m' :
  ExtractDeviceMeshFromOp c m = Done r m' -> m' = m.
Proof.
  unfold ExtractDeviceMeshFromOp, assign_or_return.
  destruct c as [c|]; [destruct (cl_mesh c)|]; cbn; intros H; now inversion H.
Qed.

(* ---------- erase and replaceAllUsesWith ---------- *)
Lemma erase_Done x m u m' :
  erase x m = Done u m' ->
  users m x = [] /\
  mod_ops m' = filter (fun o => negb (Nat.eqb (op_id o) x)) (mod_ops m) /\
  mod_clusters m' = mod_clusters m /\ mod_funcs m' = mod_funcs m /\
  next_id m' = next_id m.
Proof.
  unfold erase. destruct (existsb _ _) eqn:E; [discriminate|].
  intros H; inversion H; subst; cbn. repeat split; auto.
  apply filter_nil. intros o Hin.
  destruct (uses_result_of x o) eqn:U; auto.
  assert (existsb (uses_result_of x) (mod_ops m) = true)
    by (apply existsb_exists; eauto).
  congruence.
Qed.

Lemma NoDup_map_filter {A B} (f : A -> B) (p : A -> bool) l :
  NoDup (map f l) -> NoDup (map f (filter p l)).
Proof.
  induction l as [|a l IH]; cbn; auto.
  intros ND. inversion ND as [|? ? Hn ND']; subst.
  destruct (p a); cbn; auto. constructor; auto.
  intros Hin. apply Hn. apply in_map_iff in Hin as (y & E & Hy).
  apply filter_In in Hy as [Hy _]. apply in_map_iff. eauto.
Qed.

Lemma erase_spec x m u m' :
  wf_module m ->
  erase x m = Done u m' ->
  wf_module m' /\ erased m' x /\ users m x = [] /\
  mod_clusters m' = mod_clusters m /\ mod_funcs m' = mod_funcs m /\
  next_id m' = next_id m /\
  (forall y, y <> x -> lookup_op m' y = lookup_op m y) /\
  (forall o, In o (mod_ops m') <-> In o (mod_ops m) /\ op_id o <> x).
Proof.
  intros (ND & Hlt & Hfn) H.
  apply erase_Done in H as (U & Eo & Ec & Ef & En).
  assert (Hin : forall o, In o (mod_ops m') <-> In o (mod_ops m) /\ op_id o <> x).
  { intros o. rewrite Eo, filter_In, negb_true_iff, Nat.eqb_neq. tauto. }
  assert (W' : wf_module m').
  { unfold wf_module. rewrite Eo, Ef, En. repeat split; auto.
    - now apply NoDup_map_filter.
    - intros o Ho. apply filter_In in Ho as [Ho _]. auto. }
  split; [exact W'|]. split.
  { apply lookup_None. intros o Ho. apply Hin in Ho. tauto. }
  repeat (split; [assumption|]). split; [|exact Hin].
  intros y Hy. destruct (lookup_op m y) as [o|] eqn:L.
  - apply lookup_In in L as [L <-]. apply In_lookup; [apply W'|].
    apply Hin. auto.
  - apply lookup_None. intros o Ho. apply Hin in Ho as [Ho _].
    rewrite lookup_None in L. auto.
Qed.

Lemma update_ops_Done f m u m' :
  update_ops f m = Done u m' ->
  mod_ops m' = map f (mod_ops m) /\
  mod_clusters m' = mod_clusters m /\ mod_funcs m' = mod_funcs m /\
  next_id m' = next_id m.
Proof. unfold update_ops. intros H; inversion H; subst; cbn; auto. Qed.

Lemma find_map_id (f : Op -> Op) x l :
  (forall o, op_id (f o) = op_id o) ->
  find (fun o => Nat.eqb (op_id o) x) (map f l)
  = option_map f (find (fun o => Nat.eqb (op_id o) x) l).
Proof.
  intros Hf. induction l as [|o l IH]; cbn; auto.
  rewrite Hf. destruct (Nat.eqb (op_id o) x); auto.
Qed.

Lemma update_ops_spec f m u m' :
  (forall o, op_id (f o) = op_id o) ->
  wf_module m ->
  update_ops f m = Done u m' ->
  wf_module m' /\
  mod_ops m' = map f (mod_ops m) /\
  mod_clusters m' = mod_clusters m /\ mod_funcs m' = mod_funcs m /\
  next_id m' = next_id m /\
  (forall x, lookup_op m' x = option_map f (lookup_op m x)).
Proof.
  intros Hf (ND & Hlt & Hfn) H.
  apply update_ops_Done in H as (Eo & Ec & Ef & En).
  split.
  { unfold wf_module. rewrite Eo, Ef, En. repeat split; auto.
    - rewrite map_map. erewrite map_ext; [exact ND|]. intros; apply Hf.
    - intros o Ho. apply in_map_iff in Ho as (p & <- & Hp).
      rewrite Hf. auto. }
  repeat (split; [assumption|]).
  intros x. unfold lookup_op. rewrite Eo. now apply find_map_id.
Qed.

Lemma nth_error_0 {A} (l : list A) : nth_error l 0 = hd_error l.
Proof. now destruct l. Qed.

Lemma wf_lookup_lt m x o : wf_module m -> lookup_op m x = Some o -> x < next_id m.
Proof.
  intros (_ & Hlt & _) L. apply lookup_In in L as [L <-]. auto.
Qed.

Lemma LowerDTensorSendToTFOp_Done L v x m r m' :
  wf_module m ->
  LowerDTensorSendToTFOp L v x m = Done r m' ->
  exists send key tl sd rd loc b,
    lookup_op m x = Some send /\ op_kind send = DTensorSend key tl /\
    hd_error (local_devices (mesh L)) = Some sd /\
    hd_error (local_devices (mesh tl)) = Some rd /\
    wf_module m' /\ erased m' x /\ r = next_id m /\
    next_id m' = S (next_id m) /\
    mod_funcs m' = mod_funcs m /\ mod_clusters m' = mod_clusters m /\
    lookup_op m' r
    = Some (new_op b loc (_HostSendOp key sd 0 rd false) [v] [] m) /\
    (forall y o, y <> x -> lookup_op m y = Some o -> lookup_op m' y = Some o) /\
    (forall o, In o (mod_ops m') <->
               (o = new_op b loc (_HostSendOp key sd 0 rd false) [v] [] m \/
                In o (mod_ops m)) /\ op_id o <> x).
Proof.
  intros W H. unfold LowerDTensorSendToTFOp in H.
  step H. apply deref_Done in E as [Ls ->]. rename a into send.
  step H. destruct a as [key tl].
  apply DTensorSend_attrs_Done in E as [K ->].
  step H. apply nonnull_Done in E as [_ ->].
  step H. apply setInsertionPointAfter_Done in E as [-> _]. rename a0 into b.
  step H. apply getLoc_Done in E as ->. rename a0 into loc.
  step H. apply nonnull_Done in E as [Sd ->]. rename a0 into sd.
  step H. apply nonnull_Done in E as [Rd ->]. rename a0 into rd.
  apply bind_Done in H as (r0 & mc & C & H). use_create W C.
  apply bind_Done in H as (u & me & Ee & H).
  apply ret_Done in H as [-> ->].
  apply (erase_spec _ _ _ _ W0) in Ee
    as (W1 & Er' & _ & Ec' & Ef' & En' & Lo' & Hin').
  rewrite nth_error_0 in Sd, Rd.
  exists send, key, tl, sd, rd, loc, b.
  assert (Hx : x < next_id m) by (eapply wf_lookup_lt; eauto).
  splits; try assumption; try congruence.
  - rewrite Lo' by lia. subst. exact Ln.
  - intros y o Hy Ly. rewrite Lo' by exact Hy. auto.
  - intros o. rewrite Hin', Hin. tauto.
Qed.

Lemma LowerDTensorRecvToTFOp_Done sm x ty m r m' :
  wf_module m ->
  LowerDTensorRecvToTFOp sm x ty m = Done r m' ->
  exists recv key rl sd rd,
    lookup_op m x = Some recv /\ op_kind recv = DTensorRecv key rl /\
    hd_error (local_devices sm) = Some sd /\
    hd_error (local_devices (mesh rl)) = Some rd /\
    wf_module m' /\ r = next_id m /\ next_id m' = S (next_id m) /\
    mod_funcs m' = mod_funcs m /\ mod_clusters m' = mod_clusters m /\
    lookup_op m' r
    = Some (new_op (OpBuilder_at recv) (op_loc recv)
              (_HostRecvOp key sd 0 rd) [] [ty] m) /\
    (forall y o, lookup_op m y = Some o -> lookup_op m' y = Some o) /\
    mod_ops m' = place (Some x)
                   (new_op (OpBuilder_at recv) (op_loc recv)
                      (_HostRecvOp key sd 0 rd) [] [ty] m) (mod_ops m).
Proof.
  intros W H. unfold LowerDTensorRecvToTFOp in H.
  step H. apply deref_Done in E as [Ls ->]. rename a into recv.
  step H. destruct a as [key rl].
  apply DTensorRecv_attrs_Done in E as [K ->].
  step H. apply getParentOfType_ClusterOp_Done in E as [-> _].
  step H. apply nonnull_Done in E as [_ ->].
  step H. apply GetBody_front_Done in E as ->.
  step H. apply nonnull_Done in E as [Sd ->]. rename a2 into sd.
  step H. apply nonnull_Done in E as [Rd ->]. rename a2 into rd.
  pose proof H as C. apply create_Done in C as (_ & Eo & _).
  use_create W H.
  rewrite nth_error_0 in Sd, Rd.
  exists recv, key, rl, sd, rd.
  splits; try assumption; try congruence.
  rewrite Eo. cbn [OpBuilder_at ip_before].
  apply lookup_In in Ls as [_ ->]. reflexivity.
Qed.

(** Claim C2.  Lowering a matched Send/Recv pair from host to host: the
    [_HostSend] names the first local device of the source mesh as sender and
    the first local device of the destination mesh as receiver, the
    [_HostRecv] does the same from the meshes it is given, and both carry the
    key of the abstract ops. *)
Theorem host_to_host_devices_and_key :
  forall send_input_layout send_input send_mesh output_type
         dtensor_send dtensor_recv key target_layout recv_layout
         abstract_send abstract_recv m lowered_send m1 lowered_recv m2,
    wf_module m ->
    lookup_op m dtensor_send = Some abstract_send ->
    op_kind abstract_send = DTensorSend key target_layout ->
    lookup_op m dtensor_recv = Some abstract_recv ->
    op_kind abstract_recv = DTensorRecv key recv_layout ->
    LowerDTensorSendToTFOp send_input_layout send_input dtensor_send m
    = Done lowered_send m1 ->
    LowerDTensorRecvToTFOp send_mesh dtensor_recv output_type m1
    = Done lowered_recv m2 ->
    exists host_send host_recv sending receiving sending' receiving',
      lookup_op m2 lowered_send = Some host_send /\
      lookup_op m2 lowered_recv = Some host_recv /\
      hd_error (local_devices (mesh send_input_layout)) = Some sending /\
      hd_error (local_devices (mesh target_layout)) = Some receiving /\
      op_kind host_send = _HostSendOp key sending 0 receiving false /\
      op_operands host_send = [send_input] /\
      hd_error (local_devices send_mesh) = Some sending' /\
      hd_error (local_devices (mesh recv_layout)) = Some receiving' /\
      op_kind host_recv = _HostRecvOp key sending' 0 receiving'.
Proof.
  intros L v sm ty x y key tl rl asend arecv m r1 m1 r2 m2
         W Lx Kx Ly Ky H1 H2.
  destruct (LowerDTensorSendToTFOp_Done _ _ _ _ _ _ W H1)
    as (send & key' & tl' & sd & rd & loc & b & Lx' & Kx' & Sd & Rd & W1 & _
        & -> & _ & _ & _ & Ln & Lo & _).
  rewrite Lx in Lx'. inversion Lx'; subst send.
  rewrite Kx in Kx'. inversion Kx'; subst key' tl'.
  assert (Hxy : y <> x).
  { intros ->. rewrite Lx in Ly. inversion Ly; subst. congruence. }
  pose proof (Lo _ _ Hxy Ly) as Ly1.
  destruct (LowerDTensorRecvToTFOp_Done _ _ _ _ _ _ W1 H2)
    as (recv & key' & rl' & sd' & rd' & Ly' & Ky' & Sd' & Rd' & W2 & ->
        & _ & _ & _ & Ln' & Lo' & _).
  rewrite Ly1 in Ly'. inversion Ly'; subst recv.
  rewrite Ky in Ky'. inversion Ky'; subst key' rl'.
  eexists _, _, sd, rd, sd', rd'.
  split; [apply Lo'; exact Ln|]. split; [exact Ln'|].
  repeat (split; [assumption || reflexivity|]). reflexivity.
Qed.

Lemma host_to_host_devices_and_key_witness :
  exists m1 m2,
    LowerDTensorSendToTFOp cpu_layout (OpResult 3 0) 4 cpu_module = Done 9 m1 /\
    LowerDTensorRecvToTFOp cpu_mesh 6 i32_tensor m1 = Done 10 m2 /\
    exists host_send host_recv,
      lookup_op m2 9 = Some host_send /\
      lookup_op m2 10 = Some host_recv /\
      op_kind host_send
      = _HostSendOp "t1" "/job:localhost/task:0/device:CPU:0" 0
          "/job:localhost/task:0/device:CPU:0" false /\
      op_kind host_recv
      = _HostRecvOp "t1" "/job:localhost/task:0/device:CPU:0" 0
          "/job:localhost/task:0/device:CPU:0".
Proof.
  eexists _, _.
  split; [lazy; reflexivity|]. split; [lazy; reflexivity|].
  destruct (host_to_host_devices_and_key cpu_layout (OpResult 3 0) cpu_mesh
              i32_tensor 4 6 "t1" cpu_layout cpu_layout _ _ cpu_module
              9 _ 10 _ cpu_module_wf eq_refl eq_refl eq_refl eq_refl
              eq_refl eq_refl)
    as (hs & hr & sd & rd & sd' & rd' & L1 & L2 & S & R & K1 & _ & S' & R' & K2).
  exists hs, hr.
  split; [exact L1|]. split; [exact L2|].
  cbn in S, R, S', R'.
  injection S as <-. injection R as <-. injection S' as <-. injection R' as <-.
  split; [exact K1|exact K2].
Defined.

Lemma getLoc_mono v m m' loc :
  (forall x o, lookup_op m x = Some o -> lookup_op m' x = Some o) ->
  mod_funcs m' = mod_funcs m ->
  getLoc v m = Done loc m -> getLoc v m' = Done loc m'.
Proof.
  intros Lo Ef. unfold getLoc. destruct v.
  - destruct (lookup_op m owner) eqn:L; [|discriminate].
    rewrite (Lo _ _ L). intros H; inversion H; subst; auto.
  - unfold lookup_func. rewrite Ef.
    destruct (find _ _); [|discriminate]. intros H; inversion H; subst; auto.
Qed.

Lemma host_sends_ids blk loc key sd input rds n o :
  In o (host_sends blk loc key sd input rds n) ->
  n <= op_id o < List.length rds + n.
Proof.
  revert n. induction rds as [|rd rest IH]; cbn; intros n; [tauto|].
  intros [<-|H]; cbn; [lia|]. apply IH in H. lia.
Qed.

Lemma host_recvs_ids blk loc key sd ty rds n o :
  In o (host_recvs blk loc key sd ty rds n) ->
  n <= op_id o < List.length rds + n.
Proof.
  revert n. induction rds as [|rd rest IH]; cbn; intros n; [tauto|].
  intros [<-|H]; cbn; [lia|]. apply IH in H. lia.
Qed.

Lemma send_to_each_Done b v send key sds :
  forall rds m last res m',
    wf_module m ->
    send_to_each b v send key sds rds last m = Done res m' ->
    wf_module m' /\
    mod_funcs m' = mod_funcs m /\ mod_clusters m' = mod_clusters m /\
    next_id m' = List.length rds + next_id m /\
    (forall x o, lookup_op m x = Some o -> lookup_op m' x = Some o) /\
    res = match rds with
          | [] => last
          | _ :: _ => Some (pred (List.length rds + next_id m))
          end /\
    exists loc input sd,
      (rds <> [] ->
       getLoc v m = Done loc m /\
       nth_error (op_operands send) 0 = Some input /\
       hd_error sds = Some sd) /\
      (forall o, In o (host_sends (ip_block b) loc key sd input rds (next_id m)) ->
                 lookup_op m' (op_id o) = Some o) /\
      (forall o, In o (mod_ops m') <->
                 In o (host_sends (ip_block b) loc key sd input rds (next_id m))
                 \/ In o (mod_ops m)).
Proof.
  induction rds as [|rd rest IH]; intros m last res m' W H;
    cbn [send_to_each recv_at_each] in H.
  - apply ret_Done in H as [-> ->]. splits; auto.
    exists EmptyString, v, EmptyString. cbn. splits; try tauto.
  - apply bind_Done in H as (loc & m0 & E & H).
    pose proof (getLoc_Done _ _ _ _ E) as ->. rename E into Eloc.
    apply bind_Done in H as (input & m0 & E & H).
    apply nonnull_Done in E as [Ein ->].
    apply bind_Done in H as (sd & m0 & E & H).
    apply nonnull_Done in E as [Esd ->]. rewrite nth_error_0 in Esd.
    apply bind_Done in H as (r & m1 & C & H). use_create W C.
    apply IH in H as (W1 & Ef1 & Ec1 & En1 & Lo1 & Eres & loc' & input' & sd'
                      & Same & Lk & Hin1); [|exact W0].
    assert (Hrest :
      host_sends (ip_block b) loc' key sd' input' rest (next_id m1)
      = host_sends (ip_block b) loc key sd input rest (next_id m1)).
    { destruct rest as [|rd' rest']; [reflexivity|].
      destruct Same as (Eloc' & Ein' & Esd'); [discriminate|].
      rewrite (getLoc_mono v m m1 loc Lo Ef Eloc) in Eloc'.
      inversion Eloc'; subst loc'.
      rewrite Ein in Ein'. inversion Ein'; subst input'.
      rewrite Esd in Esd'. inversion Esd'; subst sd'. reflexivity. }
    rewrite Hrest in Lk, Hin1. rewrite En in *.
    splits; try congruence.
    + cbn [List.length]. lia.
    + auto.
    + subst res. cbn [List.length].
      destruct rest; cbn [List.length]; f_equal; lia.
    + exists loc, input, sd. splits; auto.
      * cbn [host_sends]. intros o [<-|Ho]; [|auto].
        cbn [op_id]. apply Lo1. subst r. exact Ln.
      * intros o. rewrite Hin1, Hin. cbn [host_sends In]. unfold new_op.
        intuition auto.
Qed.

Lemma recv_at_each_Done b loc ty key sds :
  forall rds m last res m',
    wf_module m ->
    recv_at_each b loc ty key sds rds last m = Done res m' ->
    wf_module m' /\
    mod_funcs m' = mod_funcs m /\ mod_clusters m' = mod_clusters m /\
    next_id m' = List.length rds + next_id m /\
    (forall x o, lookup_op m x = Some o -> lookup_op m' x = Some o) /\
    res = match rds with
          | [] => last
          | _ :: _ => Some (pred (List.length rds + next_id m))
          end /\
    exists sd,
      (rds <> [] -> hd_error sds = Some sd) /\
      (forall o, In o (host_recvs (ip_block b) loc key sd ty rds (next_id m)) ->
                 lookup_op m' (op_id o) = Some o) /\
      (forall o, In o (mod_ops m') <->
                 In o (host_recvs (ip_block b) loc key sd ty rds (next_id m))
                 \/ In o (mod_ops m)).
Proof.
  induction rds as [|rd rest IH]; intros m last res m' W H;
    cbn [send_to_each recv_at_each] in H.
  - apply ret_Done in H as [-> ->]. splits; auto.
    exists EmptyString. cbn. splits; try tauto.
  - apply bind_Done in H as (sd & m0 & E & H).
    apply nonnull_Done in E as [Esd ->]. rewrite nth_error_0 in Esd.
    apply bind_Done in H as (r & m1 & C & H). use_create W C.
    apply IH in H as (W1 & Ef1 & Ec1 & En1 & Lo1 & Eres & sd'
                      & Same & Lk & Hin1); [|exact W0].
    assert (Hrest :
      host_recvs (ip_block b) loc key sd' ty rest (next_id m1)
      = host_recvs (ip_block b) loc key sd ty rest (next_id m1)).
    { destruct rest as [|rd' rest']; [reflexivity|].
      rewrite Same in Esd by discriminate. inversion Esd; subst sd'.
      reflexivity. }
    rewrite Hrest in Lk, Hin1. rewrite En in *.
    splits; try congruence.
    + cbn [List.length]. lia.
    + auto.
    + subst res. cbn [List.length].
      destruct rest; cbn [List.length]; f_equal; lia.
    + exists sd. splits; auto.
      * cbn [host_recvs]. intros o [<-|Ho]; [|auto].
        cbn [op_id]. apply Lo1. subst r. exact Ln.
      * intros o. rewrite Hin1, Hin. cbn [host_recvs In]. unfold new_op.
        intuition auto.
Qed.

Lemma wf_NoDup_ops m : wf_module m -> NoDup (mod_ops m).
Proof. intros (ND & _). eapply NoDup_map_inv; eauto. Qed.

Lemma created_In m m' o :
  In o (created m m') <-> In o (mod_ops m') /\ next_id m <= op_id o.
Proof. unfold created. rewrite filter_In, Nat.leb_le. tauto. Qed.

(** the operations created by a lowering, up to program order *)
Lemma created_perm m m' news (P : Op -> Prop) :
  wf_module m -> wf_module m' ->
  NoDup (map op_id news) ->
  (forall o, In o news -> next_id m <= op_id o /\ P o) ->
  (forall o, In o (mod_ops m') <-> (In o news \/ In o (mod_ops m)) /\ P o) ->
  Permutation (created m m') news.
Proof.
  intros W W' ND Hn Hin. apply NoDup_Permutation.
  - apply NoDup_filter. now apply wf_NoDup_ops.
  - eapply NoDup_map_inv; eauto.
  - intros o. rewrite created_In, Hin. split.
    + intros [[[H|H] _] Hlt]; auto.
      destruct W as (_ & Hlt' & _). apply Hlt' in H. lia.
    + intros H. destruct (Hn o H). auto.
Qed.

Lemma host_sends_map_id blk loc key sd input rds n :
  map op_id (host_sends blk loc key sd input rds n) = seq n (List.length rds).
Proof.
  revert n. induction rds as [|rd rest IH]; intros n; cbn; auto.
  now rewrite IH.
Qed.

Lemma host_recvs_map_id blk loc key sd ty rds n :
  map op_id (host_recvs blk loc key sd ty rds n) = seq n (List.length rds).
Proof.
  revert n. induction rds as [|rd rest IH]; intros n; cbn; auto.
  now rewrite IH.
Qed.

Lemma LowerDTensorSendFromCPUToTFOp_Done L v x m r m' :
  wf_module m ->
  LowerDTensorSendFromCPUToTFOp L v x m = Done (Some r) m' ->
  exists send key tl blk loc input sd,
    lookup_op m x = Some send /\ op_kind send = DTensorSend key tl /\
    hd_error (local_devices (mesh L)) = Some sd /\
    nth_error (op_operands send) 0 = Some input /\
    local_devices (mesh tl) <> [] /\
    wf_module m' /\ erased m' x /\
    r = pred (List.length (local_devices (mesh tl)) + next_id m) /\
    next_id m' = List.length (local_devices (mesh tl)) + next_id m /\
    mod_funcs m' = mod_funcs m /\ mod_clusters m' = mod_clusters m /\
    (forall o, In o (host_sends blk loc key sd input (local_devices (mesh tl))
                       (next_id m)) ->
               lookup_op m' (op_id o) = Some o) /\
    (forall y o, y <> x -> lookup_op m y = Some o -> lookup_op m' y = Some o) /\
    (forall o, In o (mod_ops m') <->
               (In o (host_sends blk loc key sd input (local_devices (mesh tl))
                        (next_id m)) \/ In o (mod_ops m)) /\ op_id o <> x).
Proof.
  intros W H. unfold LowerDTensorSendFromCPUToTFOp in H.
  apply bind_Done in H as (send & m0 & E & H). apply deref_Done in E as [Ls ->].
  apply bind_Done in H as ([key tl] & m0 & E & H).
  apply DTensorSend_attrs_Done in E as [K ->].
  apply bind_Done in H as (def & m0 & E & H). apply nonnull_Done in E as [_ ->].
  apply bind_Done in H as (b & m0 & E & H).
  apply setInsertionPointAfter_Done in E as [-> _].
  apply bind_Done in H as (last & m1 & E & H).
  apply (send_to_each_Done _ _ _ _ _ _ _ _ _ _ W) in E
    as (W1 & Ef & Ec & En & Lo & Eres & loc & input & sd & Same & Lk & Hin).
  apply bind_Done in H as (u & m2 & Ee & H).
  apply ret_Done in H as [Hl ->].
  apply (erase_spec _ _ _ _ W1) in Ee
    as (W2 & Er' & _ & Ec' & Ef' & En' & Lo' & Hin').
  assert (Hx : x < next_id m) by (eapply wf_lookup_lt; eauto).
  destruct (local_devices (mesh tl)) as [|rd rest] eqn:Erd.
  { subst last. discriminate. }
  destruct Same as (Eloc & Ein & Esd); [discriminate|].
  exists send, key, tl, (ip_block b), loc, input, sd.
  splits; try assumption; try congruence.
  - intros o Ho. pose proof (host_sends_ids _ _ _ _ _ _ _ _ Ho).
    rewrite Lo' by lia. rewrite Erd in Ho. auto.
  - intros y o Hy Ly. rewrite Lo' by exact Hy. auto.
  - intros o. rewrite Hin', Hin, Erd. tauto.
Qed.

Lemma LowerDTensorSendFromCPUToTFOp_None L v x m m' :
  wf_module m ->
  LowerDTensorSendFromCPUToTFOp L v x m = Done None m' ->
  exists send key tl,
    lookup_op m x = Some send /\ op_kind send = DTensorSend key tl /\
    local_devices (mesh tl) = [] /\
    erase x m = Done tt m'.
Proof.
  intros W H. unfold LowerDTensorSendFromCPUToTFOp in H.
  apply bind_Done in H as (send & m0 & E & H). apply deref_Done in E as [Ls ->].
  apply bind_Done in H as ([key tl] & m0 & E & H).
  apply DTensorSend_attrs_Done in E as [K ->].
  apply bind_Done in H as (def & m0 & E & H). apply nonnull_Done in E as [_ ->].
  apply bind_Done in H as (b & m0 & E & H).
  apply setInsertionPointAfter_Done in E as [-> _].
  apply bind_Done in H as (last & m1 & E & H).
  apply bind_Done in H as ([] & m2 & Ee & H).
  apply ret_Done in H as [<- ->].
  exists send, key, tl. split; [exact Ls|]. split; [exact K|].
  destruct (local_devices (mesh tl)) as [|rd rest] eqn:Erd.
  - cbn [send_to_each] in E. apply ret_Done in E as [_ ->]. auto.
  - apply (send_to_each_Done _ _ _ _ _ _ _ _ _ _ W) in E
      as (_ & _ & _ & _ & _ & Eres & _).
    discriminate.
Qed.

Lemma redirect_no_use old new o :
  new <> old -> uses_result_of old (map_operands (redirect old new) o) = false.
Proof.
  intros Hn. unfold uses_result_of, map_operands; cbn.
  induction (op_operands o) as [|v l IH]; cbn; auto.
  rewrite IH, orb_false_r. destruct v as [y i|f i]; cbn; auto.
  destruct (Nat.eqb y old) eqn:E; cbn; [now apply Nat.eqb_neq|exact E].
Qed.

Lemma map_operands_nil f o : op_operands o = [] -> map_operands f o = o.
Proof. destruct o; cbn. intros ->. reflexivity. Qed.

Lemma LowerDTensorRecvFromCPUToTFOp_Done sm x m r m' :
  wf_module m ->
  LowerDTensorRecvFromCPUToTFOp sm x m = Done r m' ->
  exists recv key rl ty sd,
    lookup_op m x = Some recv /\ op_kind recv = DTensorRecv key rl /\
    nth_error (op_types recv) 0 = Some ty /\
    hd_error (local_devices sm) = Some sd /\
    local_devices (mesh rl) <> [] /\
    wf_module m' /\ erased m' x /\ users m' x = [] /\
    r = pred (List.length (local_devices (mesh rl)) + next_id m) /\
    next_id m' = List.length (local_devices (mesh rl)) + next_id m /\
    mod_funcs m' = mod_funcs m /\ mod_clusters m' = mod_clusters m /\
    (forall o, In o (host_recvs (op_block recv) (op_loc recv) key sd ty
                       (local_devices (mesh rl)) (next_id m)) ->
               lookup_op m' (op_id o) = Some o) /\
    (forall y o, y <> x -> lookup_op m y = Some o ->
                 lookup_op m' y = Some (map_operands (redirect x r) o)) /\
    (forall o, In o (mod_ops m') <->
               (In o (host_recvs (op_block recv) (op_loc recv) key sd ty
                        (local_devices (mesh rl)) (next_id m))
                \/ exists p, In p (mod_ops m) /\
                             o = map_operands (redirect x r) p) /\
               op_id o <> x).
Proof.
  intros W H. unfold LowerDTensorRecvFromCPUToTFOp in H.
  apply bind_Done in H as (recv & m0 & E & H). apply deref_Done in E as [Ls ->].
  apply bind_Done in H as ([key rl] & m0 & E & H).
  apply DTensorRecv_attrs_Done in E as [K ->].
  apply bind_Done in H as (c & m0 & E & H).
  apply getParentOfType_ClusterOp_Done in E as [-> _].
  apply bind_Done in H as (cl & m0 & E & H). apply nonnull_Done in E as [_ ->].
  apply bind_Done in H as (front & m0 & E & H).
  apply GetBody_front_Done in E as ->.
  apply bind_Done in H as (ty & m0 & E & H). apply nonnull_Done in E as [Ety ->].
  apply bind_Done in H as (last & m1 & E & H).
  apply (recv_at_each_Done _ _ _ _ _ _ _ _ _ _ W) in E
    as (W1 & Ef & Ec & En & Lo & Eres & sd & Same & Lk & Hin).
  apply bind_Done in H as (r0 & m0 & E & H). apply nonnull_Done in E as [Hl ->].
  apply bind_Done in H as (u & m2 & Eu & H).
  apply bind_Done in H as (u' & m3 & Ee & H).
  apply ret_Done in H as [<- <-].
  unfold Operation_replaceAllUsesWith in Eu.
  apply (update_ops_spec (map_operands (redirect x r)) _ _ _
           (fun o => eq_refl) W1) in Eu
    as (W2 & Eo2 & Ec2 & Ef2 & En2 & Lk2).
  apply (erase_spec _ _ _ _ W2) in Ee
    as (W3 & Er' & _ & Ec' & Ef' & En' & Lo' & Hin').
  assert (Hx : x < next_id m) by (eapply wf_lookup_lt; eauto).
  destruct (local_devices (mesh rl)) as [|rd rest] eqn:Erd.
  { subst last. discriminate. }
  specialize (Same ltac:(discriminate)).
  subst last. inversion Hl as [Hr0]. clear Hl. subst r.
  set (r := List.length rest + next_id m) in *.
  assert (Hr : r <> x) by (subst r; lia).
  assert (Hnew : forall o,
    In o (host_recvs (op_block recv) (op_loc recv) key sd ty (rd :: rest)
            (next_id m)) -> map_operands (redirect x r) o = o).
  { intros o Ho. apply map_operands_nil. clear - Ho.
    revert Ho. generalize (next_id m). induction (rd :: rest); cbn; [tauto|].
    intros n [<-|Ho]; eauto. }
  exists recv, key, rl, ty, sd.
  splits; try assumption; try congruence.
  - unfold users. apply filter_nil. intros o Ho. apply Hin' in Ho as [Ho _].
    rewrite Eo2 in Ho. apply in_map_iff in Ho as (p & <- & _).
    now apply redirect_no_use.
  - rewrite Erd. cbn [List.length]. lia.
  - rewrite Erd. intros o Ho. pose proof (host_recvs_ids _ _ _ _ _ _ _ _ Ho).
    rewrite Lo' by lia. rewrite Lk2, (Lk _ Ho). cbn. f_equal. auto.
  - intros y o Hy Ly. rewrite Lo' by exact Hy. rewrite Lk2, (Lo _ _ Ly).
    reflexivity.
  - rewrite Erd. intros o. rewrite Hin', Eo2, in_map_iff. split.
    + intros [(p & <- & Hp) Hid]. split; [|exact Hid].
      apply Hin in Hp as [Hp|Hp]; [left; now rewrite Hnew|right; eauto].
    + intros [[Ho|(p & Hp & ->)] Hid]; split; auto.
      * exists o. split; [now apply Hnew|]. apply Hin. auto.
      * exists p. split; [reflexivity|]. apply Hin. auto.
Qed.

(** Claim C9.  The fan-out lowerings: the send creates exactly one
    [_HostSend] per local device of the receiving mesh, each with the input
    of the abstract Send, its key and the first local device of the source
    mesh as sender, the [i]-th one naming the [i]-th receiving device, and
    returns the one created last (a pointer never assigned when there is no
    receiving device); the receive creates exactly one [_HostRecv] per local
    device of the receiving mesh, all of the type of the abstract Recv; it
    returns the one created last, and every use of the abstract Recv reads
    that one. *)
Theorem fan_out_sends_and_recvs :
  forall m,
    wf_module m ->
    (forall send_input_layout send_input dtensor_send lowered m',
        LowerDTensorSendFromCPUToTFOp send_input_layout send_input
          dtensor_send m = Done lowered m' ->
        exists send key target_layout,
          lookup_op m dtensor_send = Some send /\
          op_kind send = DTensorSend key target_layout /\
          List.length (created m m')
          = List.length (local_devices (mesh target_layout)) /\
          match lowered with
          | Some last =>
              exists blk loc input sending,
                hd_error (local_devices (mesh send_input_layout))
                = Some sending /\
                nth_error (op_operands send) 0 = Some input /\
                Permutation (created m m')
                  (host_sends blk loc key sending input
                     (local_devices (mesh target_layout)) (next_id m)) /\
                last
                = pred (List.length (local_devices (mesh target_layout))
                        + next_id m)
          | None => local_devices (mesh target_layout) = []
          end) /\
    (forall send_mesh dtensor_recv lowered m',
        LowerDTensorRecvFromCPUToTFOp send_mesh dtensor_recv m
        = Done lowered m' ->
        exists recv key recv_layout type sending,
          lookup_op m dtensor_recv = Some recv /\
          op_kind recv = DTensorRecv key recv_layout /\
          nth_error (op_types recv) 0 = Some type /\
          hd_error (local_devices send_mesh) = Some sending /\
          Permutation (created m m')
            (host_recvs (op_block recv) (op_loc recv) key sending type
               (local_devices (mesh recv_layout)) (next_id m)) /\
          lowered
          = pred (List.length (local_devices (mesh recv_layout)) + next_id m) /\
          users m' dtensor_recv = [] /\
          forall y o,
            y <> dtensor_recv -> lookup_op m y = Some o ->
            lookup_op m' y
            = Some (map_operands (redirect dtensor_recv lowered) o)).
Proof.
  intros m W. split.
  - intros L v x [r|] m' H.
    + destruct (LowerDTensorSendFromCPUToTFOp_Done _ _ _ _ _ _ W H)
        as (send & key & tl & blk & loc & input & sd & Ls & K & Sd & In0 & _
            & W' & _ & Er & _ & _ & _ & _ & _ & Hin).
      assert (Hx : x < next_id m) by (eapply wf_lookup_lt; eauto).
      assert (P : Permutation (created m m')
                    (host_sends blk loc key sd input (local_devices (mesh tl))
                       (next_id m))).
      { apply (created_perm m m' _ (fun o => op_id o <> x)); auto.
        - rewrite host_sends_map_id. apply seq_NoDup.
        - intros o Ho. apply host_sends_ids in Ho. lia. }
      exists send, key, tl. splits; auto.
      * rewrite (Permutation_length P), <- (length_map op_id).
        now rewrite host_sends_map_id, length_seq.
      * exists blk, loc, input, sd. splits; auto.
    + destruct (LowerDTensorSendFromCPUToTFOp_None _ _ _ _ _ W H)
        as (send & key & tl & Ls & K & Erd & Ee).
      exists send, key, tl. splits; auto.
      rewrite Erd. cbn [List.length]. apply length_zero_iff_nil.
      apply filter_nil. intros o Ho.
      apply (erase_spec _ _ _ _ W) in Ee as (_ & _ & _ & _ & _ & _ & _ & Hin).
      apply Hin in Ho as [Ho _]. destruct W as (_ & Hlt & _).
      apply Hlt in Ho. apply Nat.leb_gt. lia.
  - intros sm x r m' H.
    destruct (LowerDTensorRecvFromCPUToTFOp_Done _ _ _ _ _ W H)
      as (recv & key & rl & ty & sd & Ls & K & Ty & Sd & _ & W' & _ & U & Er
          & _ & _ & _ & Lk & Lo & Hin).
    exists recv, key, rl, ty, sd. splits; auto.
    assert (Hx : x < next_id m) by (eapply wf_lookup_lt; eauto).
    apply NoDup_Permutation.
    + apply NoDup_filter. now apply wf_NoDup_ops.
    + eapply NoDup_map_inv. rewrite host_recvs_map_id. apply seq_NoDup.
    + intros o. rewrite created_In, Hin. split.
      * intros [[[Ho|(p & Hp & ->)] _] Hlt]; auto.
        destruct W as (_ & Hlt' & _). apply Hlt' in Hp. cbn in Hlt. lia.
      * intros Ho. pose proof (host_recvs_ids _ _ _ _ _ _ _ _ Ho). splits; auto.
        all: lia.
Qed.

Lemma fan_out_sends_and_recvs_witness :
  exists m1 m2,
    LowerDTensorSendFromCPUToTFOp cpu_layout (OpResult 3 0) 4 cpu_module
    = Done (Some 10) m1 /\
    LowerDTensorRecvFromCPUToTFOp cpu_mesh 6 cpu_module = Done 10 m2 /\
    List.length (created cpu_module m1) = 2 /\
    List.length (created cpu_module m2) = 2 /\
    users m2 6 = [].
Proof.
  eexists _, _. split; [lazy; reflexivity|]. split; [lazy; reflexivity|].
  destruct (fan_out_sends_and_recvs cpu_module cpu_module_wf) as [S R].
  destruct (S cpu_layout (OpResult 3 0) 4 (Some 10) _ eq_refl)
    as (send & key & tl & Ls & K & _ & blk & loc & input & sd & _ & _ & P1
        & _).
  destruct (R cpu_mesh 6 10 _ eq_refl)
    as (recv & key' & rl & ty & sd' & Lr & K' & _ & _ & P2 & _ & U & _).
  cbn in Ls, Lr. injection Ls as <-. injection Lr as <-.
  cbn in K, K'. injection K as <- <-. injection K' as <- <-.
  split; [|split].
  - exact (eq_trans (Permutation_length P1) eq_refl).
  - exact (eq_trans (Permutation_length P2) eq_refl).
  - exact U.
Defined.

Lemma GetOrCreateCompilationKey_inv op m key m1 :
  GetOrCreateCompilationKey op m = Done key m1 ->
  exists o c, lookup_op m op = Some o /\ op_block o = InCluster c.
Proof.
  unfold GetOrCreateCompilationKey. intros H.
  apply bind_Done in H as (o & m0 & E & H). apply deref_Done in E as [L ->].
  apply bind_Done in H as (cl & m0 & E & H).
  unfold getParentOfType_ClusterOp in E.
  destruct (op_block o) as [c| |] eqn:B; inversion E; subst; eauto;
    discriminate.
Qed.

Lemma GetOrCreateCompilationKey_frame op m key m1 :
  wf_module m ->
  GetOrCreateCompilationKey op m = Done key m1 ->
  wf_module m1 /\
  mod_clusters m1 = mod_clusters m /\ mod_funcs m1 = mod_funcs m /\
  next_id m <= next_id m1 /\
  (forall x o, lookup_op m x = Some o -> lookup_op m1 x = Some o) /\
  (exists p, lookup_op m1 (op_id p) = Some p /\ is_program_key p = true /\
             key = OpResult (op_id p) 0) /\
  (forall o, In o (mod_ops m1) ->
             In o (mod_ops m) \/
             (op_id o = next_id m /\ is_program_key o = true /\
              op_operands o = [])).
Proof.
  intros W H.
  destruct (GetOrCreateCompilationKey_inv _ _ _ _ H) as (o & c & L & B).
  pose proof H as H'. unfold GetOrCreateCompilationKey in H'.
  destruct (GetOrCreateCompilationKey_Done _ _ _ _ _ _ W L B H)
    as ((p & P1 & P2 & P3 & P4 & _) & W1 & Ec & Mono & Cases).
  assert (Lo : forall x o, lookup_op m x = Some o -> lookup_op m1 x = Some o).
  { intros x q. now apply wf_lookup_mono. }
  assert (Lp : lookup_op m1 (op_id p) = Some p)
    by (apply In_lookup; [apply W1|exact P1]).
  destruct Cases as [[-> _]|(q & _ & Q1 & Q2 & _ & Q3 & _ & _ & _ & Hin)].
  - splits; auto. exists p; auto.
  - splits; auto.
    + (* functions: only [create] ran *)
      clear - H'. 
      apply bind_Done in H' as (o & m0 & E & H). apply deref_Done in E as [_ ->].
      apply bind_Done in H as (cl & m0 & E & H).
      apply getParentOfType_ClusterOp_Done in E as [-> _].
      destruct cl as [cl|]; [|discriminate].
      apply bind_Done in H as (m0' & m0 & G & H). apply get_Done in G as [-> ->].
      destruct (walk_program_keys _ _).
      * apply ret_Done in H as [_ ->]. reflexivity.
      * apply bind_Done in H as (f & m0 & E & H).
        apply GetBody_front_Done in E as ->.
        apply bind_Done in H as (r & m2 & C & H).
        apply ret_Done in H as [_ ->].
        apply create_Done in C as (_ & _ & _ & Ef & _). exact Ef.
    + destruct W as (_ & Hlt & _). destruct W1 as (_ & Hlt1 & _).
      assert (In q (mod_ops m1)) by (apply Hin; auto).
      apply Hlt1 in H0. lia.
    + exists p; auto.
    + intros x Hx. apply Hin in Hx as [->|Hx]; auto.
      right. splits; auto. unfold is_program_key. now rewrite Q2.
Qed.

Lemma erase_erased x m u m' :
  erase x m = Done u m' -> erased m' x /\ users m' x = [].
Proof.
  intros H. apply erase_Done in H as (U & Eo & _). split.
  - apply lookup_None. intros o Ho. rewrite Eo in Ho.
    apply filter_In in Ho as [_ Ho]. apply negb_true_iff in Ho.
    now apply Nat.eqb_neq.
  - unfold users. rewrite Eo. apply filter_nil. intros o Ho.
    apply filter_In in Ho as [Ho _]. eapply filter_nil_inv; eauto.
Qed.

Lemma LowerDTensorSendToXlaOp_erased {order} L v x z m r m' :
  LowerDTensorSendToXlaOp order L v x z m = Done r m' ->
  erased m' x /\ users m' x = [].
Proof.
  unfold LowerDTensorSendToXlaOp. intros H.
  apply bind_Done in H as (send & m0 & _ & H).
  apply bind_Done in H as ([key tl] & m1 & _ & H).
  apply bind_Done in H as (lowered & m2 & _ & H).
  apply bind_Done in H as (u & m3 & E & H).
  apply ret_Done in H as [_ <-]. eapply erase_erased; eauto.
Qed.

Lemma create_frame b loc k operands types m r m' :
  wf_module m ->
  create b loc k operands types m = Done r m' ->
  wf_module m' /\
  (forall x o, lookup_op m x = Some o -> lookup_op m' x = Some o).
Proof.
  intros W H. apply (create_spec _ _ _ _ _ _ _ _ W) in H. tauto.
Qed.

Lemma LowerDTensorRecvToXlaOp_frame {order} x ty m r m' :
  wf_module m ->
  LowerDTensorRecvToXlaOp order x ty m = Done r m' ->
  wf_module m' /\
  (forall y o, lookup_op m y = Some o -> lookup_op m' y = Some o).
Proof.
  intros W H. unfold LowerDTensorRecvToXlaOp in H.
  apply bind_Done in H as (recv & m0 & E & H). apply deref_Done in E as [_ ->].
  apply bind_Done in H as ([key l] & m0 & E & H).
  apply DTensorRecv_attrs_Done in E as [_ ->].
  destruct (is_cpu_mesh (mesh l)).
  - apply bind_Done in H as (c & m0 & E & H).
    apply getParentOfType_ClusterOp_Done in E as [-> _].
    apply bind_Done in H as (me & m0 & E & H).
    apply ExtractDeviceMeshFromOp_Done in E as ->.
    destruct me as [me|]; [|discriminate].
    apply bind_Done in H as (cl & m0 & E & H). apply nonnull_Done in E as [_ ->].
    apply bind_Done in H as (front & m0 & E & H).
    apply GetBody_front_Done in E as ->.
    apply bind_Done in H as (fn & m0 & E & H).
    apply getParentOfType_FuncOp_Done in E as ->.
    apply bind_Done in H as (ord & m1 & E & H).
    apply (GetDeviceOrdinal_Done _ _ _ _ _ _ _ _ W) in E
      as (_ & _ & _ & _ & W1 & _ & _ & _ & _ & Lo1 & _).
    apply bind_Done in H as (pk & m2 & E & H).
    apply (GetOrCreateCompilationKey_frame _ _ _ _ W1) in E
      as (W2 & _ & _ & _ & Lo2 & _).
    apply (create_frame _ _ _ _ _ _ _ _ W2) in H as (W3 & Lo3).
    split; auto.
  - apply bind_Done in H as (rt & m0 & E & H). apply nonnull_Done in E as [_ ->].
    now apply (create_frame _ _ _ _ _ _ _ _ W) in H.
Qed.

(** Claim C3, as amended.  Of the single-target lowerings that return, the
    three sends (host to host, across the host/accelerator boundary, fan-out)
    erase the abstract Send, which is left without users; the fan-out receive
    redirects every use of the abstract Recv to the receive it returns and
    then erases the Recv; the host-to-host receive and the receive across the
    host/accelerator boundary leave every operation of the module, the
    abstract Recv and its users among them, as it was. *)
Theorem single_target_erasure :
  forall order m,
    wf_module m ->
    (forall layout input dtensor_send lowered m',
        LowerDTensorSendToTFOp layout input dtensor_send m = Done lowered m' ->
        erased m' dtensor_send /\ users m' dtensor_send = []) /\
    (forall layout input dtensor_send zero lowered m',
        LowerDTensorSendToXlaOp order layout input dtensor_send zero m
        = Done lowered m' ->
        erased m' dtensor_send /\ users m' dtensor_send = []) /\
    (forall layout input dtensor_send lowered m',
        LowerDTensorSendFromCPUToTFOp layout input dtensor_send m
        = Done lowered m' ->
        erased m' dtensor_send /\ users m' dtensor_send = []) /\
    (forall send_mesh dtensor_recv lowered m',
        LowerDTensorRecvFromCPUToTFOp send_mesh dtensor_recv m
        = Done lowered m' ->
        erased m' dtensor_recv /\ users m' dtensor_recv = [] /\
        forall y o,
          y <> dtensor_recv -> lookup_op m y = Some o ->
          lookup_op m' y
          = Some (map_operands (redirect dtensor_recv lowered) o)) /\
    (forall send_mesh dtensor_recv type lowered m',
        LowerDTensorRecvToTFOp send_mesh dtensor_recv type m
        = Done lowered m' ->
        forall y o, lookup_op m y = Some o -> lookup_op m' y = Some o) /\
    (forall dtensor_recv type lowered m',
        LowerDTensorRecvToXlaOp order dtensor_recv type m = Done lowered m' ->
        forall y o, lookup_op m y = Some o -> lookup_op m' y = Some o).
Proof.
  intros order m W. splits.
  - intros L v x r m' H. unfold LowerDTensorSendToTFOp in H.
    apply bind_Done in H as (send & m0 & _ & H).
    apply bind_Done in H as ([key tl] & m1 & _ & H).
    apply bind_Done in H as (def & m2 & _ & H).
    apply bind_Done in H as (b & m3 & _ & H).
    apply bind_Done in H as (loc & m4 & _ & H).
    apply bind_Done in H as (sd & m5 & _ & H).
    apply bind_Done in H as (rd & m6 & _ & H).
    apply bind_Done in H as (lo & m7 & _ & H).
    apply bind_Done in H as (u & m8 & E & H).
    apply ret_Done in H as [_ <-]. eapply erase_erased; eauto.
  - intros L v x z r m' H. eapply LowerDTensorSendToXlaOp_erased; eauto.
  - intros L v x r m' H.
    unfold LowerDTensorSendFromCPUToTFOp in H.
    apply bind_Done in H as (s0 & m0 & _ & H).
    apply bind_Done in H as ([k0 t0] & m1 & _ & H).
    apply bind_Done in H as (def & m2 & _ & H).
    apply bind_Done in H as (b & m3 & _ & H).
    apply bind_Done in H as (lo & m4 & _ & H).
    apply bind_Done in H as (u & m5 & E & H).
    apply ret_Done in H as [_ ->]. eapply erase_erased; eauto.
  - intros sm x r m' H.
    destruct (LowerDTensorRecvFromCPUToTFOp_Done _ _ _ _ _ W H)
      as (recv & key & rl & ty & sd & _ & _ & _ & _ & _ & _ & Er & U & _ & _
          & _ & _ & _ & Lo & _).
    auto.
  - intros sm x ty r m' H.
    destruct (LowerDTensorRecvToTFOp_Done _ _ _ _ _ _ W H)
      as (recv & key & rl & sd & rd & _ & _ & _ & _ & _ & _ & _ & _ & _ & _
          & Lo & _).
    exact Lo.
  - intros x ty r m' H.
    now destruct (LowerDTensorRecvToXlaOp_frame _ _ _ _ _ W H).
Qed.

Lemma single_target_erasure_witness :
  exists m1 m2 m3,
    LowerDTensorSendToXlaOp Args321 cpu_layout (OpResult 3 0) 4 false
      cpu_tpu_module
    = Done 16 m1 /\
    LowerDTensorRecvFromCPUToTFOp cpu_mesh 6 cpu_module = Done 10 m2 /\
    LowerDTensorRecvToTFOp cpu_mesh 6 i32_tensor cpu_module = Done 9 m3 /\
    erased m1 4 /\ erased m2 6 /\ users m2 6 = [] /\
    lookup_op m3 6 = lookup_op cpu_module 6.
Proof.
  eexists _, _, _.
  split; [lazy; reflexivity|]. split; [lazy; reflexivity|].
  split; [lazy; reflexivity|].
  destruct (single_target_erasure Args321 cpu_tpu_module
              (sample_module_wf _ _ _ _ _))
    as (_ & X & _).
  destruct (single_target_erasure Args321 cpu_module cpu_module_wf)
    as (_ & _ & _ & R & T & _).
  specialize (X cpu_layout (OpResult 3 0) 4 false 16).
  specialize (R cpu_mesh 6 10).
  specialize (T cpu_mesh 6 i32_tensor 9).
  lazy in X, R, T.
  destruct (X _ eq_refl) as [E1 _].
  destruct (R _ eq_refl) as (E2 & U2 & _).
  pose proof (T _ eq_refl 6 _ eq_refl) as E3.
  split; [exact E1|]. split; [exact E2|]. split; [exact U2|]. exact E3.
Defined.

(** Claim C3 as stated fails: the host-to-host receive returns with the
    abstract Recv still in the module and still used. *)
Lemma recv_to_tf_keeps_abstract_op :
  exists lowered m',
    LowerDTensorRecvToTFOp cpu_mesh 6 i32_tensor cpu_module = Done lowered m' /\
    ~ erased m' 6 /\
    users m' 6 <> [].
Proof.
  eexists _, _. split; [lazy; reflexivity|]. split.
  - unfold erased. lazy. discriminate.
  - lazy. discriminate.
Qed.

(** the same for the receive across the host/accelerator boundary *)
Lemma recv_to_xla_keeps_abstract_op :
  exists lowered m',
    LowerDTensorRecvToXlaOp Args321 6 i32_tensor cpu_module
    = Done lowered m' /\
    ~ erased m' 6 /\
    users m' 6 <> [].
Proof.
  eexists _, _. split; [lazy; reflexivity|]. split.
  - unfold erased. lazy. discriminate.
  - lazy. discriminate.
Qed.

(** a [DTensorSend] outside every cluster never reaches the check that
    reports it: the compilation key asserts the cluster first *)
Lemma LowerDTensorSendToXlaOp_no_cluster {order} L v x z m send key tl :
  lookup_op m x = Some send ->
  op_kind send = DTensorSend key tl ->
  (forall c, op_block send <> InCluster c) ->
  is_tpu_mesh (mesh L) = false ->
  LowerDTensorSendToXlaOp order L v x z m = Crashes.
Proof.
  intros Ls K B T.
  unfold LowerDTensorSendToXlaOp, GetOrCreateCompilationKey, bind, deref,
    nonnull, DTensorSend_attrs, getParentOfType_ClusterOp.
  rewrite Ls. cbn [ret]. rewrite K. cbn [ret]. rewrite T. cbn [negb].
  rewrite Ls. cbn [ret].
  destruct (op_block send) as [c| |] eqn:E; try reflexivity.
  now destruct (B c).
Qed.

(** Claim C7.  Where the claim promises an invalid-argument failure the
    lowerings crash: the send across the host/accelerator boundary on a Send
    outside every cluster, and both one-to-one lowerings on a cluster that
    carries no mesh.  The receive across the host/accelerator boundary is the
    one variant that reports the missing mesh as a status. *)
Theorem missing_context_crashes :
  forall order,
    LowerDTensorSendToXlaOp order cpu_layout (OpResult 3 0) 4 false
      stray_module
    = Crashes /\
    LowerOneToOneDTensorSendToTFHostSend sample_OpName sample_OpHash
      "tf._custom_device" order cpu_layout gpu_mesh 4 meshless_module
    = Crashes /\
    LowerOneToOneDTensorRecvToTFHostRecv sample_OpName sample_OpHash
      "_layout" sample_LocalType order cpu_mesh gpu_layout 6 meshless_module
    = Crashes /\
    LowerDTensorRecvToXlaOp order 6 i32_tensor meshless_module
    = Fails (InvalidArgument
        "failed to get device ordinal as mesh for operation is not specified.")
        meshless_module.
Proof.
  intros order. split; [|split; [|split]].
  - eapply LowerDTensorSendToXlaOp_no_cluster;
      [reflexivity|reflexivity|intros c; discriminate|reflexivity].
  - reflexivity.
  - reflexivity.
  - reflexivity.
Qed.

Lemma decimal_inj a b : decimal a = decimal b -> a = b.
Proof.
  unfold decimal. intros H.
  apply (f_equal NilEmpty.uint_of_string) in H.
  rewrite !NilEmpty.usu in H. inversion H as [H'].
  apply (f_equal Nat.of_uint) in H'. now rewrite !Unsigned.of_to in H'.
Qed.

Lemma append_inj_l (a b c : string) : (a ++ b = a ++ c)%string -> b = c.
Proof.
  induction a as [|x a IH]; cbn; auto. intros H. inversion H. auto.
Qed.

Lemma candidate_inj base a b :
  (base ++ "_" ++ decimal a = base ++ "_" ++ decimal b)%string -> a = b.
Proof.
  intros H. apply append_inj_l in H. cbn in H. inversion H.
  now apply decimal_inj.
Qed.

Lemma taken_In names name : taken names name = true <-> In name names.
Proof.
  unfold taken. rewrite existsb_exists. split.
  - intros (x & Hx & E). apply String.eqb_eq in E. now subst.
  - intros H. exists name. split; auto. apply String.eqb_refl.
Qed.

Lemma taken_false names name : taken names name = false <-> ~ In name names.
Proof.
  rewrite <- taken_In. destruct (taken names name); split; congruence.
Qed.

(** the name the uniquing loop returns is free and extends the base name *)
Lemma unique_name_Some fuel names base :
  forall counter name counter',
    unique_name fuel names base counter = Some (name, counter') ->
    ~ In name names /\ prefix base name = true.
Proof.
  induction fuel as [|fuel IH]; intros c name c'; cbn [unique_name];
    [discriminate|].
  destruct (taken names (base ++ "_" ++ decimal c)) eqn:T.
  - apply IH.
  - intros H; inversion H; subst. split; [now apply taken_false|].
    clear. induction base as [|x base IH]; cbn; auto.
    destruct (ascii_dec x x); [exact IH|congruence].
Qed.

(** the uniquing loop ends within as many steps as there are symbols, plus
    one: the fuel of [SymbolTable_insert] is enough *)
Lemma unique_name_fuel names base :
  forall fuel (seen : list string) counter,
    List.length seen < fuel ->
    (forall k, counter <= k ->
               In (base ++ "_" ++ decimal k)%string names ->
               In (base ++ "_" ++ decimal k)%string seen) ->
    unique_name fuel names base counter <> None.
Proof.
  induction fuel as [|fuel IH]; intros seen c Hlen Hseen; [lia|].
  cbn [unique_name].
  destruct (taken names (base ++ "_" ++ decimal c)) eqn:T; [|discriminate].
  apply taken_In in T.
  apply (IH (remove string_dec (base ++ "_" ++ decimal c)%string seen)).
  - assert (In (base ++ "_" ++ decimal c)%string seen) by (apply Hseen; auto).
    pose proof (remove_length_lt string_dec seen _ H). lia.
  - intros k Hk Hin. apply in_in_remove.
    + intros E. apply candidate_inj in E. lia.
    + apply Hseen; auto. lia.
Qed.

Lemma unique_name_total names base counter :
  exists r, unique_name (S (List.length names)) names base counter = Some r.
Proof.
  destruct (unique_name (S (List.length names)) names base counter) eqn:E;
    eauto.
  exfalso. revert E. apply (unique_name_fuel names base _ names); auto.
Qed.

Lemma prefix_refl s : prefix s s = true.
Proof.
  induction s as [|x s IH]; cbn; auto.
  destruct (ascii_dec x x); [exact IH|congruence].
Qed.

Lemma fresh_id_Done m r m' :
  fresh_id m = Done r m' ->
  r = next_id m /\ next_id m' = S (next_id m) /\
  mod_ops m' = mod_ops m /\ mod_funcs m' = mod_funcs m /\
  mod_clusters m' = mod_clusters m.
Proof. unfold fresh_id. intros H; inversion H; subst; cbn; auto. Qed.

Lemma update_funcs_Done f m u m' :
  update_funcs f m = Done u m' ->
  mod_ops m' = mod_ops m /\ mod_funcs m' = f (mod_funcs m) /\
  mod_clusters m' = mod_clusters m /\ next_id m' = next_id m.
Proof. unfold update_funcs. intros H; inversion H; subst; cbn; auto. Qed.

Lemma SymbolTable_insert_Done st f m name st' m' :
  SymbolTable_insert st f m = Done (name, st') m' ->
  mod_ops m' = mod_ops m /\ mod_clusters m' = mod_clusters m /\
  next_id m' = next_id m /\
  mod_funcs m' = mod_funcs m ++ [with_name f name] /\
  ~ In name (map sym_name (mod_funcs m)) /\
  prefix (sym_name f) name = true.
Proof.
  unfold SymbolTable_insert. intros H.
  apply bind_Done in H as (m0' & m0 & G & H). apply get_Done in G as [-> ->].
  destruct (taken (map sym_name (mod_funcs m)) (sym_name f)) eqn:T.
  - apply bind_Done in H as ([n c] & m0 & E & H).
    apply nonnull_Done in E as [E ->].
    apply bind_Done in H as (u & m1 & U & H).
    apply ret_Done in H as [H <-]. inversion H; subst n st'.
    apply update_funcs_Done in U as (Eo & Ef & Ec & En).
    apply unique_name_Some in E as [E1 E2]. splits; auto.
  - apply bind_Done in H as (u & m1 & U & H).
    apply ret_Done in H as [H <-]. inversion H; subst name st'.
    apply update_funcs_Done in U as (Eo & Ef & Ec & En).
    apply taken_false in T. splits; auto.
    + rewrite Ef. f_equal. f_equal. now destruct f.
    + apply prefix_refl.
Qed.

Lemma mapM_getType_Done l m tys m' :
  mapM getType l m = Done tys m' -> m' = m.
Proof.
  revert m tys m'. induction l as [|v l IH]; intros m tys m' H; cbn in H.
  - now apply ret_Done in H.
  - apply bind_Done in H as (t & m0 & E & H). apply getType_Done in E as ->.
    apply bind_Done in H as (ts & m1 & E & H). apply IH in E as ->.
    now apply ret_Done in H.
Qed.

Lemma wf_same_ops m m' :
  wf_module m ->
  mod_ops m' = mod_ops m -> next_id m <= next_id m' ->
  (forall f, In f (mod_funcs m') -> fn_id f < next_id m') ->
  wf_module m'.
Proof.
  intros (ND & Hlt & _) Eo En Hf. unfold wf_module. rewrite Eo.
  splits; auto. intros o Ho. apply Hlt in Ho. lia.
Qed.

Lemma lookup_same_ops m m' x :
  mod_ops m' = mod_ops m -> lookup_op m' x = lookup_op m x.
Proof. unfold lookup_op. now intros ->. Qed.

Section GenerateBranchesSpec.

Variable OpName : Op -> string.
Variable OpHash : Op -> nat.
Variable V : Type.
Variable fn : OpBuilder -> Loc -> option Value -> V -> M OpId.

(** what the branch body [fn] creates *)
Variable Pop : Op -> Prop.

Hypothesis fn_ok :
  forall id loc arg value m r m',
    wf_module m ->
    fn {| ip_block := InFunc id; ip_before := None |} loc arg value m
    = Done r m' ->
    wf_module m' /\
    mod_clusters m' = mod_clusters m /\
    next_id m <= next_id m' /\
    map func_sig (mod_funcs m') = map func_sig (mod_funcs m) /\
    (forall x o, lookup_op m x = Some o -> lookup_op m' x = Some o) /\
    (exists o, lookup_op m' r = Some o) /\
    (forall o, In o (mod_ops m') ->
               In o (mod_ops m) \/ (next_id m <= op_id o /\ Pop o)).

Lemma GenerateBranches_from_Done op result_types fmt :
  forall values index symbol_table m branches m',
    wf_module m ->
    GenerateBranches_from OpName OpHash index op symbol_table result_types
      fmt values fn m = Done branches m' ->
    wf_module m' /\
    mod_clusters m' = mod_clusters m /\
    next_id m <= next_id m' /\
    (forall x o, lookup_op m x = Some o -> lookup_op m' x = Some o) /\
    List.length branches = List.length values /\
    (exists news,
        map func_sig (mod_funcs m') = map func_sig (mod_funcs m) ++ news /\
        map sig_name news = branches /\
        Forall (fun s => snd s = Private /\ next_id m <= fst (fst s)) news) /\
    NoDup branches /\
    (forall b, In b branches -> ~ In b (map sym_name (mod_funcs m))) /\
    (forall i name,
        nth_error branches i = Some name ->
        prefix (formatv fmt [OpName op; decimal (OpHash op);
                             decimal (index + i)]) name = true) /\
    (forall o, In o (mod_ops m') ->
               In o (mod_ops m) \/
               (next_id m <= op_id o /\ (Pop o \/ is_return o))).
Proof.
  induction values as [|value rest IH];
    intros index st m branches m' W H; cbn [GenerateBranches_from] in H.
  - apply ret_Done in H as [-> ->]. splits; auto.
    + exists []. rewrite app_nil_r. splits; auto.
    + constructor.
    + intros [|i] name; discriminate.
  - apply bind_Done in H as (tys & m0 & E & H).
    apply mapM_getType_Done in E as ->.
    apply bind_Done in H as (id & m1 & E & H).
    apply fresh_id_Done in E as (-> & En1 & Eo1 & Ef1 & Ec1).
    apply bind_Done in H as ([name st'] & m2 & E & H).
    apply SymbolTable_insert_Done in E as (Eo2 & Ec2 & En2 & Ef2 & Fresh & Pre).
    cbn [sym_name setVisibility FuncOp_create] in Pre.
    assert (W2 : wf_module m2).
    { apply (wf_same_ops m); auto; [congruence|lia|].
      intros f Hf. rewrite Ef2, Ef1 in Hf. apply in_app_iff in Hf as [Hf|Hf].
      - destruct W as (_ & _ & Hfn). apply Hfn in Hf. lia.
      - destruct Hf as [<-|[]]. cbn. lia. }
    apply bind_Done in H as (branch_op & m3 & E & H).
    apply (fn_ok _ _ _ _ _ _ _ W2) in E
      as (W3 & Ec3 & En3 & Ef3 & Lo3 & (bo & Lb) & Hin3).
    apply bind_Done in H as (branch & m4 & E & H).
    apply deref_Done in E as [Lb' ->].
    apply bind_Done in H as (ret_op & m4 & C & H).
    pose proof C as C'. apply create_Done in C' as (_ & _ & _ & Ef4' & _).
    use_create W3 C.
    apply bind_Done in H as (branches' & m5 & E & H).
    apply ret_Done in H as [-> <-].
    apply IH in E as (W5 & Ec5 & En5 & Lo5 & Len & (news & Ef5 & Nm & Fa)
                      & ND & Fr & Pf & Hin5); [|exact W0].
    assert (Names4 : map sym_name (mod_funcs m4)
                     = map sym_name (mod_funcs m) ++ [name]).
    { assert (S4 : map func_sig (mod_funcs m4)
                   = map func_sig (mod_funcs m) ++ [func_sig
                       (with_name (setVisibility Private
                          (FuncOp_create (next_id m) (op_loc op)
                             (formatv fmt [OpName op; decimal (OpHash op);
                                           decimal index]) tys result_types))
                          name)]).
      { rewrite Ef, Ef3, Ef2, Ef1, map_app. reflexivity. }
      apply (f_equal (map sig_name)) in S4.
      rewrite map_app, !map_map in S4. exact S4. }
    splits.
    + exact W5.
    + congruence.
    + lia.
    + intros x o L. apply Lo5, Lo, Lo3.
      rewrite (lookup_same_ops m1 m2), (lookup_same_ops m m1); auto.
    + cbn. now rewrite Len.
    + exists ((next_id m, name, Private) :: news). splits.
      * rewrite Ef5, Ef, Ef3, Ef2, Ef1, map_app. cbn [map app].
        rewrite <- app_assoc. reflexivity.
      * cbn. now rewrite Nm.
      * constructor; [cbn; auto|].
        eapply Forall_impl; [|exact Fa]. cbn. intros s [? ?]. split; auto. lia.
    + constructor; auto. intros Hb. apply Fr in Hb. apply Hb.
      rewrite Names4. apply in_app_iff. right. now left.
    + intros b [<-|Hb]; [now rewrite <- Ef1|].
      apply Fr in Hb. intros Hb'. apply Hb. rewrite Names4.
      apply in_app_iff. now left.
    + intros [|i] nm; cbn [nth_error].
      * intros E; inversion E; subst nm. now rewrite Nat.add_0_r.
      * intros E. apply Pf in E.
        now replace (index + S i) with (S index + i) by lia.
    + intros o Ho. apply Hin5 in Ho as [Ho|[Hlt Ho]].
      * apply Hin in Ho as [->|Ho].
        -- right. split; [cbn; lia|]. right. split; [reflexivity|].
           intros y i Hy. cbn in Hy. unfold getResults in Hy.
           apply in_map_iff in Hy as (j & Ej & _). inversion Ej; subst y.
           apply lookup_In in Lb' as [Lb1 Lb2]. rewrite Lb2. cbn.
           eapply wf_lookup_lt; [exact W3|]. rewrite <- Lb2.
           apply In_lookup; [apply W3|exact Lb1].
        -- apply Hin3 in Ho as [Ho|[Hlt Ho]].
           ++ left. rewrite Eo2, Eo1 in Ho. exact Ho.
           ++ right. split; [lia|auto].
      * right. split; [lia|exact Ho].
Qed.

End GenerateBranchesSpec.

Lemma wf_funcs_sig m m' :
  wf_module m ->
  mod_ops m' = mod_ops m -> next_id m' = next_id m ->
  map func_sig (mod_funcs m') = map func_sig (mod_funcs m) ->
  wf_module m'.
Proof.
  intros W Eo En Ef. apply (wf_same_ops m); auto; [lia|].
  intros f Hf. apply (in_map func_sig) in Hf. rewrite Ef in Hf.
  apply in_map_iff in Hf as (g & E & Hg). inversion E as [[E1 E2 E3]].
  destruct W as (_ & _ & Hfn). apply Hfn in Hg. lia.
Qed.

Lemma setArgAttr_Done f i name value m u m' :
  setArgAttr f i name value m = Done u m' ->
  mod_ops m' = mod_ops m /\ mod_clusters m' = mod_clusters m /\
  next_id m' = next_id m /\
  map func_sig (mod_funcs m') = map func_sig (mod_funcs m).
Proof.
  unfold setArgAttr. intros H.
  apply bind_Done in H as (m0' & m0 & G & H). apply get_Done in G as [-> ->].
  apply bind_Done in H as (fn & m0 & E & H). apply nonnull_Done in E as [_ ->].
  apply bind_Done in H as (old & m0 & E & H). apply nonnull_Done in E as [_ ->].
  apply bind_Done in H as (attrs & m0 & E & H). apply nonnull_Done in E as [_ ->].
  apply update_funcs_Done in H as (Eo & Ef & Ec & En). splits; auto.
  rewrite Ef, map_map. apply map_ext. intros g.
  destruct (Nat.eqb (fn_id g) f); reflexivity.
Qed.

Lemma arg_func_Done arg m f i m' :
  arg_func arg m = Done (f, i) m' -> m' = m /\ arg = Some (BlockArgument f i).
Proof.
  unfold arg_func. intros H.
  apply bind_Done in H as (a & m0 & E & H). apply nonnull_Done in E as [-> ->].
  destruct a; [discriminate|]. apply ret_Done in H as [H ->].
  inversion H; subst. auto.
Qed.

Lemma send_branch_ok kCustomDeviceAttr send_layout i32_copy tensor_name :
  forall id loc arg value m r m',
    wf_module m ->
    send_branch kCustomDeviceAttr send_layout i32_copy tensor_name
      {| ip_block := InFunc id; ip_before := None |} loc arg value m
    = Done r m' ->
    wf_module m' /\
    mod_clusters m' = mod_clusters m /\
    next_id m <= next_id m' /\
    map func_sig (mod_funcs m') = map func_sig (mod_funcs m) /\
    (forall x o, lookup_op m x = Some o -> lookup_op m' x = Some o) /\
    (exists o, lookup_op m' r = Some o) /\
    (forall o, In o (mod_ops m') ->
               In o (mod_ops m) \/ (next_id m <= op_id o /\ True)).
Proof.
  intros id loc arg value m r m' W H. unfold send_branch in H.
  apply bind_Done in H as ([f i] & m0 & E & H).
  apply arg_func_Done in E as [-> _].
  apply bind_Done in H as (u & m1 & E & H).
  apply setArgAttr_Done in E as (Eo1 & Ec1 & En1 & Ef1).
  assert (W1 : wf_module m1) by (eapply wf_funcs_sig; eauto).
  assert (Lo1 : forall x o, lookup_op m x = Some o -> lookup_op m1 x = Some o).
  { intros x o L. now rewrite (lookup_same_ops m m1). }
  apply bind_Done in H as (val & m2 & E & H).
  destruct i32_copy.
  - apply bind_Done in E as (vt & m0 & E' & E).
    apply getType_Done in E' as ->.
    apply bind_Done in E as (cast & m3 & C & E).
    apply ret_Done in E as [-> <-].
    use_create W1 C. use_create W0 H. splits; auto.
    + congruence.
    + lia.
    + congruence.
    + eauto.
    + intros o Ho. apply Hin0 in Ho as [->|Ho]; [right; cbn; split; auto; lia|].
      apply Hin in Ho as [->|Ho]; [right; cbn; split; auto; lia|].
      left. now rewrite <- Eo1.
  - apply ret_Done in E as [-> <-]. use_create W1 H. splits; auto.
    + congruence.
    + lia.
    + congruence.
    + eauto.
    + intros o Ho. apply Hin in Ho as [->|Ho]; [right; cbn; split; auto; lia|].
      left. now rewrite <- Eo1.
Qed.

Lemma LowerOneToOneSend_Done {order} OpName OpHash kCustomDeviceAttr send_layout
    recv_mesh x m r m' :
  wf_module m ->
  LowerOneToOneDTensorSendToTFHostSend OpName OpHash kCustomDeviceAttr order
    send_layout recv_mesh x m = Done r m' ->
  exists send key tl branches news case_op,
    lookup_op m x = Some send /\ op_kind send = DTensorSend key tl /\
    wf_module m' /\
    List.length branches
    = List.length (combine (local_devices (mesh send_layout))
                     (local_devices recv_mesh)) /\
    map func_sig (mod_funcs m') = map func_sig (mod_funcs m) ++ news /\
    map sig_name news = branches /\
    Forall (fun s => snd s = Private /\ next_id m <= fst (fst s)) news /\
    NoDup branches /\
    (forall b, In b branches -> ~ In b (map sym_name (mod_funcs m))) /\
    (forall i name,
        nth_error branches i = Some name ->
        prefix (formatv "{0}_send_{1}_{2}"
                  [OpName send; decimal (OpHash send); decimal i]) name
        = true) /\
    lookup_op m' r = Some case_op /\ op_kind case_op = CaseOp branches false /\
    (if String.eqb (device_type recv_mesh) "GPU"
     then erased m' x else lookup_op m' x = Some send).
Proof.
  intros W H. unfold LowerOneToOneDTensorSendToTFHostSend in H.
  apply bind_Done in H as (send & m0 & E & H). apply deref_Done in E as [Ls ->].
  apply bind_Done in H as ([key tl] & m0 & E & H).
  apply DTensorSend_attrs_Done in E as [K ->].
  apply bind_Done in H as (input & m0 & E & H). apply nonnull_Done in E as [_ ->].
  apply bind_Done in H as (ity & m0 & E & H). apply getType_Done in E as ->.
  apply bind_Done in H as (cl & m0 & E & H).
  apply getParentOfType_ClusterOp_Done in E as [-> _].
  apply bind_Done in H as (fn & m0 & E & H).
  apply bind_Done in E as (c & m1 & E1 & E). apply nonnull_Done in E1 as [_ ->].
  apply getParentOfType_FuncOp_Done in E as ->.
  apply bind_Done in H as (me & m0 & E & H).
  apply ExtractDeviceMeshFromOp_Done in E as ->.
  apply bind_Done in H as (me' & m0 & E & H). apply nonnull_Done in E as [_ ->].
  apply bind_Done in H as (ord & m1 & E & H).
  apply (GetDeviceOrdinal_Done _ _ _ _ _ _ _ _ W) in E
    as (_ & _ & _ & _ & W1 & Ef1 & _ & En1 & _ & Lo1 & _).
  apply bind_Done in H as (branches & m2 & E & H).
  unfold GenerateBranches in E.
  apply (GenerateBranches_from_Done OpName OpHash _ _ (fun _ => True)
           (send_branch_ok _ _ _ _) _ _ _ _ _ _ _ _ _ W1) in E
    as (W2 & _ & En2 & Lo2 & Len & (news & Ef2 & Nm & Fa) & ND & Fr & Pf & _).
  apply bind_Done in H as (case_op & m3 & C & H).
  use_create W2 C.
  apply bind_Done in H as (u & m4 & E & H).
  apply ret_Done in H as [<- <-].
  assert (Hx : x < next_id m) by (eapply wf_lookup_lt; eauto).
  assert (Common :
    List.length branches
    = List.length (combine (local_devices (mesh send_layout))
                     (local_devices recv_mesh)) /\
    map func_sig (mod_funcs m3) = map func_sig (mod_funcs m) ++ news /\
    map sig_name news = branches /\
    Forall (fun s => snd s = Private /\ next_id m <= fst (fst s)) news /\
    NoDup branches /\
    (forall b, In b branches -> ~ In b (map sym_name (mod_funcs m))) /\
    (forall i name,
        nth_error branches i = Some name ->
        prefix (formatv "{0}_send_{1}_{2}"
                  [OpName send; decimal (OpHash send); decimal i]) name
        = true)).
  { splits; auto.
    - rewrite Ef, Ef2, Ef1. reflexivity.
    - eapply Forall_impl; [|exact Fa]. cbn. intros s [? ?]. split; auto. lia.
    - intros b Hb. rewrite <- Ef1. auto. }
  destruct Common as (C1 & C2 & C3 & C4 & C5 & C6 & C7).
  exists send, key, tl, branches, news.
  destruct (String.eqb (device_type recv_mesh) "GPU").
  - apply (erase_spec _ _ _ _ W0) in E
      as (W4 & Er' & _ & _ & Ef' & _ & Lo' & _).
    eexists. splits; eauto; try congruence; try reflexivity.
    all: [> rewrite Lo' by lia; subst r; exact Ln | reflexivity ].
  - apply ret_Done in E as [_ <-].
    eexists. splits; eauto; try reflexivity.
    all: try (subst r; exact Ln); try reflexivity.
Qed.

(** the steps of [LowerOneToOneDTensorRecvToTFHostRecv] on a successful run *)
Lemma LowerOneToOneRecv_steps {order} OpName OpHash kLayoutAttr LocalType
    send_mesh recv_layout x m r m' :
  LowerOneToOneDTensorRecvToTFHostRecv OpName OpHash kLayoutAttr LocalType order
    send_mesh recv_layout x m = Done r m' ->
  exists recv key layout cluster me fn ord m1 recv_type local branches m2
         case_id m3 m4 m5,
    lookup_op m x = Some recv /\ op_kind recv = DTensorRecv key layout /\
    GetDeviceOrdinal order me (cl_loc cluster) fn (OpBuilder_at recv) false m
    = Done ord m1 /\
    nth_error (op_types recv) 0 = Some recv_type /\
    LocalType layout recv_type = OkValue local /\
    GenerateBranches_from OpName OpHash 0 recv {| uniquingCounter := 0 |}
      [declared_output_type recv_type local] "{0}_receive_{1}_{2}"
      (combine (local_devices send_mesh) (local_devices (mesh recv_layout)))
      (recv_branch kLayoutAttr recv_layout
         (declared_output_type recv_type local) key) m1
    = Done branches m2 /\
    create (OpBuilder_at recv) (op_loc recv) (CaseOp branches false)
      (ord :: op_operands recv) [declared_output_type recv_type local] m2
    = Done case_id m3 /\
    (if isInteger 32 (getElementType recv_type)
     then create (OpBuilder_at recv) (op_loc recv) CastOp [OpResult case_id 0]
            [local] m3 = Done r m4
     else r = case_id /\ m4 = m3) /\
    Value_replaceAllUsesWith (OpResult x 0) (OpResult r 0) m4 = Done tt m5 /\
    erase x m5 = Done tt m'.
Proof.
  intros H. unfold LowerOneToOneDTensorRecvToTFHostRecv in H.
  apply bind_Done in H as (recv & m0 & E & H). apply deref_Done in E as [Ls ->].
  apply bind_Done in H as ([key layout] & m0 & E & H).
  apply DTensorRecv_attrs_Done in E as [K ->].
  apply bind_Done in H as (cl & m0 & E & H).
  apply getParentOfType_ClusterOp_Done in E as [-> _].
  apply bind_Done in H as (fn & m0 & E & H).
  apply bind_Done in E as (c & m1 & E1 & E). apply nonnull_Done in E1 as [_ ->].
  apply getParentOfType_FuncOp_Done in E as ->.
  apply bind_Done in H as (me & m0 & E & H).
  apply ExtractDeviceMeshFromOp_Done in E as ->.
  apply bind_Done in H as (me' & m0 & E & H). apply nonnull_Done in E as [_ ->].
  apply bind_Done in H as (cluster & m0 & E & H).
  apply nonnull_Done in E as [_ ->].
  apply bind_Done in H as (ord & m1 & Eord & H).
  apply bind_Done in H as (recv_type & m0 & E & H).
  apply nonnull_Done in E as [Ety ->].
  apply bind_Done in H as (local & m0 & E & H).
  unfold assign_or_return in E.
  destruct (LocalType layout recv_type) as [lt|] eqn:ELT; [|discriminate].
  apply ret_Done in E as [-> ->].
  apply bind_Done in H as (branches & m2 & EG & H).
  apply bind_Done in H as (case_id & m3 & EC & H).
  apply bind_Done in H as (lowered & m4 & EL & H).
  apply bind_Done in H as ([] & m5 & ER & H).
  apply bind_Done in H as ([] & m6 & EE & H).
  apply ret_Done in H as [<- <-].
  exists recv, key, layout, cluster, me', fn, ord, m1, recv_type, lt, branches,
    m2, case_id, m3, m4, m5.
  unfold declared_output_type.
  splits; auto.
  destruct (isInteger 32 (getElementType recv_type)); auto.
  now apply ret_Done in EL.
Qed.

Lemma recv_branch_ok kLayoutAttr recv_layout type tensor_name :
  forall id loc arg value m r m',
    wf_module m ->
    recv_branch kLayoutAttr recv_layout type tensor_name
      {| ip_block := InFunc id; ip_before := None |} loc arg value m
    = Done r m' ->
    wf_module m' /\
    mod_clusters m' = mod_clusters m /\
    next_id m <= next_id m' /\
    map func_sig (mod_funcs m') = map func_sig (mod_funcs m) /\
    (forall x o, lookup_op m x = Some o -> lookup_op m' x = Some o) /\
    (exists o, lookup_op m' r = Some o) /\
    (forall o, In o (mod_ops m') ->
               In o (mod_ops m) \/ (next_id m <= op_id o /\ host_recv_of type o)).
Proof.
  intros id loc arg value m r m' W H. unfold recv_branch in H.
  apply bind_Done in H as (r0 & m1 & C & H). use_create W C.
  apply bind_Done in H as (u & m2 & S & H).
  apply ret_Done in H as [<- <-].
  unfold SetSingleLayoutOnOp, setAttr in S.
  set (f := fun o : Op =>
              if Nat.eqb (op_id o) r
              then with_attr kLayoutAttr (ToString recv_layout) o else o) in S.
  assert (Hf : forall o, op_id (f o) = op_id o).
  { intros o. unfold f. now destruct (Nat.eqb (op_id o) r). }
  assert (Hold : forall o, op_id o <> r -> f o = o).
  { intros o Ho. unfold f. apply Nat.eqb_neq in Ho. now rewrite Ho. }
  apply (update_ops_spec f _ _ _ Hf W0) in S
    as (W2 & Eo2 & Ec2 & Ef2 & En2 & Lk2).
  splits; auto.
  - congruence.
  - lia.
  - congruence.
  - intros y o L. rewrite Lk2, (Lo _ _ L). cbn. f_equal. apply Hold.
    apply lookup_In in L as [L <-]. destruct W as (_ & Hlt & _).
    apply Hlt in L. lia.
  - rewrite Lk2, Ln. cbn. eauto.
  - intros o Ho. rewrite Eo2 in Ho. apply in_map_iff in Ho as (p & <- & Hp).
    apply Hin in Hp as [->|Hp].
    + right. rewrite Hf. cbn [new_op op_id]. split; [lia|].
      unfold f. cbn [new_op op_id]. subst r. rewrite Nat.eqb_refl.
      unfold host_recv_of; cbn. splits; eauto.
    + left. rewrite Hold; auto. destruct W as (_ & Hlt & _).
      apply Hlt in Hp. lia.
Qed.

Lemma Value_replaceAllUsesWith_spec old new m u m' :
  wf_module m ->
  Value_replaceAllUsesWith old new m = Done u m' ->
  wf_module m' /\
  mod_ops m' = map (map_operands (substitute old new)) (mod_ops m) /\
  mod_clusters m' = mod_clusters m /\ mod_funcs m' = mod_funcs m /\
  next_id m' = next_id m /\
  (forall x, lookup_op m' x
             = option_map (map_operands (substitute old new)) (lookup_op m x)).
Proof.
  intros W H. unfold Value_replaceAllUsesWith in H.
  now apply (update_ops_spec (map_operands (substitute old new)) _ _ _
               (fun o => eq_refl) W) in H.
Qed.

(** the symbols and the case op of a one-to-one receive *)
Lemma LowerOneToOneRecv_Done {order} OpName OpHash kLayoutAttr LocalType
    send_mesh recv_layout x m r m' :
  wf_module m ->
  LowerOneToOneDTensorRecvToTFHostRecv OpName OpHash kLayoutAttr LocalType order
    send_mesh recv_layout x m = Done r m' ->
  exists recv key layout branches news case_id case_op,
    lookup_op m x = Some recv /\ op_kind recv = DTensorRecv key layout /\
    wf_module m' /\
    List.length branches
    = List.length (combine (local_devices send_mesh)
                     (local_devices (mesh recv_layout))) /\
    map func_sig (mod_funcs m') = map func_sig (mod_funcs m) ++ news /\
    map sig_name news = branches /\
    Forall (fun s => snd s = Private /\ next_id m <= fst (fst s)) news /\
    NoDup branches /\
    (forall b, In b branches -> ~ In b (map sym_name (mod_funcs m))) /\
    (forall i name,
        nth_error branches i = Some name ->
        prefix (formatv "{0}_receive_{1}_{2}"
                  [OpName recv; decimal (OpHash recv); decimal i]) name
        = true) /\
    lookup_op m' case_id = Some case_op /\
    op_kind case_op = CaseOp branches false /\
    erased m' x.
Proof.
  intros W H.
  destruct (LowerOneToOneRecv_steps _ _ _ _ _ _ _ _ _ _ H)
    as (recv & key & layout & cluster & me & fn & ord & m1 & recv_type & local
        & branches & m2 & case_id & m3 & m4 & m5 & Ls & K & Eord & Ety & ELT
        & EG & EC & EL & ER & EE).
  apply (GetDeviceOrdinal_Done _ _ _ _ _ _ _ _ W) in Eord
    as (_ & _ & _ & _ & W1 & Ef1 & _ & En1 & _ & Lo1 & _).
  apply (GenerateBranches_from_Done OpName OpHash _ _ _
           (recv_branch_ok _ _ _ _) _ _ _ _ _ _ _ _ _ W1) in EG
    as (W2 & _ & En2 & Lo2 & Len & (news & Ef2 & Nm & Fa) & ND & Fr & Pf & _).
  use_create W2 EC.
  assert (Hx : x < next_id m) by (eapply wf_lookup_lt; eauto).
  assert (W4 : wf_module m4 /\ mod_funcs m4 = mod_funcs m3 /\
               next_id m3 <= next_id m4 /\
               (forall y o, lookup_op m3 y = Some o -> lookup_op m4 y = Some o)).
  { destruct (isInteger 32 (getElementType recv_type)).
    - use_create W0 EL. splits; auto. lia.
    - destruct EL as [-> ->]. splits; auto. }
  destruct W4 as (W4 & Ef4 & En4 & Lo4).
  apply (Value_replaceAllUsesWith_spec _ _ _ _ _ W4) in ER
    as (W5 & _ & _ & Ef5 & En5 & Lk5).
  apply (erase_spec _ _ _ _ W5) in EE
    as (W6 & Er' & _ & _ & Ef6 & _ & Lo6 & _).
  exists recv, key, layout, branches, news, case_id.
  eexists. splits; eauto.
  - rewrite Ef6, Ef5, Ef4, Ef, Ef2, Ef1. reflexivity.
  - eapply Forall_impl; [|exact Fa]. cbn. intros s [? ?]. split; auto. lia.
  - intros b Hb. rewrite <- Ef1. auto.
  - rewrite Lo6 by lia. rewrite Lk5, (Lo4 _ _ Ln). cbn. reflexivity.
  - reflexivity.
Qed.

Lemma created_funcs_length m m' news :
  wf_module m ->
  map func_sig (mod_funcs m') = map func_sig (mod_funcs m) ++ news ->
  Forall (fun s => snd s = Private /\ next_id m <= fst (fst s)) news ->
  List.length (created_funcs m m') = List.length news /\
  Forall (fun f => sym_visibility f = Private) (created_funcs m m').
Proof.
  intros (_ & _ & Hfn) E Fa.
  assert (S : map func_sig (created_funcs m m') = news).
  { unfold created_funcs.
    assert (G : forall l,
      map func_sig (filter (fun f => Nat.leb (next_id m) (fn_id f)) l)
      = filter (fun s => Nat.leb (next_id m) (fst (fst s))) (map func_sig l)).
    { induction l as [|f l IH]; cbn; auto.
      destruct (Nat.leb (next_id m) (fn_id f)); cbn; now rewrite IH. }
    rewrite G, E, filter_app.
    rewrite (filter_nil _ (map func_sig (mod_funcs m))).
    - cbn. clear - Fa. induction Fa as [|s l [_ Hs] _ IH]; cbn; auto.
      apply Nat.leb_le in Hs. rewrite Hs. now rewrite IH.
    - intros s Hs. apply in_map_iff in Hs as (f & <- & Hf).
      apply Hfn in Hf. cbn. apply Nat.leb_gt. lia. }
  split.
  - rewrite <- S. now rewrite length_map.
  - rewrite Forall_forall. intros f Hf.
    apply (in_map func_sig) in Hf. rewrite S in Hf.
    rewrite Forall_forall in Fa. now apply Fa in Hf.
Qed.

(* ---------- formatted names ---------- *)
Lemma append_nil_r (s : string) : (s ++ "")%string = s.
Proof. induction s as [|c s IH]; cbn; congruence. Qed.

Lemma formatv_send a b c :
  formatv "{0}_send_{1}_{2}" [a; decimal b; decimal c]
  = send_branch_name a b c.
Proof.
  unfold send_branch_name. lazy -[decimal append].
  now rewrite (append_nil_r (decimal c)).
Qed.

Lemma formatv_receive a b c :
  formatv "{0}_receive_{1}_{2}" [a; decimal b; decimal c]
  = receive_branch_name a b c.
Proof.
  unfold receive_branch_name. lazy -[decimal append].
  now rewrite (append_nil_r (decimal c)).
Qed.

(** Claim C4.  A one-to-one lowering over the [N] device pairs of the two
    meshes adds exactly [N] functions to the module, all private; their names
    are pairwise distinct, differ from every symbol the module had, and start
    with the name of the abstract op, [_send_] or [_receive_], its hash, [_]
    and the index of the pair; the [Case] operation created lists exactly
    these [N] names. *)
Theorem branching_subprograms :
  forall order OpName OpHash kCustomDeviceAttr kLayoutAttr
         LocalTypeFromGlobalType m,
    wf_module m ->
    (forall send_layout recv_mesh dtensor_send case_id m',
        LowerOneToOneDTensorSendToTFHostSend OpName OpHash kCustomDeviceAttr
          order send_layout recv_mesh dtensor_send m = Done case_id m' ->
        exists send branches case_op,
          lookup_op m dtensor_send = Some send /\
          List.length (created_funcs m m')
          = List.length (combine (local_devices (mesh send_layout))
                           (local_devices recv_mesh)) /\
          Forall (fun f => sym_visibility f = Private) (created_funcs m m') /\
          map sym_name (mod_funcs m')
          = map sym_name (mod_funcs m) ++ branches /\
          NoDup branches /\
          (forall b, In b branches -> ~ In b (map sym_name (mod_funcs m))) /\
          (forall i name,
              nth_error branches i = Some name ->
              prefix (send_branch_name (OpName send) (OpHash send) i) name
              = true) /\
          lookup_op m' case_id = Some case_op /\
          op_kind case_op = CaseOp branches false /\
          List.length branches
          = List.length (combine (local_devices (mesh send_layout))
                           (local_devices recv_mesh))) /\
    (forall send_mesh recv_layout dtensor_recv lowered m',
        LowerOneToOneDTensorRecvToTFHostRecv OpName OpHash kLayoutAttr
          LocalTypeFromGlobalType order send_mesh recv_layout dtensor_recv m
        = Done lowered m' ->
        exists recv branches case_id case_op,
          lookup_op m dtensor_recv = Some recv /\
          List.length (created_funcs m m')
          = List.length (combine (local_devices send_mesh)
                           (local_devices (mesh recv_layout))) /\
          Forall (fun f => sym_visibility f = Private) (created_funcs m m') /\
          map sym_name (mod_funcs m')
          = map sym_name (mod_funcs m) ++ branches /\
          NoDup branches /\
          (forall b, In b branches -> ~ In b (map sym_name (mod_funcs m))) /\
          (forall i name,
              nth_error branches i = Some name ->
              prefix (receive_branch_name (OpName recv) (OpHash recv) i) name
              = true) /\
          lookup_op m' case_id = Some case_op /\
          op_kind case_op = CaseOp branches false /\
          List.length branches
          = List.length (combine (local_devices send_mesh)
                           (local_devices (mesh recv_layout)))).
Proof.
  intros order OpName OpHash kC kL LT m W. split.
  - intros sl rm x r m' H.
    destruct (LowerOneToOneSend_Done _ _ _ _ _ _ _ _ _ W H)
      as (send & key & tl & branches & news & case_op & Ls & _ & _ & Len & Ef
          & Nm & Fa & ND & Fr & Pf & Lc & Kc & _).
    destruct (created_funcs_length _ _ _ W Ef Fa) as [CL CP].
    exists send, branches, case_op. splits; auto.
    + rewrite CL, <- Len, <- Nm. now rewrite length_map.
    + apply (f_equal (map sig_name)) in Ef.
      rewrite map_app, !map_map, Nm in Ef. exact Ef.
    + intros i name Hi. rewrite <- formatv_send. auto.
  - intros sm rl x r m' H.
    destruct (LowerOneToOneRecv_Done _ _ _ _ _ _ _ _ _ _ W H)
      as (recv & key & layout & branches & news & case_id & case_op & Ls & _
          & _ & Len & Ef & Nm & Fa & ND & Fr & Pf & Lc & Kc & _).
    destruct (created_funcs_length _ _ _ W Ef Fa) as [CL CP].
    exists recv, branches, case_id, case_op. splits; auto.
    + rewrite CL, <- Len, <- Nm. now rewrite length_map.
    + apply (f_equal (map sig_name)) in Ef.
      rewrite map_app, !map_map, Nm in Ef. exact Ef.
    + intros i name Hi. rewrite <- formatv_receive. auto.
Qed.

Lemma branching_subprograms_witness :
  exists m1 m2,
    LowerOneToOneDTensorSendToTFHostSend sample_OpName sample_OpHash
      "tf._custom_device" Args321 cpu_layout gpu_mesh 4 cpu_gpu_module
    = Done 22 m1 /\
    LowerOneToOneDTensorRecvToTFHostRecv sample_OpName sample_OpHash
      "_layout" sample_LocalType Args321 cpu_mesh gpu_layout 6 cpu_gpu_module
    = Done 21 m2 /\
    List.length (created_funcs cpu_gpu_module m1) = 2 /\
    List.length (created_funcs cpu_gpu_module m2) = 2.
Proof.
  eexists _, _. split; [lazy; reflexivity|]. split; [lazy; reflexivity|].
  destruct (branching_subprograms Args321 sample_OpName sample_OpHash
              "tf._custom_device" "_layout" sample_LocalType cpu_gpu_module
              (sample_module_wf _ _ _ _ _)) as [S R].
  specialize (S cpu_layout gpu_mesh 4 22).
  specialize (R cpu_mesh gpu_layout 6 21).
  lazy in S, R.
  destruct (S _ eq_refl) as (send & branches & case_op & _ & L1 & _).
  destruct (R _ eq_refl) as (recv & branches' & case_id & case_op' & _ & L2 & _).
  split; [exact L1|exact L2].
Defined.

(** Claim C8, as amended.  A one-to-one Send lowering that returns has erased
    the abstract Send if and only if the device type of the destination mesh
    is GPU; for every other destination the Send is still in the module,
    unchanged. *)
Theorem send_erased_iff_gpu :
  forall order OpName OpHash kCustomDeviceAttr send_layout recv_mesh
         dtensor_send m case_id m',
    wf_module m ->
    LowerOneToOneDTensorSendToTFHostSend OpName OpHash kCustomDeviceAttr order
      send_layout recv_mesh dtensor_send m = Done case_id m' ->
    (erased m' dtensor_send <-> device_type recv_mesh = "GPU"%string) /\
    (device_type recv_mesh <> "GPU"%string ->
     lookup_op m' dtensor_send = lookup_op m dtensor_send).
Proof.
  intros order OpName OpHash kC sl rm x m r m' W H.
  destruct (LowerOneToOneSend_Done _ _ _ _ _ _ _ _ _ W H)
    as (send & key & tl & branches & news & case_op & Ls & _ & _ & _ & _
        & _ & _ & _ & _ & _ & _ & _ & Er).
  destruct (String.eqb (device_type rm) "GPU") eqn:G.
  - apply String.eqb_eq in G. split; [tauto|congruence].
  - apply String.eqb_neq in G. split.
    + split; [|congruence]. unfold erased. congruence.
    + congruence.
Qed.

Lemma send_erased_iff_gpu_witness :
  exists m1 m2,
    LowerOneToOneDTensorSendToTFHostSend sample_OpName sample_OpHash
      "tf._custom_device" Args321 cpu_layout gpu_mesh 4 cpu_gpu_module
    = Done 22 m1 /\
    LowerOneToOneDTensorSendToTFHostSend sample_OpName sample_OpHash
      "tf._custom_device" Args321 cpu_layout tpu_mesh 4 cpu_tpu_module
    = Done 22 m2 /\
    erased m1 4 /\
    lookup_op m2 4 = lookup_op cpu_tpu_module 4.
Proof.
  eexists _, _. split; [lazy; reflexivity|]. split; [lazy; reflexivity|].
  pose proof (send_erased_iff_gpu Args321 sample_OpName sample_OpHash
                "tf._custom_device" cpu_layout gpu_mesh 4 cpu_gpu_module 22)
    as G.
  pose proof (send_erased_iff_gpu Args321 sample_OpName sample_OpHash
                "tf._custom_device" cpu_layout tpu_mesh 4 cpu_tpu_module 22)
    as T.
  assert (G' := fun m' => G m' (sample_module_wf _ _ _ _ _)).
  assert (T' := fun m' => T m' (sample_module_wf _ _ _ _ _)).
  clear G T. lazy in G', T'.
  split.
  - apply (proj1 (G' _ eq_refl)). reflexivity.
  - apply (proj2 (T' _ eq_refl)). discriminate.
Defined.

(** Claim C8 as stated fails both ways: a GPU destination is an accelerator
    and the Send is erased at once; a CPU destination is none and the Send
    stays. *)
Lemma send_erasure_not_by_accelerator :
  exists m1 m2,
    LowerOneToOneDTensorSendToTFHostSend sample_OpName sample_OpHash
      "tf._custom_device" Args321 cpu_layout gpu_mesh 4 cpu_gpu_module
    = Done 22 m1 /\
    is_accelerator gpu_mesh = true /\ erased m1 4 /\
    LowerOneToOneDTensorSendToTFHostSend sample_OpName sample_OpHash
      "tf._custom_device" Args321 cpu_layout cpu_mesh 4 cpu_module
    = Done 22 m2 /\
    is_accelerator cpu_mesh = false /\ ~ erased m2 4.
Proof.
  eexists _, _. split; [lazy; reflexivity|]. split; [reflexivity|].
  split; [reflexivity|]. split; [lazy; reflexivity|]. split; [reflexivity|].
  unfold erased. lazy. discriminate.
Qed.

(* ---------- truncation of the device pairs ---------- *)
Lemma combine_firstn_min {A B} (l1 : list A) (l2 : list B) :
  combine (firstn (Nat.min (List.length l1) (List.length l2)) l1)
          (firstn (Nat.min (List.length l1) (List.length l2)) l2)
  = combine l1 l2.
Proof.
  revert l2. induction l1 as [|a l1 IH]; intros [|b l2]; cbn; auto.
  now rewrite IH.
Qed.

(** Claim C10.  The one-to-one lowerings see of the two local-device lists
    only their first [min] entries: cutting both lists to the shorter length
    changes no outcome, and a lowering that returns has added exactly [min]
    functions and a [Case] operation of [min] branches, whatever the two
    lengths are. *)
Theorem device_pairs_truncated :
  forall order OpName OpHash kCustomDeviceAttr kLayoutAttr
         LocalTypeFromGlobalType send_layout recv_layout x m,
    let n := Nat.min (List.length (local_devices (mesh send_layout)))
                     (List.length (local_devices (mesh recv_layout))) in
    LowerOneToOneDTensorSendToTFHostSend OpName OpHash kCustomDeviceAttr order
      send_layout (mesh recv_layout) x m
    = LowerOneToOneDTensorSendToTFHostSend OpName OpHash kCustomDeviceAttr order
        (truncate_layout n send_layout) (truncate_devices n (mesh recv_layout))
        x m /\
    LowerOneToOneDTensorRecvToTFHostRecv OpName OpHash kLayoutAttr
      LocalTypeFromGlobalType order (mesh send_layout) recv_layout x m
    = LowerOneToOneDTensorRecvToTFHostRecv OpName OpHash kLayoutAttr
        LocalTypeFromGlobalType order (truncate_devices n (mesh send_layout))
        (truncate_layout n recv_layout) x m /\
    (wf_module m ->
     forall lowered m',
       LowerOneToOneDTensorSendToTFHostSend OpName OpHash kCustomDeviceAttr
         order send_layout (mesh recv_layout) x m = Done lowered m' \/
       LowerOneToOneDTensorRecvToTFHostRecv OpName OpHash kLayoutAttr
         LocalTypeFromGlobalType order (mesh send_layout) recv_layout x m
       = Done lowered m' ->
       List.length (created_funcs m m') = n /\
       exists case_id case_op branches,
         lookup_op m' case_id = Some case_op /\
         op_kind case_op = CaseOp branches false /\
         List.length branches = n).
Proof.
  intros order OpName OpHash kC kL LT sl rl x m n. splits.
  - unfold LowerOneToOneDTensorSendToTFHostSend.
    cbn [truncate_layout truncate_devices mesh local_devices device_type
         ToString].
    subst n. rewrite combine_firstn_min. reflexivity.
  - unfold LowerOneToOneDTensorRecvToTFHostRecv.
    cbn [truncate_layout truncate_devices mesh local_devices device_type
         ToString].
    subst n. rewrite combine_firstn_min. reflexivity.
  - intros W r m' [H|H].
    + destruct (LowerOneToOneSend_Done _ _ _ _ _ _ _ _ _ W H)
        as (send & key & tl & branches & news & case_op & _ & _ & _ & Len & Ef
            & Nm & Fa & _ & _ & _ & Lc & Kc & _).
      destruct (created_funcs_length _ _ _ W Ef Fa) as [CL _].
      rewrite length_combine in Len. fold n in Len. split.
      * rewrite CL, <- Len, <- Nm. now rewrite length_map.
      * exists r, case_op, branches. auto.
    + destruct (LowerOneToOneRecv_Done _ _ _ _ _ _ _ _ _ _ W H)
        as (recv & key & layout & branches & news & case_id & case_op & _ & _
            & _ & Len & Ef & Nm & Fa & _ & _ & _ & Lc & Kc & _).
      destruct (created_funcs_length _ _ _ W Ef Fa) as [CL _].
      rewrite length_combine in Len. fold n in Len. split.
      * rewrite CL, <- Len, <- Nm. now rewrite length_map.
      * exists case_id, case_op, branches. auto.
Qed.

Lemma device_pairs_truncated_witness :
  exists m',
    Nat.min (List.length (local_devices (mesh cpu_layout)))
            (List.length (local_devices (mesh tpu_layout))) = 2 /\
    List.length (local_devices (mesh tpu_layout)) = 3 /\
    LowerOneToOneDTensorSendToTFHostSend sample_OpName sample_OpHash
      "tf._custom_device" Args321 cpu_layout (mesh tpu_layout) 4 cpu_tpu_module
    = Done 22 m' /\
    List.length (created_funcs cpu_tpu_module m') = 2.
Proof.
  eexists. split; [reflexivity|]. split; [reflexivity|].
  split; [lazy; reflexivity|].
  pose proof (proj2 (proj2 (device_pairs_truncated Args321 sample_OpName
                sample_OpHash
                "tf._custom_device" "_layout" sample_LocalType
                cpu_layout tpu_layout 4 cpu_tpu_module))
                (sample_module_wf _ _ _ _ _) 22) as T.
  lazy in T.
  exact (proj1 (T _ (or_introl eq_refl))).
Defined.





Lemma substitute_other x r v :
  (forall i, v <> OpResult x i) -> substitute (OpResult x 0) (OpResult r 0) v = v.
Proof.
  intros H. unfold substitute. destruct v as [y i|f i]; cbn; auto.
  destruct (Nat.eqb y x) eqn:E; cbn; auto.
  apply Nat.eqb_eq in E. subst. now destruct (H i).
Qed.

Lemma ordinal_ops_no_cast {order} b loc table did n o :
  In o (ordinal_ops order b loc table did n false) ->
  is_cast o = false /\
  (forall k sd i rd, op_kind o <> _HostRecvOp k sd i rd).
Proof.
  unfold ordinal_ops.
  destruct order; cbn [arg_rank in_order app]; intros H;
    repeat (destruct H as [<-|H]; [split; [reflexivity|discriminate]|]);
    destruct H.
Qed.




(* ================================================================== *)
(** * Further properties of the lowerings *)

(* ---------- failures ---------- *)
Lemma bind_Fails {A B} (c : M A) (k : A -> M B) m s m' :
  bind c k m = Fails s m' ->
  c m = Fails s m' \/ exists a m1, c m = Done a m1 /\ k a m1 = Fails s m'.
Proof.
  unfold bind. destruct (c m) as [a m1|s1 m1|]; try discriminate.
  - intros H. right. now exists a, m1.
  - intros H. inversion H; subst. now left.
Qed.

Lemma bind_Crashes {A B} (c : M A) (k : A -> M B) m :
  c m = Crashes -> bind c k m = Crashes.
Proof. unfold bind. now intros ->. Qed.

Lemma bind_step {A B} (c : M A) (k : A -> M B) m a m1 :
  c m = Done a m1 -> bind c k m = k a m1.
Proof. unfold bind. now intros ->. Qed.

Lemma never_fails_bind {A B} (c : M A) (k : A -> M B) :
  never_fails c -> (forall a, never_fails (k a)) -> never_fails (bind c k).
Proof.
  intros Hc Hk m s m' H. apply bind_Fails in H as [H|(a & m1 & _ & H)].
  - now apply Hc in H.
  - now apply Hk in H.
Qed.

Lemma never_fails_ret {A} (a : A) : never_fails (ret a).
Proof. intros m s m'. discriminate. Qed.

Lemma never_fails_crash {A} : never_fails (@crash A).
Proof. intros m s m'. discriminate. Qed.

Lemma never_fails_nonnull {A} (o : option A) : never_fails (nonnull o).
Proof. destruct o; intros m s m'; discriminate. Qed.

Lemma never_fails_deref x : never_fails (deref x).
Proof. intros m. unfold deref. apply never_fails_nonnull. Qed.

Lemma never_fails_get : never_fails get.
Proof. intros m s m'. discriminate. Qed.

Lemma never_fails_create b loc k operands types :
  never_fails (create b loc k operands types).
Proof. intros m s m'. discriminate. Qed.

Lemma never_fails_erase x : never_fails (erase x).
Proof. intros m s m'. unfold erase. destruct (existsb _ _); discriminate. Qed.

Lemma never_fails_update_ops f : never_fails (update_ops f).
Proof. intros m s m'. discriminate. Qed.

Lemma never_fails_update_funcs f : never_fails (update_funcs f).
Proof. intros m s m'. discriminate. Qed.

Lemma never_fails_fresh_id : never_fails fresh_id.
Proof. intros m s m'. discriminate. Qed.

Lemma never_fails_getLoc v : never_fails (getLoc v).
Proof.
  intros m s m'. unfold getLoc.
  destruct v; [destruct (lookup_op m owner)|destruct (lookup_func m owner)];
    discriminate.
Qed.

Lemma never_fails_getType v : never_fails (getType v).
Proof.
  intros m s m'. unfold getType.
  destruct v; [destruct (lookup_op m owner)|destruct (lookup_func m owner)];
    try discriminate; apply never_fails_nonnull.
Qed.

Lemma never_fails_mapM {A B} (f : A -> M B) l :
  (forall a, never_fails (f a)) -> never_fails (mapM f l).
Proof.
  intros Hf. induction l as [|a l IH]; cbn [mapM].
  - apply never_fails_ret.
  - apply never_fails_bind; [apply Hf|]. intros b.
    apply never_fails_bind; [apply IH|]. intros bs. apply never_fails_ret.
Qed.

Lemma never_fails_getParentOfType_ClusterOp o :
  never_fails (getParentOfType_ClusterOp o).
Proof.
  intros m s m'. unfold getParentOfType_ClusterOp.
  destruct (op_block o); discriminate.
Qed.

Lemma never_fails_getParentOfType_FuncOp c :
  never_fails (getParentOfType_FuncOp c).
Proof.
  intros m s m'. unfold getParentOfType_FuncOp.
  destruct (cl_func c); discriminate.
Qed.

Lemma never_fails_GetBody_front c : never_fails (GetBody_front c).
Proof. intros m. unfold GetBody_front. apply never_fails_nonnull. Qed.

Lemma never_fails_setInsertionPointAfter x :
  never_fails (setInsertionPointAfter x).
Proof.
  unfold setInsertionPointAfter.
  apply never_fails_bind; [apply never_fails_deref|]. intros o.
  apply never_fails_bind; [apply never_fails_get|]. intros m.
  apply never_fails_ret.
Qed.

Lemma never_fails_DTensorSend_attrs o : never_fails (DTensorSend_attrs o).
Proof.
  intros m s m'. unfold DTensorSend_attrs. destruct (op_kind o); discriminate.
Qed.

Lemma never_fails_DTensorRecv_attrs o : never_fails (DTensorRecv_attrs o).
Proof.
  intros m s m'. unfold DTensorRecv_attrs. destruct (op_kind o); discriminate.
Qed.

Lemma never_fails_setArgAttr f i name value :
  never_fails (setArgAttr f i name value).
Proof.
  unfold setArgAttr.
  apply never_fails_bind; [apply never_fails_get|]. intros m.
  apply never_fails_bind; [apply never_fails_nonnull|]. intros fn.
  apply never_fails_bind; [apply never_fails_nonnull|]. intros old.
  apply never_fails_bind; [apply never_fails_nonnull|]. intros attrs.
  apply never_fails_update_funcs.
Qed.

Lemma never_fails_GetOrCreateCompilationKey op :
  never_fails (GetOrCreateCompilationKey op).
Proof.
  unfold GetOrCreateCompilationKey.
  apply never_fails_bind; [apply never_fails_deref|]. intros o.
  apply never_fails_bind; [apply never_fails_getParentOfType_ClusterOp|].
  intros [cluster|]; [|apply never_fails_crash].
  apply never_fails_bind; [apply never_fails_get|]. intros m.
  destruct (walk_program_keys _ _); [apply never_fails_ret|].
  apply never_fails_bind; [apply never_fails_GetBody_front|]. intros front.
  apply never_fails_bind; [apply never_fails_create|]. intros k.
  apply never_fails_ret.
Qed.

Lemma never_fails_call_args {A B C} order (a : M A) (b : M B) (c : M C) :
  never_fails a -> never_fails b -> never_fails c ->
  never_fails (call_args order a b c).
Proof.
  intros Ha Hb Hc. destruct order; cbn [call_args];
    repeat first [ apply never_fails_ret | assumption
                 | (apply never_fails_bind; [|intros ?]) ].
Qed.

Ltac nofail :=
  repeat first
    [ apply never_fails_ret | apply never_fails_crash
    | apply never_fails_nonnull | apply never_fails_deref
    | apply never_fails_get | apply never_fails_create
    | apply never_fails_erase | apply never_fails_update_ops
    | apply never_fails_update_funcs | apply never_fails_fresh_id
    | apply never_fails_getLoc | apply never_fails_getType
    | apply never_fails_getParentOfType_ClusterOp
    | apply never_fails_getParentOfType_FuncOp
    | apply never_fails_GetBody_front
    | apply never_fails_setInsertionPointAfter
    | apply never_fails_DTensorSend_attrs
    | apply never_fails_DTensorRecv_attrs
    | apply never_fails_setArgAttr
    | apply never_fails_GetOrCreateCompilationKey
    | apply never_fails_call_args
    | (apply never_fails_bind; [|intros ?]) ].

(** an outcome that is neither a value nor a status is a crash *)
Lemma crashes_if {A} (c : M A) m :
  never_fails c -> (forall a m', c m <> Done a m') -> c m = Crashes.
Proof.
  intros Hf Hd. destruct (c m) as [a m'|s m'|] eqn:E; auto.
  - exfalso. now apply (Hd a m').
  - exfalso. now apply (Hf m s m').
Qed.

(* ---------- where the builder puts an operation ---------- *)
Lemma split_before_at a o b :
  NoDup (map op_id (a ++ o :: b)) ->
  split_before (op_id o) (a ++ o :: b) = (a, o :: b).
Proof.
  induction a as [|p a IH]; cbn; intros ND.
  - now rewrite Nat.eqb_refl.
  - inversion ND as [|? ? Hn ND']; subst.
    destruct (Nat.eqb (op_id p) (op_id o)) eqn:E.
    + apply Nat.eqb_eq in E. exfalso. apply Hn. rewrite E.
      rewrite map_app, in_app_iff. right. now left.
    + now rewrite IH.
Qed.

Lemma split_before_absent y l :
  (forall o, In o l -> op_id o <> y) -> split_before y l = (l, []).
Proof.
  induction l as [|p l IH]; cbn; auto. intros H.
  destruct (Nat.eqb (op_id p) y) eqn:E.
  - apply Nat.eqb_eq in E. exfalso. eapply H; eauto.
  - rewrite IH; auto.
Qed.

Lemma place_at a o b n :
  NoDup (map op_id (a ++ o :: b)) ->
  place (Some (op_id o)) n (a ++ o :: b) = a ++ n :: o :: b.
Proof. intros ND. unfold place. now rewrite split_before_at. Qed.

Lemma next_op_at a o b :
  NoDup (map op_id (a ++ o :: b)) ->
  next_op (op_id o) (a ++ o :: b) = option_map op_id (hd_error b).
Proof.
  induction a as [|p a IH]; cbn; intros ND.
  - now rewrite Nat.eqb_refl.
  - inversion ND as [|? ? Hn ND']; subst.
    destruct (Nat.eqb (op_id p) (op_id o)) eqn:E; auto.
    apply Nat.eqb_eq in E. exfalso. apply Hn. rewrite E.
    rewrite map_app, in_app_iff. right. now left.
Qed.

Lemma lookup_split m x o :
  lookup_op m x = Some o ->
  exists a b, mod_ops m = a ++ o :: b.
Proof.
  intros L. apply lookup_In in L as [L _]. now apply in_split.
Qed.

(** [create] with a builder set before the operation [o] *)
Lemma create_before bld loc k operands types m r m' a o b :
  wf_module m ->
  mod_ops m = a ++ o :: b ->
  ip_before bld = Some (op_id o) ->
  create bld loc k operands types m = Done r m' ->
  mod_ops m' = (a ++ [new_op bld loc k operands types m]) ++ o :: b.
Proof.
  intros (ND & _) E P H. apply create_Done in H as (_ & -> & _).
  rewrite P, E. rewrite E in ND. rewrite place_at by exact ND.
  now rewrite <- app_assoc.
Qed.

(** [create] with a builder at the end of the program order *)
Lemma create_at_end bld loc k operands types m r m' :
  ip_before bld = None ->
  create bld loc k operands types m = Done r m' ->
  mod_ops m' = mod_ops m ++ [new_op bld loc k operands types m].
Proof.
  intros P H. apply create_Done in H as (_ & -> & _). now rewrite P.
Qed.

Lemma filter_app_mid {A} (f : A -> bool) a o b :
  f o = true -> filter f (a ++ o :: b) = filter f a ++ o :: filter f b.
Proof. intros H. rewrite filter_app. cbn. now rewrite H. Qed.

Lemma filter_all {A} (f : A -> bool) l :
  (forall x, In x l -> f x = true) -> filter f l = l.
Proof.
  induction l as [|a l IH]; cbn; auto. intros H.
  rewrite (H a) by auto. f_equal. apply IH. auto.
Qed.

(* ---------- the table of ordinals, out of range ---------- *)
Lemma set_nth_None {A} i (a : A) l :
  List.length l <= i -> set_nth i a l = None.
Proof.
  revert i. induction l as [|b l IH]; intros i Hi.
  - now destruct i.
  - destruct i as [|i]; cbn in *; [lia|]. rewrite IH; auto. lia.
Qed.

Lemma set_nth_length {A} i (a : A) l l' :
  set_nth i a l = Some l' -> List.length l' = List.length l.
Proof.
  revert i l'. induction l as [|b l IH]; intros i l'.
  { destruct i; discriminate. }
  destruct i as [|i]; cbn.
  - intros H; inversion H; subst; reflexivity.
  - destruct (set_nth i a l) as [t|] eqn:E; cbn; [|discriminate].
    intros H; inversion H; subst; cbn. f_equal. eapply IH; eauto.
Qed.

Lemma store_out_of_range id i table :
  (id < 0 \/ Z.of_nat (List.length table) <= id)%Z -> store id i table = None.
Proof.
  intros H. unfold store. destruct (0 <=? id)%Z eqn:E; auto.
  apply Z.leb_le in E. apply set_nth_None. lia.
Qed.

Lemma store_length id i table table' :
  store id i table = Some table' -> List.length table' = List.length table.
Proof.
  unfold store. destruct (0 <=? id)%Z; [|discriminate]. apply set_nth_length.
Qed.

Lemma fill_ordinals_out_of_range ids :
  forall k table id,
    In id ids ->
    (id < 0 \/ Z.of_nat (List.length table) <= id)%Z ->
    fill_ordinals ids k table = None.
Proof.
  induction ids as [|a ids IH]; intros k table id Hin R; [destruct Hin|].
  cbn. destruct (store a (Z.of_nat k) table) as [t|] eqn:E; auto.
  destruct Hin as [->|Hin].
  - now rewrite store_out_of_range in E.
  - apply (IH _ _ id Hin). now rewrite (store_length _ _ _ _ E).
Qed.

(** Property X1.
    [GetDeviceOrdinal] indexes its table with every local device id before
    anything else: an id that is negative or not below the device count of
    the mesh is an access out of range, whatever the function and the builder
    are. *)
Theorem GetDeviceOrdinal_id_out_of_range :
  forall order mesh loc function builder return_int64_type m id,
    In id (local_device_ids mesh) ->
    (id < 0 \/ num_devices mesh <= id)%Z ->
    GetDeviceOrdinal order mesh loc function builder return_int64_type m
    = Crashes.
Proof.
  intros order mesh loc function builder r64 m id Hin R.
  unfold GetDeviceOrdinal. apply bind_Crashes.
  unfold device_id_to_ordinal.
  rewrite (fill_ordinals_out_of_range _ _ _ id Hin); [reflexivity|].
  rewrite repeat_length. lia.
Qed.

Lemma GetDeviceOrdinal_id_out_of_range_witness :
  GetDeviceOrdinal Args321 overflowing_mesh "loc"%string (Some 0)
    {| ip_block := InModule; ip_before := None |} false cpu_module = Crashes.
Proof.
  apply (GetDeviceOrdinal_id_out_of_range Args321 overflowing_mesh _ _ _ _ _
           5%Z).
  - simpl. auto.
  - simpl. lia.
Defined.

Lemma GetDeviceOrdinal_Fails_inv :
  forall order mesh loc function builder return_int64_type m s m',
    GetDeviceOrdinal order mesh loc function builder return_int64_type m
    = Fails s m' ->
    m' = m /\ DeviceId function m = Fails s m.
Proof.
  intros order mesh loc function builder r64 m s m' H.
  unfold GetDeviceOrdinal in H.
  apply bind_Fails in H as [H|(table & m1 & E & H)].
  { now apply never_fails_nonnull in H. }
  apply nonnull_Done in E as [_ ->].
  apply bind_Fails in H as [H|(device_id & m1 & E & H)].
  { pose proof (DeviceId_Fails _ _ _ _ H) as [-> _]. auto. }
  exfalso. revert H.
  unfold IntConst, ReshapeScalarToSizeType, ReshapeSizeTypeToScalar.
  apply never_fails_bind; [nofail|].
  intros [[input begin] size]. nofail. destruct r64; nofail.
Qed.

(** Property X2.
    The one status [GetDeviceOrdinal] reports is that of the device-id
    accessor, and it reports it before it has built anything: the module is
    the one it was given. *)
Theorem GetDeviceOrdinal_failure_builds_nothing :
  forall order mesh loc function builder return_int64_type m s m',
    GetDeviceOrdinal order mesh loc function builder return_int64_type m
    = Fails s m' ->
    m' = m /\ DeviceId function m = Fails s m.
Proof. exact GetDeviceOrdinal_Fails_inv. Qed.

Lemma GetDeviceOrdinal_failure_builds_nothing_witness :
  exists s,
    GetDeviceOrdinal Args321 cpu_mesh "loc"%string None
      {| ip_block := InModule; ip_before := None |} false cpu_module
    = Fails s cpu_module /\
    DeviceId None cpu_module = Fails s cpu_module.
Proof.
  eexists. split; [lazy; reflexivity|].
  apply (GetDeviceOrdinal_failure_builds_nothing Args321 cpu_mesh
           "loc"%string None
           {| ip_block := InModule; ip_before := None |} false cpu_module
           _ cpu_module).
  lazy. reflexivity.
Defined.

(* ---------- the operations of the ordinal, in place ---------- *)
Lemma create_before_spec bld loc k operands types m r m' a o b :
  wf_module m ->
  mod_ops m = a ++ o :: b ->
  ip_before bld = Some (op_id o) ->
  create bld loc k operands types m = Done r m' ->
  wf_module m' /\ r = next_id m /\ next_id m' = S (next_id m) /\
  mod_funcs m' = mod_funcs m /\ mod_clusters m' = mod_clusters m /\
  mod_ops m'
  = (a ++ [mkOp (next_id m) loc k operands types [] (ip_block bld)])
    ++ o :: b.
Proof.
  intros W E P H.
  pose proof (create_before _ _ _ _ _ _ _ _ _ _ _ W E P H) as Eo.
  apply (create_spec _ _ _ _ _ _ _ _ W) in H
    as (W' & Er & En & Ef & Ec & _).
  splits; auto.
Qed.

Lemma GetDeviceOrdinal_emits_aux :
  forall order mesh loc function builder return_int64_type m ordinal m' before
         at_op after,
    wf_module m ->
    ip_before builder = Some (op_id at_op) ->
    mod_ops m = before ++ at_op :: after ->
    GetDeviceOrdinal order mesh loc function builder return_int64_type m
    = Done ordinal m' ->
    exists table device_id,
      device_id_to_ordinal mesh = Some table /\
      DeviceId function m = Done device_id m /\
      mod_ops m'
      = before
        ++ ordinal_ops order builder loc table device_id (next_id m)
             return_int64_type
        ++ at_op :: after /\
      ordinal
      = OpResult ((if return_int64_type then 5 else 4) + next_id m) 0 /\
      mod_funcs m' = mod_funcs m /\ mod_clusters m' = mod_clusters m.
Proof.
  intros order mesh loc function builder r64 m ordinal m' before at_op after
    W P Eo H.
  unfold GetDeviceOrdinal in H.
  step H. apply nonnull_Done in E as [Et ->]. rename a into table.
  step H. pose proof (DeviceId_Done _ _ _ _ E) as [-> _].
  rename a into device_id, E into Ed.
  apply bind_Done in H as (args & m3 & EA & H).
  apply call_args_Done in EA as (input & begin & size & -> & EA).
  unfold IntConst, ReshapeScalarToSizeType, ReshapeSizeTypeToScalar in *.
  unfold EffectivelyScalarR1Type in *.
  exists table, device_id. split; [exact Et|]. split; [exact Ed|].
  destruct EA as (m1 & m2 & EA);
  destruct order; destruct EA as (E1 & E2 & E3);
    step E1; apply ret_Done in E1 as [-> ->];
    apply (create_before_spec _ _ _ _ _ _ _ _ _ _ _ W Eo P) in E
      as (W0 & -> & N0 & F0 & C0 & O0);
    step E2; apply ret_Done in E2 as [-> ->];
    apply (create_before_spec _ _ _ _ _ _ _ _ _ _ _ W0 O0 P) in E
      as (W1 & -> & N1 & F1 & C1 & O1);
    step E3; apply ret_Done in E3 as [-> ->];
    apply (create_before_spec _ _ _ _ _ _ _ _ _ _ _ W1 O1 P) in E
      as (W2 & -> & N2 & F2 & C2 & O2);
    step H;
    apply (create_before_spec _ _ _ _ _ _ _ _ _ _ _ W2 O2 P) in E
      as (W3 & -> & N3 & F3 & C3 & O3);
    step H; step E; apply ret_Done in E as [-> ->];
    apply (create_before_spec _ _ _ _ _ _ _ _ _ _ _ W3 O3 P) in E0
      as (W4 & -> & N4 & F4 & C4 & O4);
    (destruct r64;
     [ step H; apply ret_Done in H as [-> ->];
       apply (create_before_spec _ _ _ _ _ _ _ _ _ _ _ W4 O4 P) in E
         as (W5 & -> & N5 & F5 & C5 & O5);
       rewrite N4, N3, N2, N1, N0 in *;
       (split; [|split; [reflexivity|split; congruence]]);
       rewrite O5
     | apply ret_Done in H as [-> ->];
       rewrite N3, N2, N1, N0 in *;
       (split; [|split; [reflexivity|split; congruence]]);
       rewrite O4 ]);
    unfold ordinal_ops; cbn [arg_rank in_order List.length Z.of_nat Nat.add];
    rewrite <- !app_assoc; reflexivity.
Qed.

(** Property X3.
    [GetDeviceOrdinal] with a builder set before an operation of the module
    puts its five operations (six with the cast to 64 bits) in front of that
    operation, as one block: the three operands of the slice (constant
    table, reshaped device id, constant size) in whichever of the six orders
    the compiler evaluates them, then the slice, the reshape to a scalar and
    the cast; the rest of the module is as it was. *)
Theorem GetDeviceOrdinal_emits :
  forall order mesh loc function builder return_int64_type m ordinal m' before
         at_op after,
    wf_module m ->
    ip_before builder = Some (op_id at_op) ->
    mod_ops m = before ++ at_op :: after ->
    GetDeviceOrdinal order mesh loc function builder return_int64_type m
    = Done ordinal m' ->
    exists table device_id,
      device_id_to_ordinal mesh = Some table /\
      DeviceId function m = Done device_id m /\
      mod_ops m'
      = before
        ++ ordinal_ops order builder loc table device_id (next_id m)
             return_int64_type
        ++ at_op :: after /\
      ordinal
      = OpResult ((if return_int64_type then 5 else 4) + next_id m) 0 /\
      mod_funcs m' = mod_funcs m /\ mod_clusters m' = mod_clusters m.
Proof. exact GetDeviceOrdinal_emits_aux. Qed.

Lemma GetDeviceOrdinal_emits_witness :
  exists ordinal m',
    GetDeviceOrdinal Args321 cpu_mesh "loc"%string (Some 0)
      {| ip_block := InCluster 1; ip_before := Some 4 |} true cpu_module
    = Done ordinal m' /\
    map op_id (mod_ops m') = [3; 9; 10; 11; 12; 13; 14; 4; 5; 6; 7; 8] /\
    map op_kind (firstn 6 (skipn 1 (mod_ops m')))
    = [ConstOp [1%Z]; ReshapeOp; ConstOp [0%Z; 0%Z; 0%Z; 1%Z]; SliceOp;
       ReshapeOp; CastOp].
Proof.
  eexists _, _. split; [lazy; reflexivity|].
  pose proof (fun ordinal m' =>
    GetDeviceOrdinal_emits Args321 cpu_mesh "loc"%string (Some 0)
      {| ip_block := InCluster 1; ip_before := Some 4 |} true cpu_module
      ordinal m'
      (firstn 1 (mod_ops cpu_module))
      (mkOp 4 "send"%string (DTensorSend "t1"%string cpu_layout)
         [OpResult 3 0] [] [] (InCluster 1))
      (skipn 2 (mod_ops cpu_module))
      cpu_module_wf eq_refl eq_refl) as T.
  lazy in T.
  destruct (T _ _ eq_refl) as (table & device_id & Et & _ & Eo & _).
  injection Et as <-.
  rewrite Eo. split; reflexivity.
Defined.

(* ---------- what the ordinal evaluates to ---------- *)
Lemma ordinal_ops_value {order} m' builder loc table f n return_int64_type :
  (forall o,
      In o (ordinal_ops order builder loc table (BlockArgument f 0) n
              return_int64_type) ->
      lookup_op m' (op_id o) = Some o) ->
  computes_ordinal m' table (BlockArgument f 0)
    (OpResult ((if return_int64_type then 5 else 4) + n) 0)
    (if return_int64_type then 64 else 32).
Proof.
  intros Lk.
  apply ordinal_ops_parts in Lk
    as (a & b & c & _ & L0 & L1 & L2 & L3 & L4 & L5).
  cbn [op_id] in L0, L1, L2, L3, L4, L5.
  assert (Slice : forall k env d,
    (0 <= d < Z.of_nat (List.length table))%Z ->
    env (BlockArgument f 0) = Some (scalar_i32 d) ->
    eval (S (S (S k))) m' env (OpResult (4 + n) 0)
    = Some (mkTensor (RankedTensorType [] (IntegerType 32))
              [nth (Z.to_nat d) table 0%Z])).
  { intros k env d R He.
    rewrite eval_S, L4. cbn [op_operands map].
    rewrite eval_S, L3. cbn [op_operands map].
    rewrite !eval_S, L0, L1, L2. cbn [op_operands map].
    rewrite eval_arg, He.
    cbn -[Z.to_nat firstn skipn Z.leb Z.add].
    replace ((0 <=? d)%Z) with true by (symmetry; apply Z.leb_le; lia).
    replace ((0 <=? 1)%Z) with true by reflexivity.
    replace ((d + 1 <=? Z.of_nat (List.length table))%Z) with true
      by (symmetry; apply Z.leb_le; lia).
    cbn -[Z.to_nat firstn skipn Z.leb Z.add].
    change (Z.to_nat 1) with 1.
    rewrite firstn_1_skipn by lia. reflexivity. }
  destruct return_int64_type.
  - specialize (L5 eq_refl). split.
    + cbn [getType]. rewrite L5. reflexivity.
    + intros env d R He. rewrite eval_S, L5. cbn [op_operands map].
      rewrite (Slice 0 env d R He). reflexivity.
  - split.
    + cbn [getType]. rewrite L4. reflexivity.
    + intros env d R He. apply (Slice 1 env d R He).
Qed.

Lemma GetDeviceOrdinal_reads_table {order} mesh loc function builder
    return_int64_type m ordinal m' :
  wf_module m ->
  GetDeviceOrdinal order mesh loc function builder return_int64_type m
  = Done ordinal m' ->
  exists table device_id,
    device_id_to_ordinal mesh = Some table /\
    DeviceId function m = Done device_id m /\
    forall env d,
      (0 <= d < Z.of_nat (List.length table))%Z ->
      env device_id = Some (scalar_i32 d) ->
      eval 4 m' env ordinal
      = Some (mkTensor
                (RankedTensorType []
                   (IntegerType (if return_int64_type then 64 else 32)))
                [nth (Z.to_nat d) table 0%Z]).
Proof.
  intros W G.
  destruct (GetDeviceOrdinal_Done _ _ _ _ _ _ _ _ W G)
    as (table & did & Et & Ed & W' & _ & _ & _ & -> & _ & Lk & _).
  exists table, did. split; [exact Et|]. split; [exact Ed|].
  pose proof (DeviceId_Done _ _ _ _ Ed) as (_ & f & _ & ->).
  exact (proj2 (ordinal_ops_value _ _ _ _ _ _ _ Lk)).
Qed.

(** Property X4.
    The table of ordinals starts as zeros and only the local device ids are
    filled in: on a device of the mesh that is not local the value
    [GetDeviceOrdinal] returns evaluates to 0, the ordinal of the first local
    device. *)
Theorem GetDeviceOrdinal_not_local :
  forall order mesh loc function builder return_int64_type m ordinal m',
    wf_module m ->
    mesh_consistent mesh ->
    GetDeviceOrdinal order mesh loc function builder return_int64_type m
    = Done ordinal m' ->
    exists device_id,
      DeviceId function m = Done device_id m /\
      forall env d,
        (0 <= d < num_devices mesh)%Z ->
        ~ In d (local_device_ids mesh) ->
        env device_id = Some (scalar_i32 d) ->
        eval 4 m' env ordinal
        = Some (mkTensor
                  (RankedTensorType []
                     (IntegerType (if return_int64_type then 64 else 32)))
                  [0%Z]).
Proof.
  intros order mesh loc function builder r64 m ordinal m' W MC G.
  destruct (GetDeviceOrdinal_reads_table _ _ _ _ _ _ _ _ W G)
    as (table & did & Et & Ed & Ev).
  destruct (device_id_to_ordinal_spec mesh MC) as (table' & Et' & Len & _ & Z0).
  rewrite Et in Et'. inversion Et'; subst table'.
  exists did. split; [exact Ed|].
  intros env d R Hd He. rewrite (Ev env d); [|lia|exact He].
  rewrite Z0; auto. lia.
Qed.

Lemma GetDeviceOrdinal_not_local_witness :
  exists ordinal m',
    GetDeviceOrdinal Args321 cpu_mesh "loc"%string (Some 0)
      {| ip_block := InCluster 1; ip_before := Some 4 |} false cpu_module
    = Done ordinal m' /\
    eval 4 m' (fun _ => Some (scalar_i32 1)) ordinal
    = Some (mkTensor (RankedTensorType [] (IntegerType 32)) [0%Z]).
Proof.
  eexists _, _. split; [lazy; reflexivity|].
  match goal with
  | |- eval 4 ?m' _ ?o = _ =>
      assert (G : GetDeviceOrdinal Args321 cpu_mesh "loc"%string (Some 0)
                    {| ip_block := InCluster 1; ip_before := Some 4 |} false
                    cpu_module = Done o m') by (lazy; reflexivity);
      destruct (GetDeviceOrdinal_not_local Args321 _ _ _ _ _ _ _ _ cpu_module_wf
                  cpu_mesh_consistent G) as (device_id & Ed & Ev)
  end.
  apply (Ev (fun _ => Some (scalar_i32 1)) 1%Z).
  - simpl. lia.
  - simpl. intros [H|[H|[]]]; discriminate.
  - reflexivity.
Defined.

(** Property X5.
    [cluster.walk] assigns the key at every placeholder it visits: of the
    placeholders of the cluster the one that comes last in program order is
    returned, placeholders of other clusters are not looked at, and the
    module is left as it is. *)
Theorem compilation_key_last_placeholder :
  forall m op o c cl earlier p,
    lookup_op m op = Some o ->
    op_block o = InCluster c ->
    lookup_cluster m c = Some cl ->
    key_ops c (mod_ops m) = earlier ++ [p] ->
    GetOrCreateCompilationKey op m = Done (OpResult (op_id p) 0) m.
Proof.
  intros m op o c cl earlier p L B Lc K.
  unfold GetOrCreateCompilationKey.
  rewrite (bind_step _ _ m o m) by (unfold deref; now rewrite L).
  rewrite (bind_step _ _ m (Some cl) m)
    by (unfold getParentOfType_ClusterOp; now rewrite B, Lc).
  rewrite (bind_step _ _ m m m) by reflexivity.
  rewrite (lookup_cluster_id _ _ _ Lc), walk_program_keys_last, K.
  rewrite rev_app_distr. reflexivity.
Qed.

Lemma compilation_key_last_placeholder_witness :
  GetOrCreateCompilationKey 4 keyed_module = Done (OpResult 10 0) keyed_module.
Proof.
  exact (compilation_key_last_placeholder keyed_module 4
           (mkOp 4 "send"%string (DTensorSend "t1"%string tpu_layout)
              [OpResult 3 0] [] [] (InCluster 1))
           1 (mkCluster 1 "c1"%string (OkValue (Some cpu_mesh)) (Some 0))
           [mkOp 9 "key1"%string _TPUCompileMlirPlaceholderProgramKeyOp []
              [RankedTensorType [3%Z] StringType] [] (InCluster 1)]
           (mkOp 10 "key2"%string _TPUCompileMlirPlaceholderProgramKeyOp []
              [RankedTensorType [3%Z] StringType] [] (InCluster 1))
           eq_refl eq_refl eq_refl eq_refl).
Defined.

(* ---------- the host lowerings report no status ---------- *)
Lemma never_fails_send_to_each b v send key sds rds :
  forall last, never_fails (send_to_each b v send key sds rds last).
Proof.
  induction rds as [|rd rds IH]; intros last; cbn [send_to_each].
  - nofail.
  - unfold DTensorSend_input. nofail. apply IH.
Qed.

Lemma never_fails_recv_at_each b loc ty key sds rds :
  forall last, never_fails (recv_at_each b loc ty key sds rds last).
Proof.
  induction rds as [|rd rds IH]; intros last; cbn [recv_at_each].
  - nofail.
  - nofail. apply IH.
Qed.

Lemma never_fails_LowerDTensorSendToTFOp L v x :
  never_fails (LowerDTensorSendToTFOp L v x).
Proof. unfold LowerDTensorSendToTFOp. nofail. destruct a0. nofail. Qed.

Lemma never_fails_LowerDTensorSendFromCPUToTFOp L v x :
  never_fails (LowerDTensorSendFromCPUToTFOp L v x).
Proof.
  unfold LowerDTensorSendFromCPUToTFOp. nofail. destruct a0. nofail.
  apply never_fails_send_to_each.
Qed.

Lemma never_fails_LowerDTensorRecvToTFOp sm x ty :
  never_fails (LowerDTensorRecvToTFOp sm x ty).
Proof. unfold LowerDTensorRecvToTFOp. nofail. destruct a0. nofail. Qed.

Lemma never_fails_LowerDTensorRecvFromCPUToTFOp sm x :
  never_fails (LowerDTensorRecvFromCPUToTFOp sm x).
Proof.
  unfold LowerDTensorRecvFromCPUToTFOp, DTensorRecv_getType,
    Operation_replaceAllUsesWith.
  nofail. destruct a0. nofail.
  apply never_fails_recv_at_each.
Qed.

(** Property X6.
    The four lowerings to host transfer ops are declared to return
    [StatusOr] and never return a status: whatever goes wrong in them is a
    crash. *)
Theorem host_lowerings_report_no_status :
  forall m s m',
    (forall L v x, LowerDTensorSendToTFOp L v x m <> Fails s m') /\
    (forall sm x ty, LowerDTensorRecvToTFOp sm x ty m <> Fails s m') /\
    (forall L v x, LowerDTensorSendFromCPUToTFOp L v x m <> Fails s m') /\
    (forall sm x, LowerDTensorRecvFromCPUToTFOp sm x m <> Fails s m').
Proof.
  intros m s m'. splits; intros.
  - apply never_fails_LowerDTensorSendToTFOp.
  - apply never_fails_LowerDTensorRecvToTFOp.
  - apply never_fails_LowerDTensorSendFromCPUToTFOp.
  - apply never_fails_LowerDTensorRecvFromCPUToTFOp.
Qed.

(** Property X7.
    A value that is a function argument has no defining op, and both host
    send lowerings set their insertion point after the defining op of the
    value sent: they crash on such a value, whatever the module is. *)
Theorem host_send_of_argument_crashes :
  forall L f i x m,
    LowerDTensorSendToTFOp L (BlockArgument f i) x m = Crashes /\
    LowerDTensorSendFromCPUToTFOp L (BlockArgument f i) x m = Crashes.
Proof.
  intros L f i x m. split.
  - apply crashes_if; [apply never_fails_LowerDTensorSendToTFOp|].
    intros r m' H. unfold LowerDTensorSendToTFOp in H.
    step H. step H. destruct a0. step H.
    apply nonnull_Done in E1 as [E1 _]. discriminate.
  - apply crashes_if; [apply never_fails_LowerDTensorSendFromCPUToTFOp|].
    intros r m' H. unfold LowerDTensorSendFromCPUToTFOp in H.
    step H. step H. destruct a0. step H.
    apply nonnull_Done in E1 as [E1 _]. discriminate.
Qed.

(* ---------- meshes without local devices ---------- *)
Lemma send_to_each_no_sender b v send key rds last m res m' :
  send_to_each b v send key [] rds last m = Done res m' -> rds = [].
Proof.
  destruct rds as [|rd rds]; auto. cbn [send_to_each]. intros H.
  step H. step H. step H. apply nonnull_Done in E1 as [E1 _]. discriminate.
Qed.

Lemma send_to_each_nil b v send key sds m res m' :
  send_to_each b v send key sds [] None m = Done res m' -> res = None.
Proof. cbn. intros H. apply ret_Done in H as [-> _]. reflexivity. Qed.

Lemma recv_at_each_no_sender b loc ty key rds last m res m' :
  recv_at_each b loc ty key [] rds last m = Done res m' -> rds = [].
Proof.
  destruct rds as [|rd rds]; auto. cbn [recv_at_each]. intros H.
  step H. apply nonnull_Done in E as [E _]. discriminate.
Qed.

Lemma LowerDTensorSendFromCPUToTFOp_devices L v x m r m' :
  LowerDTensorSendFromCPUToTFOp L v x m = Done r m' ->
  exists send key tl,
    lookup_op m x = Some send /\ op_kind send = DTensorSend key tl /\
    (local_devices (mesh tl) <> [] -> local_devices (mesh L) <> []).
Proof.
  intros H. unfold LowerDTensorSendFromCPUToTFOp in H.
  step H. apply deref_Done in E as [Ls ->]. rename a into send.
  step H. destruct a as [key tl].
  apply DTensorSend_attrs_Done in E as [K ->].
  step H. apply nonnull_Done in E as [_ ->].
  step H. apply setInsertionPointAfter_Done in E as [-> _].
  step H. step H.
  exists send, key, tl. splits; auto.
  intros R S. rewrite S in E. apply send_to_each_no_sender in E. auto.
Qed.

Lemma LowerDTensorRecvFromCPUToTFOp_devices sm x m r m' :
  LowerDTensorRecvFromCPUToTFOp sm x m = Done r m' ->
  local_devices sm <> [] /\
  exists recv key rl,
    lookup_op m x = Some recv /\ op_kind recv = DTensorRecv key rl /\
    local_devices (mesh rl) <> [].
Proof.
  intros H. unfold LowerDTensorRecvFromCPUToTFOp in H.
  step H. apply deref_Done in E as [Ls ->]. rename a into recv.
  step H. destruct a as [key rl].
  apply DTensorRecv_attrs_Done in E as [K ->].
  step H. apply getParentOfType_ClusterOp_Done in E as [-> _].
  step H. apply nonnull_Done in E as [_ ->].
  step H. apply GetBody_front_Done in E as ->.
  step H. apply nonnull_Done in E as [_ ->].
  step H. step H. apply nonnull_Done in E0 as [-> _].
  assert (R : local_devices (mesh rl) <> []).
  { intros R. rewrite R in E. cbn in E. apply ret_Done in E as [E _].
    discriminate. }
  split.
  - intros S. rewrite S in E. apply recv_at_each_no_sender in E. auto.
  - exists recv, key, rl. auto.
Qed.

Lemma LowerDTensorSendToTFOp_devices L v x m r m' :
  LowerDTensorSendToTFOp L v x m = Done r m' ->
  local_devices (mesh L) <> [] /\
  exists send key tl,
    lookup_op m x = Some send /\ op_kind send = DTensorSend key tl /\
    local_devices (mesh tl) <> [].
Proof.
  intros H. unfold LowerDTensorSendToTFOp in H.
  step H. apply deref_Done in E as [Ls ->]. rename a into send.
  step H. destruct a as [key tl].
  apply DTensorSend_attrs_Done in E as [K ->].
  step H. apply nonnull_Done in E as [_ ->].
  step H. apply setInsertionPointAfter_Done in E as [-> _].
  step H. apply getLoc_Done in E as ->.
  step H. apply nonnull_Done in E as [Sd ->].
  step H. apply nonnull_Done in E as [Rd ->].
  split.
  - intros S. rewrite S in Sd. discriminate.
  - exists send, key, tl. splits; auto. intros R. rewrite R in Rd.
    discriminate.
Qed.

Lemma LowerDTensorRecvToTFOp_devices sm x ty m r m' :
  LowerDTensorRecvToTFOp sm x ty m = Done r m' ->
  local_devices sm <> [] /\
  exists recv key rl,
    lookup_op m x = Some recv /\ op_kind recv = DTensorRecv key rl /\
    local_devices (mesh rl) <> [] /\
    exists c, op_block recv = InCluster c.
Proof.
  intros H. unfold LowerDTensorRecvToTFOp in H.
  step H. apply deref_Done in E as [Ls ->]. rename a into recv.
  step H. destruct a as [key rl].
  apply DTensorRecv_attrs_Done in E as [K ->].
  step H. apply getParentOfType_ClusterOp_Done in E as [-> Cl].
  step H. apply nonnull_Done in E as [-> ->].
  step H. apply GetBody_front_Done in E as ->.
  step H. apply nonnull_Done in E as [Sd ->].
  step H. apply nonnull_Done in E as [Rd ->].
  split.
  - intros S. rewrite S in Sd. discriminate.
  - exists recv, key, rl. splits; eauto. intros R. rewrite R in Rd.
    discriminate.
Qed.

(** Property X8.
    The host lowerings read element 0 of the local device names without a
    check.  The two host-to-host lowerings read it of the sending mesh and of
    the mesh of the layout the abstract op carries: they crash when either
    has no local device.  The two fan-out lowerings read it of the sending
    mesh once per receiving device: they crash when the sending mesh has no
    local device and the receiving one has some. *)
Theorem host_lowerings_need_devices :
  forall m x,
    (forall L v,
        local_devices (mesh L) = [] ->
        LowerDTensorSendToTFOp L v x m = Crashes) /\
    (forall sm ty,
        local_devices sm = [] ->
        LowerDTensorRecvToTFOp sm x ty m = Crashes) /\
    (forall o key layout,
        lookup_op m x = Some o ->
        (op_kind o = DTensorSend key layout ->
         (local_devices (mesh layout) = [] ->
          forall L v, LowerDTensorSendToTFOp L v x m = Crashes) /\
         (local_devices (mesh layout) <> [] ->
          forall L v,
            local_devices (mesh L) = [] ->
            LowerDTensorSendFromCPUToTFOp L v x m = Crashes)) /\
        (op_kind o = DTensorRecv key layout ->
         (local_devices (mesh layout) = [] ->
          forall sm ty, LowerDTensorRecvToTFOp sm x ty m = Crashes) /\
         (local_devices (mesh layout) <> [] ->
          forall sm,
            local_devices sm = [] ->
            LowerDTensorRecvFromCPUToTFOp sm x m = Crashes))).
Proof.
  intros m x. splits.
  - intros L v S.
    apply crashes_if; [apply never_fails_LowerDTensorSendToTFOp|].
    intros r m' H. apply LowerDTensorSendToTFOp_devices in H as [H _]. auto.
  - intros sm ty S.
    apply crashes_if; [apply never_fails_LowerDTensorRecvToTFOp|].
    intros r m' H. apply LowerDTensorRecvToTFOp_devices in H as [H _]. auto.
  - intros o key layout Lo. split.
    + intros K. split.
      * intros R L v.
        apply crashes_if; [apply never_fails_LowerDTensorSendToTFOp|].
        intros r m' H.
        apply LowerDTensorSendToTFOp_devices in H
          as (_ & send & key' & tl & Ls & K' & R').
        congruence.
      * intros R L v S.
        apply crashes_if; [apply never_fails_LowerDTensorSendFromCPUToTFOp|].
        intros r m' H.
        apply LowerDTensorSendFromCPUToTFOp_devices in H
          as (send & key' & tl & Ls & K' & R').
        apply R'; [congruence|exact S].
    + intros K. split.
      * intros R sm ty.
        apply crashes_if; [apply never_fails_LowerDTensorRecvToTFOp|].
        intros r m' H.
        apply LowerDTensorRecvToTFOp_devices in H
          as (_ & recv & key' & rl & Ls & K' & R' & _).
        congruence.
      * intros R sm S.
        apply crashes_if; [apply never_fails_LowerDTensorRecvFromCPUToTFOp|].
        intros r m' H.
        apply LowerDTensorRecvFromCPUToTFOp_devices in H as [H _]. auto.
Qed.

Lemma host_lowerings_need_devices_witness :
  LowerDTensorSendToTFOp cpu_layout (OpResult 3 0) 4 deviceless_module
  = Crashes /\
  LowerDTensorRecvToTFOp deviceless_mesh 6 i32_tensor cpu_module = Crashes /\
  LowerDTensorSendFromCPUToTFOp deviceless_layout (OpResult 3 0) 4 cpu_module
  = Crashes.
Proof.
  destruct (host_lowerings_need_devices deviceless_module 4) as (_ & _ & A).
  destruct (host_lowerings_need_devices cpu_module 6) as (_ & B & _).
  destruct (host_lowerings_need_devices cpu_module 4) as (_ & _ & C).
  split; [|split].
  - exact (proj1 (proj1 (A _ "t1"%string deviceless_layout eq_refl) eq_refl)
             eq_refl cpu_layout (OpResult 3 0)).
  - exact (B deviceless_mesh i32_tensor eq_refl).
  - refine (proj2 (proj1 (C _ "t1"%string cpu_layout eq_refl) eq_refl)
              _ deviceless_layout (OpResult 3 0) eq_refl).
    simpl. discriminate.
Defined.

(** Property X9.
    A [DTensorRecv] outside every cluster has no cluster body to point a
    builder at: both host receive lowerings crash on it. *)
Theorem host_recv_outside_cluster_crashes :
  forall sm x ty m recv,
    lookup_op m x = Some recv ->
    (forall c, op_block recv <> InCluster c) ->
    LowerDTensorRecvToTFOp sm x ty m = Crashes /\
    LowerDTensorRecvFromCPUToTFOp sm x m = Crashes.
Proof.
  intros sm x ty m recv L B. split.
  - apply crashes_if; [apply never_fails_LowerDTensorRecvToTFOp|].
    intros r m' H.
    apply LowerDTensorRecvToTFOp_devices in H
      as (_ & recv' & key & rl & L' & _ & _ & c & Bc).
    rewrite L in L'. inversion L'; subst. now apply B in Bc.
  - apply crashes_if; [apply never_fails_LowerDTensorRecvFromCPUToTFOp|].
    intros r m' H. unfold LowerDTensorRecvFromCPUToTFOp in H.
    step H. apply deref_Done in E as [Ls ->].
    rewrite L in Ls. inversion Ls; subst a.
    step H. destruct a as [key rl].
    apply DTensorRecv_attrs_Done in E as [K ->].
    step H. apply getParentOfType_ClusterOp_Done in E as [-> Cl].
    step H. apply nonnull_Done in E as [-> ->].
    now apply (B _ (Cl _ eq_refl)).
Qed.

Lemma host_recv_outside_cluster_crashes_witness :
  LowerDTensorRecvToTFOp cpu_mesh 6 i32_tensor stray_recv_module = Crashes /\
  LowerDTensorRecvFromCPUToTFOp cpu_mesh 6 stray_recv_module = Crashes.
Proof.
  apply (host_recv_outside_cluster_crashes cpu_mesh 6 i32_tensor
           stray_recv_module
           (mkOp 6 "recv"%string (DTensorRecv "t1"%string cpu_layout) []
              [i32_tensor] [] (InFunc 0)) eq_refl).
  intros c. simpl. discriminate.
Defined.

(* ---------- after the producer ---------- *)
Lemma place_after a def b n :
  NoDup (map op_id (a ++ def :: b)) ->
  place (next_op (op_id def) (a ++ def :: b)) n (a ++ def :: b)
  = a ++ def :: n :: b.
Proof.
  intros ND. rewrite next_op_at by exact ND.
  destruct b as [|o b]; cbn [hd_error option_map].
  - cbn. now rewrite <- app_assoc.
  - change (a ++ def :: o :: b) with (a ++ [def] ++ o :: b).
    rewrite app_assoc. rewrite place_at.
    + now rewrite <- app_assoc.
    + rewrite <- app_assoc. exact ND.
Qed.

Lemma setInsertionPointAfter_spec x m b m' :
  setInsertionPointAfter x m = Done b m' ->
  m' = m /\
  exists o, lookup_op m x = Some o /\ ip_block b = op_block o /\
            ip_before b = next_op x (mod_ops m).
Proof.
  unfold setInsertionPointAfter. intros H.
  step H. apply deref_Done in E as [L ->].
  step H. apply get_Done in E as [-> ->].
  apply ret_Done in H as [-> ->]. split; auto. exists a. auto.
Qed.

Lemma without_mid x a o b :
  op_id o <> x -> without x (a ++ o :: b) = without x a ++ o :: without x b.
Proof.
  intros H. unfold without. apply filter_app_mid.
  now apply negb_true_iff, Nat.eqb_neq.
Qed.

Lemma without_app x a b : without x (a ++ b) = without x a ++ without x b.
Proof. apply filter_app. Qed.

Lemma without_fresh x l :
  (forall o, In o l -> op_id o <> x) -> without x l = l.
Proof.
  intros H. apply filter_all. intros o Ho.
  apply negb_true_iff, Nat.eqb_neq. auto.
Qed.

(** Property X10.
    [LowerDTensorSendToTFOp] puts the [_HostSend] right behind the op that
    produces the value sent, in its block and under its location, not where
    the abstract Send was; the module is otherwise the one before without the
    abstract Send. *)
Theorem host_send_follows_producer :
  forall L v x m r m',
    wf_module m ->
    LowerDTensorSendToTFOp L v x m = Done r m' ->
    exists key tl sd rd def i before after,
      v = OpResult (op_id def) i /\
      without x (mod_ops m) = before ++ def :: after /\
      mod_ops m'
      = before ++ def
        :: mkOp r (op_loc def) (_HostSendOp key sd 0 rd false) [v] [] []
             (op_block def)
        :: after /\
      hd_error (local_devices (mesh L)) = Some sd /\
      hd_error (local_devices (mesh tl)) = Some rd /\
      exists send, lookup_op m x = Some send /\
                   op_kind send = DTensorSend key tl.
Proof.
  intros L v x m r m' W H. unfold LowerDTensorSendToTFOp in H.
  step H. apply deref_Done in E as [Ls ->]. rename a into send.
  step H. destruct a as [key tl].
  apply DTensorSend_attrs_Done in E as [K ->].
  step H. apply nonnull_Done in E as [Dv ->]. rename a into d.
  step H. apply setInsertionPointAfter_spec in E
    as (-> & def & Ld & Bb & Pb). rename a into b.
  step H. rename a into loc.
  assert (El : loc = op_loc def).
  { destruct v as [d' i|]; [|discriminate]. cbn in Dv. inversion Dv; subst d'.
    unfold getLoc in E. rewrite Ld in E. now inversion E. }
  apply getLoc_Done in E as ->. subst loc.
  step H. apply nonnull_Done in E as [Sd ->]. rename a into sd.
  step H. apply nonnull_Done in E as [Rd ->]. rename a into rd.
  apply bind_Done in H as (r0 & mc & C & H).
  apply bind_Done in H as (u & me & Ee & H).
  apply ret_Done in H as [-> ->].
  pose proof (create_Done _ _ _ _ _ _ _ _ C) as (-> & Oc & _).
  apply erase_Done in Ee as (U & Oe & _).
  destruct (lookup_split _ _ _ Ld) as (a & c & Eo).
  pose proof (lookup_In _ _ _ Ld) as [_ Idef].
  pose proof W as (ND & Hlt & _).
  rewrite Pb, Eo, <- Idef in Oc. rewrite Eo in ND.
  rewrite place_after in Oc by exact ND.
  assert (Hx : x < next_id m) by (eapply wf_lookup_lt; eauto).
  assert (Hd : op_id def <> x).
  { intros Ex.
    assert (Hn : In (new_op b (op_loc def) (_HostSendOp key sd 0 rd false)
                       [v] [] m) (mod_ops mc)).
    { rewrite Oc. rewrite in_app_iff. right. right. now left. }
    apply (filter_nil_inv _ _ _ U) in Hn.
    destruct v as [d' i|]; [|discriminate]. cbn in Dv. inversion Dv; subst d'.
    cbn in Hn. rewrite <- Idef, Ex, Nat.eqb_refl in Hn. discriminate. }
  destruct v as [d' i|]; [|discriminate]. cbn in Dv. inversion Dv; subst d'.
  rewrite nth_error_0 in Sd, Rd.
  exists key, tl, sd, rd, def, i, (without x a), (without x c).
  split; [now rewrite Idef|]. split.
  { rewrite Eo. now apply without_mid. }
  split.
  { rewrite Oe, Oc. fold (without x (a ++ def :: new_op b (op_loc def)
                                   (_HostSendOp key sd 0 rd false)
                                   [OpResult d i] [] m :: c)).
    rewrite without_mid by exact Hd. f_equal. f_equal.
    change (new_op b (op_loc def) (_HostSendOp key sd 0 rd false)
              [OpResult d i] [] m :: c)
      with ([] ++ new_op b (op_loc def) (_HostSendOp key sd 0 rd false)
              [OpResult d i] [] m :: c).
    rewrite without_mid by (cbn; lia). cbn [app without filter].
    unfold new_op. now rewrite Bb. }
  split; [exact Sd|]. split; [exact Rd|]. exists send. auto.
Qed.

Lemma host_send_follows_producer_witness :
  exists r m',
    LowerDTensorSendToTFOp cpu_layout (OpResult 3 0) 4 cpu_module = Done r m' /\
    map op_id (mod_ops m') = [3; 9; 5; 6; 7; 8].
Proof.
  eexists _, _. split; [lazy; reflexivity|].
  pose proof (fun r m' =>
    host_send_follows_producer cpu_layout (OpResult 3 0) 4 cpu_module r m'
      cpu_module_wf) as T.
  lazy in T.
  destruct (T _ _ eq_refl)
    as (key & tl & sd & rd & def & i & before & after & _ & _ & Eo & _).
  reflexivity.
Defined.

(** Property X11.
    [LowerDTensorRecvToTFOp] creates one op, a [_HostRecv] of the type the
    caller asks for, directly in front of the abstract Recv, which stays
    where it is. *)
Theorem host_recv_precedes_abstract_recv :
  forall sm x ty m r m',
    wf_module m ->
    LowerDTensorRecvToTFOp sm x ty m = Done r m' ->
    exists recv key rl sd rd before after,
      op_id recv = x /\ op_kind recv = DTensorRecv key rl /\
      mod_ops m = before ++ recv :: after /\
      mod_ops m'
      = before
        ++ mkOp r (op_loc recv) (_HostRecvOp key sd 0 rd) [] [ty] []
             (op_block recv)
        :: recv :: after /\
      hd_error (local_devices sm) = Some sd /\
      hd_error (local_devices (mesh rl)) = Some rd.
Proof.
  intros sm x ty m r m' W H.
  destruct (LowerDTensorRecvToTFOp_Done _ _ _ _ _ _ W H)
    as (recv & key & rl & sd & rd & Lr & K & Sd & Rd & _ & -> & _ & _ & _ & _
        & _ & Eo).
  destruct (lookup_split _ _ _ Lr) as (a & c & Em).
  pose proof (lookup_In _ _ _ Lr) as [_ Ir].
  exists recv, key, rl, sd, rd, a, c. splits; auto.
  rewrite Eo, Em, <- Ir. destruct W as (ND & _). rewrite Em in ND.
  now rewrite place_at.
Qed.

Lemma host_recv_precedes_abstract_recv_witness :
  exists r m',
    LowerDTensorRecvToTFOp cpu_mesh 6 f32_tensor cpu_module = Done r m' /\
    map op_id (mod_ops m') = [3; 4; 5; 9; 6; 7; 8].
Proof.
  eexists _, _. split; [lazy; reflexivity|].
  pose proof (fun r m' =>
    host_recv_precedes_abstract_recv cpu_mesh 6 f32_tensor cpu_module r m'
      cpu_module_wf) as T.
  lazy in T.
  destruct (T _ _ eq_refl)
    as (recv & key & rl & sd & rd & before & after & _).
  reflexivity.
Defined.

(* ---------- a builder between two parts of the program ---------- *)
Lemma place_between a b n pt :
  NoDup (map op_id (a ++ b)) ->
  pt = option_map op_id (hd_error b) ->
  place pt n (a ++ b) = a ++ n :: b.
Proof.
  intros ND ->. destruct b as [|o b]; cbn [hd_error option_map].
  - cbn. now rewrite app_nil_r.
  - now apply place_at.
Qed.

Lemma create_between bld loc k operands types m r m' a b :
  wf_module m ->
  mod_ops m = a ++ b ->
  ip_before bld = option_map op_id (hd_error b) ->
  create bld loc k operands types m = Done r m' ->
  wf_module m' /\ r = next_id m /\ next_id m' = S (next_id m) /\
  mod_funcs m' = mod_funcs m /\ mod_clusters m' = mod_clusters m /\
  (forall x o, lookup_op m x = Some o -> lookup_op m' x = Some o) /\
  mod_ops m'
  = (a ++ [mkOp (next_id m) loc k operands types [] (ip_block bld)]) ++ b.
Proof.
  intros W E P H.
  pose proof (create_Done _ _ _ _ _ _ _ _ H) as (_ & Eo & _).
  apply (create_spec _ _ _ _ _ _ _ _ W) in H
    as (W' & Er & En & Ef & Ec & _ & Lo & _).
  splits; auto.
  rewrite Eo, E. destruct W as (ND & _). rewrite E in ND.
  rewrite (place_between a b _ _ ND P). now rewrite <- app_assoc.
Qed.

Lemma send_to_each_between bld v send key sds loc input sd :
  forall rds m last res m' a b,
    wf_module m ->
    mod_ops m = a ++ b ->
    ip_before bld = option_map op_id (hd_error b) ->
    getLoc v m = Done loc m ->
    nth_error (op_operands send) 0 = Some input ->
    hd_error sds = Some sd ->
    send_to_each bld v send key sds rds last m = Done res m' ->
    mod_ops m'
    = a ++ host_sends (ip_block bld) loc key sd input rds (next_id m) ++ b.
Proof.
  induction rds as [|rd rest IH]; intros m last res m' a b W Eo P Gl In0 Sd H;
    cbn [send_to_each] in H.
  - apply ret_Done in H as [_ <-]. exact Eo.
  - apply bind_Done in H as (loc' & m0 & E & H).
    pose proof (getLoc_Done _ _ _ _ E) as ->.
    rewrite Gl in E. inversion E; subst loc'. clear E.
    apply bind_Done in H as (input' & m0 & E & H).
    apply nonnull_Done in E as [E ->].
    unfold DTensorSend_input in *. rewrite In0 in E. inversion E; subst input'.
    clear E.
    apply bind_Done in H as (sd' & m0 & E & H).
    apply nonnull_Done in E as [E ->]. rewrite nth_error_0, Sd in E.
    inversion E; subst sd'. clear E.
    apply bind_Done in H as (r & m1 & C & H).
    apply (create_between _ _ _ _ _ _ _ _ _ _ W Eo P) in C
      as (W1 & -> & N1 & F1 & _ & Lo & O1).
    apply (IH _ _ _ _ _ _ W1 O1 P (getLoc_mono _ _ _ _ Lo F1 Gl) In0 Sd) in H.
    rewrite H, N1. cbn [host_sends]. now rewrite <- app_assoc.
Qed.

Lemma recv_at_each_between bld loc ty key sds sd :
  forall rds m last res m' a b,
    wf_module m ->
    mod_ops m = a ++ b ->
    ip_before bld = option_map op_id (hd_error b) ->
    hd_error sds = Some sd ->
    recv_at_each bld loc ty key sds rds last m = Done res m' ->
    mod_ops m'
    = a ++ host_recvs (ip_block bld) loc key sd ty rds (next_id m) ++ b.
Proof.
  induction rds as [|rd rest IH]; intros m last res m' a b W Eo P Sd H;
    cbn [recv_at_each] in H.
  - apply ret_Done in H as [_ <-]. exact Eo.
  - apply bind_Done in H as (sd' & m0 & E & H).
    apply nonnull_Done in E as [E ->]. rewrite nth_error_0, Sd in E.
    inversion E; subst sd'. clear E.
    apply bind_Done in H as (r & m1 & C & H).
    apply (create_between _ _ _ _ _ _ _ _ _ _ W Eo P) in C
      as (W1 & -> & N1 & F1 & _ & Lo & O1).
    apply (IH _ _ _ _ _ _ W1 O1 P Sd) in H.
    rewrite H, N1. cbn [host_recvs]. now rewrite <- app_assoc.
Qed.

Lemma host_recvs_operands blk loc key sd ty rds :
  forall n o, In o (host_recvs blk loc key sd ty rds n) -> op_operands o = [].
Proof.
  induction rds as [|rd rest IH]; cbn; [tauto|].
  intros n o [<-|Ho]; eauto.
Qed.

Lemma without_map_fresh x (f : Op -> Op) l :
  (forall o, op_id (f o) = op_id o) ->
  (forall o, In o l -> op_id o <> x) ->
  without x (map f l) = map f l.
Proof.
  intros Hf H. apply without_fresh. intros o Ho.
  apply in_map_iff in Ho as (p & <- & Hp). rewrite Hf. auto.
Qed.

(** Property X12.
    The fan-out send puts its [_HostSend]s behind the op that produces the
    value it is handed, one after the other in the order of the receiving
    devices, and then removes the abstract Send.  When it returns an op there
    was a sending device and an input; when the pointer it returns was never
    assigned there was no receiving device and nothing was put in. *)
Theorem fan_out_sends_in_order :
  forall L v x m r m',
    wf_module m ->
    LowerDTensorSendFromCPUToTFOp L v x m = Done r m' ->
    exists send key tl def i before after sends,
      lookup_op m x = Some send /\ op_kind send = DTensorSend key tl /\
      v = OpResult (op_id def) i /\
      mod_ops m = before ++ def :: after /\
      mod_ops m' = without x (before ++ def :: sends ++ after) /\
      match r with
      | Some _ =>
          exists sd input,
            hd_error (local_devices (mesh L)) = Some sd /\
            nth_error (op_operands send) 0 = Some input /\
            sends
            = host_sends (op_block def) (op_loc def) key sd input
                (local_devices (mesh tl)) (next_id m)
      | None => local_devices (mesh tl) = [] /\ sends = []
      end.
Proof.
  intros L v x m r m' W H.
  assert (Cases :
    exists send0 key0 tl0,
      lookup_op m x = Some send0 /\ op_kind send0 = DTensorSend key0 tl0 /\
      match r with
      | Some _ =>
          exists sd input,
            hd_error (local_devices (mesh L)) = Some sd /\
            nth_error (op_operands send0) 0 = Some input
      | None => local_devices (mesh tl0) = []
      end).
  { destruct r as [r|].
    - destruct (LowerDTensorSendFromCPUToTFOp_Done _ _ _ _ _ _ W H)
        as (send0 & key0 & tl0 & _ & _ & input & sd & Ls0 & K0 & Sd & In0 & _).
      exists send0, key0, tl0. eauto 6.
    - destruct (LowerDTensorSendFromCPUToTFOp_None _ _ _ _ _ W H)
        as (send0 & key0 & tl0 & Ls0 & K0 & R & _).
      exists send0, key0, tl0. auto. }
  destruct Cases as (send0 & key0 & tl0 & Ls0 & K0 & Cases).
  unfold LowerDTensorSendFromCPUToTFOp in H.
  step H. apply deref_Done in E as [Ls ->]. rename a into send.
  rewrite Ls0 in Ls. inversion Ls; subst send0. clear Ls.
  step H. destruct a as [key tl].
  apply DTensorSend_attrs_Done in E as [K ->].
  rewrite K0 in K. inversion K; subst key0 tl0. clear K.
  step H. apply nonnull_Done in E as [Dv ->]. rename a into d.
  destruct v as [d' i|]; [|discriminate]. cbn in Dv. inversion Dv; subst d'.
  clear Dv.
  step H. apply setInsertionPointAfter_spec in E
    as (-> & def & Ld & Bb & Pb). rename a into b.
  step H. rename a into last.
  step H. apply erase_Done in E0 as (_ & Oe & _).
  apply ret_Done in H as [_ ->].
  destruct (lookup_split _ _ _ Ld) as (pre & post & Eo).
  pose proof (lookup_In _ _ _ Ld) as [_ Idef].
  pose proof W as (ND & _). rewrite Eo in ND.
  assert (Gl : getLoc (OpResult d i) m = Done (op_loc def) m).
  { unfold getLoc. now rewrite Ld. }
  assert (Eo' : mod_ops m = (pre ++ [def]) ++ post).
  { now rewrite <- app_assoc. }
  assert (P : ip_before b = option_map op_id (hd_error post)).
  { rewrite Pb, Eo, <- Idef. now apply next_op_at. }
  destruct r as [r|].
  - destruct Cases as (sd & input & Sd & In0).
    apply (send_to_each_between _ _ _ _ _ _ _ _ _ _ _ _ _ _ _ W Eo' P Gl In0 Sd)
      in E.
    exists send, key, tl, def, i, pre, post,
      (host_sends (op_block def) (op_loc def) key sd input
         (local_devices (mesh tl)) (next_id m)).
    splits; auto.
    + rewrite Oe, E, Bb. rewrite <- app_assoc. reflexivity.
    + exists sd, input. auto.
  - rewrite Cases in E. cbn [send_to_each] in E.
    apply ret_Done in E as [_ ->].
    exists send, key, tl, def, i, pre, post, []. splits; auto.
    rewrite Oe, Eo. reflexivity.
Qed.

Lemma fan_out_sends_in_order_witness :
  exists r m',
    LowerDTensorSendFromCPUToTFOp cpu_layout (OpResult 3 0) 4 cpu_module
    = Done r m' /\
    map op_id (mod_ops m') = [3; 9; 10; 5; 6; 7; 8].
Proof.
  eexists _, _. split; [lazy; reflexivity|].
  pose proof (fun r m' =>
    fan_out_sends_in_order cpu_layout (OpResult 3 0) 4 cpu_module r m'
      cpu_module_wf) as T.
  lazy in T.
  destruct (T _ _ eq_refl) as (send & _).
  reflexivity.
Defined.

(** Property X13.
    The fan-out receive puts its [_HostRecv]s where the abstract Recv was,
    one after the other in the order of the receiving devices; every other
    op of the module stays in place, with its uses of the abstract Recv
    redirected to the last of them. *)
Theorem fan_out_recvs_in_order :
  forall sm x m r m',
    wf_module m ->
    LowerDTensorRecvFromCPUToTFOp sm x m = Done r m' ->
    exists recv key rl ty sd before after,
      op_id recv = x /\ op_kind recv = DTensorRecv key rl /\
      nth_error (op_types recv) 0 = Some ty /\
      hd_error (local_devices sm) = Some sd /\
      mod_ops m = before ++ recv :: after /\
      mod_ops m'
      = map (map_operands (redirect x r)) before
        ++ host_recvs (op_block recv) (op_loc recv) key sd ty
             (local_devices (mesh rl)) (next_id m)
        ++ map (map_operands (redirect x r)) after.
Proof.
  intros sm x m r m' W H.
  destruct (LowerDTensorRecvFromCPUToTFOp_Done _ _ _ _ _ W H)
    as (recv0 & key0 & rl0 & ty0 & sd & Ls0 & K0 & Ty0 & Sd & _).
  unfold LowerDTensorRecvFromCPUToTFOp in H.
  apply bind_Done in H as (recv & m0 & E & H). apply deref_Done in E as [Ls ->].
  rewrite Ls0 in Ls. inversion Ls; subst recv0. clear Ls.
  apply bind_Done in H as ([key rl] & m0 & E & H).
  apply DTensorRecv_attrs_Done in E as [K ->].
  rewrite K0 in K. inversion K; subst key0 rl0. clear K.
  apply bind_Done in H as (cl & m0 & E & H).
  apply getParentOfType_ClusterOp_Done in E as [-> _].
  apply bind_Done in H as (cl' & m0 & E & H). apply nonnull_Done in E as [_ ->].
  apply bind_Done in H as (front & m0 & E & H).
  apply GetBody_front_Done in E as ->.
  apply bind_Done in H as (ty & m0 & E & H). apply nonnull_Done in E as [Ty ->].
  rewrite Ty0 in Ty. inversion Ty; subst ty0. clear Ty.
  apply bind_Done in H as (last & m1 & E & H).
  apply bind_Done in H as (r0 & m0 & E0 & H). apply nonnull_Done in E0 as [_ ->].
  apply bind_Done in H as (u & m2 & Eu & H).
  apply update_ops_Done in Eu as (Ou & _).
  apply bind_Done in H as (u' & m3 & Ee & H).
  apply erase_Done in Ee as (_ & Oe & _).
  apply ret_Done in H as [<- <-].
  destruct (lookup_split _ _ _ Ls0) as (pre & post & Eo).
  pose proof (lookup_In _ _ _ Ls0) as [_ Ir].
  pose proof W as (ND & Hlt & _).
  assert (P : ip_before (OpBuilder_at recv)
              = option_map op_id (hd_error (recv :: post))) by reflexivity.
  apply (recv_at_each_between _ _ _ _ _ _ _ _ _ _ _ _ _ W Eo P Sd) in E.
  exists recv, key, rl, ty, sd, pre, post.
  splits; auto.
  change (mod_ops m' = without x (mod_ops m2)) in Oe.
  rewrite Oe, Ou, E.
  set (f := map_operands (redirect x r)).
  rewrite !map_app. cbn [map]. rewrite !without_app.
  assert (Ha : forall o, In o pre -> op_id o <> x).
  { intros o Ho Ex. rewrite Eo, map_app in ND. rewrite <- Ir in Ex.
    clear - ND Ho Ex. induction pre as [|p pre IH]; [destruct Ho|].
    cbn in ND. inversion ND as [|? ? Hn ND']; subst.
    destruct Ho as [->|Ho]; auto.
    apply Hn. rewrite Ex, in_app_iff. right. now left. }
  assert (Hc : forall o, In o post -> op_id o <> x).
  { intros o Ho Ex. rewrite Eo, map_app in ND.
    apply NoDup_app_remove_l in ND. cbn in ND.
    inversion ND as [|? ? Hn _]. apply Hn.
    rewrite Ir, <- Ex. now apply in_map. }
  rewrite (without_map_fresh x f pre) by (auto; intros; reflexivity).
  f_equal.
  assert (Hr : forall o,
    In o (host_recvs (op_block recv) (op_loc recv) key sd ty
            (local_devices (mesh rl)) (next_id m)) ->
    f o = o /\ op_id o <> x).
  { intros o Ho. split.
    - apply map_operands_nil. eapply host_recvs_operands; eauto.
    - apply host_recvs_ids in Ho.
      assert (x < next_id m) by (eapply wf_lookup_lt; eauto). lia. }
  cbn [OpBuilder_at ip_block].
  rewrite (map_ext_in f (fun o => o)) by (intros o Ho; now apply Hr).
  rewrite map_id.
  rewrite (without_fresh x (host_recvs _ _ _ _ _ _ _))
    by (intros o Ho; now apply Hr).
  f_equal.
  unfold without at 1. cbn [filter]. subst f. cbn [map_operands op_id].
  rewrite Ir, Nat.eqb_refl. cbn [negb].
  fold (without x (map (map_operands (redirect x r)) post)).
  apply without_map_fresh; auto.
Qed.

Lemma fan_out_recvs_in_order_witness :
  exists r m',
    LowerDTensorRecvFromCPUToTFOp cpu_mesh 6 cpu_module = Done r m' /\
    map op_id (mod_ops m') = [3; 4; 5; 9; 10; 7; 8].
Proof.
  eexists _, _. split; [lazy; reflexivity|].
  pose proof (fun r m' =>
    fan_out_recvs_in_order cpu_mesh 6 cpu_module r m' cpu_module_wf) as T.
  lazy in T.
  destruct (T _ _ eq_refl) as (recv & _).
  reflexivity.
Defined.

(* ---------- lists with one operation singled out ---------- *)
Lemma NoDup_mid_fresh a (o : Op) b :
  NoDup (map op_id (a ++ o :: b)) ->
  (forall p, In p a -> op_id p <> op_id o) /\
  (forall p, In p b -> op_id p <> op_id o).
Proof.
  intros ND. rewrite map_app in ND. cbn [map] in ND.
  pose proof (NoDup_remove_2 _ _ _ ND) as Hn. rewrite in_app_iff in Hn.
  split; intros p Hp E; apply Hn; [left|right]; rewrite <- E; now apply in_map.
Qed.

Lemma without_at a o b :
  NoDup (map op_id (a ++ o :: b)) ->
  without (op_id o) (a ++ o :: b) = a ++ b.
Proof.
  intros ND. destruct (NoDup_mid_fresh _ _ _ ND) as [Ha Hb].
  rewrite without_app. rewrite (without_fresh _ a Ha). f_equal.
  unfold without at 1. cbn [filter]. rewrite Nat.eqb_refl. cbn [negb].
  now apply without_fresh.
Qed.

Lemma mid_lookup m a o b :
  wf_module m -> mod_ops m = a ++ o :: b -> lookup_op m (op_id o) = Some o.
Proof.
  intros (ND & _) E. apply In_lookup; auto. rewrite E. apply in_elt.
Qed.

Lemma users_nil_existsb m x :
  users m x = [] -> existsb (uses_result_of x) (mod_ops m) = false.
Proof.
  intros U. destruct (existsb _ _) eqn:E; auto.
  apply existsb_exists in E as (o & Ho & Hu).
  apply (filter_nil_inv _ _ _ U) in Ho. congruence.
Qed.

(** Property X29.
    Without a receiving device the fan-out send builds nothing: for a Send
    that nothing uses and a value that an op of the module produces, it
    erases the abstract Send and returns, with success, a pointer that was
    never assigned; no device name is read, whatever the sending mesh is. *)
Theorem fan_out_send_without_receivers :
  forall L d i x m send key tl def,
    lookup_op m x = Some send ->
    op_kind send = DTensorSend key tl ->
    local_devices (mesh tl) = [] ->
    lookup_op m d = Some def ->
    users m x = [] ->
    LowerDTensorSendFromCPUToTFOp L (OpResult d i) x m
    = Done None
        {| mod_ops := without x (mod_ops m);
           mod_clusters := mod_clusters m;
           mod_funcs := mod_funcs m;
           next_id := next_id m |}.
Proof.
  intros L d i x m send key tl def Ls K R Ld U.
  unfold LowerDTensorSendFromCPUToTFOp.
  rewrite (bind_step _ _ m send m) by (unfold deref; now rewrite Ls).
  rewrite (bind_step _ _ m (key, tl) m)
    by (unfold DTensorSend_attrs; now rewrite K).
  rewrite (bind_step _ _ m d m) by reflexivity.
  rewrite (bind_step _ _ m
             {| ip_block := op_block def;
                ip_before := next_op d (mod_ops m) |} m).
  2:{ unfold setInsertionPointAfter.
      rewrite (bind_step _ _ m def m) by (unfold deref; now rewrite Ld).
      reflexivity. }
  rewrite R. cbn [send_to_each].
  rewrite (bind_step _ _ m None m) by reflexivity.
  unfold bind, erase. rewrite (users_nil_existsb _ _ U). reflexivity.
Qed.

Lemma fan_out_send_without_receivers_witness :
  exists m',
    LowerDTensorSendFromCPUToTFOp cpu_layout (OpResult 3 0) 4
      deviceless_module
    = Done None m' /\
    map op_id (mod_ops m') = [3; 5; 6; 7; 8].
Proof.
  eexists. split.
  - exact (fan_out_send_without_receivers cpu_layout 3 0 4 deviceless_module
             (mkOp 4 "send"%string
                (DTensorSend "t1"%string deviceless_layout) [OpResult 3 0]
                [] [] (InCluster 1))
             "t1"%string deviceless_layout
             (mkOp 3 "a"%string (OtherOp "tf.A"%string) [] [i32_tensor] []
                (InCluster 1))
             eq_refl eq_refl eq_refl eq_refl eq_refl).
  - reflexivity.
Defined.

Lemma uses_result_of_single x v k loc types blk n :
  getDefiningOp v <> Some x ->
  uses_result_of x (mkOp n loc k [v] types [] blk) = false.
Proof.
  intros D. unfold uses_result_of. cbn. destruct v as [y i|]; auto.
  rewrite orb_false_r. apply Nat.eqb_neq. intros ->. now apply D.
Qed.

(** Property X14.
    From an accelerator (TPU) mesh the send across the boundary needs no
    cluster, no function, no compilation key and no device ordinal: for a
    Send that nothing uses it succeeds, and the module it leaves is the one
    before with the abstract Send replaced, in place, by one [XlaSendToHost]
    of the value sent. *)
Theorem xla_send_from_tpu_in_place :
  forall order L v x zero m send key tl before after,
    wf_module m ->
    mod_ops m = before ++ send :: after ->
    op_id send = x ->
    op_kind send = DTensorSend key tl ->
    is_tpu_mesh (mesh L) = true ->
    users m x = [] ->
    getDefiningOp v <> Some x ->
    LowerDTensorSendToXlaOp order L v x zero m
    = Done (next_id m)
        {| mod_ops :=
             before
             ++ mkOp (next_id m) (op_loc send) (XlaSendToHostOp key) [v] [] []
                  (op_block send)
             :: after;
           mod_clusters := mod_clusters m;
           mod_funcs := mod_funcs m;
           next_id := S (next_id m) |}.
Proof.
  intros order L v x zero m send key tl before after W Eo Ix K T U Dv.
  pose proof (mid_lookup _ _ _ _ W Eo) as Ls. rewrite Ix in Ls.
  pose proof W as (ND & Hlt & _).
  unfold LowerDTensorSendToXlaOp.
  rewrite (bind_step _ _ m send m) by (unfold deref; now rewrite Ls).
  rewrite (bind_step _ _ m (key, tl) m)
    by (unfold DTensorSend_attrs; now rewrite K).
  rewrite T. cbn [negb].
  unfold bind at 1. unfold bind at 1. unfold create, erase.
  cbn [mod_ops mod_clusters mod_funcs next_id OpBuilder_at ip_before ip_block].
  rewrite Eo, <- Ix. rewrite Eo in ND. rewrite (place_at _ _ _ _ ND).
  assert (Hx : op_id send < next_id m).
  { apply Hlt. rewrite Eo. apply in_elt. }
  replace (existsb _ _) with false.
  2:{ symmetry. rewrite existsb_app. cbn [existsb].
      apply users_nil_existsb in U. rewrite Eo, <- Ix, existsb_app in U.
      cbn [existsb] in U.
      apply orb_false_iff in U as [U1 U2].
      apply orb_false_iff in U2 as [U2 U3].
      rewrite U1, U2, U3.
      rewrite uses_result_of_single by (now rewrite Ix). reflexivity. }
  unfold ret. f_equal. f_equal.
  change (filter (fun o : Op => negb (op_id o =? op_id send)))
    with (without (op_id send)).
  change (before ++ ?n :: send :: after) with (before ++ n :: send :: after).
  rewrite without_app.
  destruct (NoDup_mid_fresh _ _ _ ND) as [Ha Hb].
  rewrite (without_fresh _ before Ha). f_equal.
  unfold without. cbn [filter op_id].
  replace (next_id m =? op_id send) with false
    by (symmetry; apply Nat.eqb_neq; lia).
  rewrite Nat.eqb_refl. cbn [negb]. f_equal.
  now apply without_fresh.
Qed.

Lemma xla_send_from_tpu_in_place_witness :
  exists m',
    LowerDTensorSendToXlaOp Args321 tpu_layout (OpResult 3 0) 4 false
      tpu_cpu_module
    = Done 9 m' /\
    map op_id (mod_ops m') = [3; 9; 5; 6; 7; 8].
Proof.
  eexists. split.
  - apply (xla_send_from_tpu_in_place Args321 tpu_layout (OpResult 3 0) 4 false
             tpu_cpu_module
             (mkOp 4 "send"%string (DTensorSend "t1"%string cpu_layout)
                [OpResult 3 0] [] [] (InCluster 1))
             "t1"%string cpu_layout
             (firstn 1 (mod_ops tpu_cpu_module))
             (skipn 2 (mod_ops tpu_cpu_module))
             (sample_module_wf _ _ _ _ _) eq_refl eq_refl eq_refl eq_refl
             eq_refl).
    simpl. discriminate.
  - reflexivity.
Defined.

(** Property X15.
    On a mesh that is not a CPU mesh the receive across the boundary needs
    no cluster and no mesh attribute: it always succeeds and puts one
    [XlaRecvFromHost] in front of the abstract Recv, which stays.  The op
    declares the type the caller asks for; its shape attribute is the shape
    of the abstract Recv's own type. *)
Theorem xla_recv_on_device_in_place :
  forall order x output_type m recv key layout recv_type before after,
    wf_module m ->
    mod_ops m = before ++ recv :: after ->
    op_id recv = x ->
    op_kind recv = DTensorRecv key layout ->
    nth_error (op_types recv) 0 = Some recv_type ->
    is_cpu_mesh (mesh layout) = false ->
    LowerDTensorRecvToXlaOp order x output_type m
    = Done (next_id m)
        {| mod_ops :=
             before
             ++ mkOp (next_id m) (op_loc recv)
                  (XlaRecvFromHostOp (getShape recv_type) key) []
                  [output_type] [] (op_block recv)
             :: recv :: after;
           mod_clusters := mod_clusters m;
           mod_funcs := mod_funcs m;
           next_id := S (next_id m) |}.
Proof.
  intros order x ty m recv key layout rty before after W Eo Ix K Ty C.
  pose proof (mid_lookup _ _ _ _ W Eo) as Ls. rewrite Ix in Ls.
  pose proof W as (ND & _).
  unfold LowerDTensorRecvToXlaOp.
  rewrite (bind_step _ _ m recv m) by (unfold deref; now rewrite Ls).
  rewrite (bind_step _ _ m (key, layout) m)
    by (unfold DTensorRecv_attrs; now rewrite K).
  rewrite C.
  rewrite (bind_step _ _ m rty m)
    by (unfold DTensorRecv_getType; now rewrite Ty).
  unfold create.
  cbn [mod_ops mod_clusters mod_funcs next_id OpBuilder_at ip_before ip_block].
  rewrite Eo. rewrite Eo in ND. now rewrite (place_at _ _ _ _ ND).
Qed.

Lemma xla_recv_on_device_in_place_witness :
  exists m',
    LowerDTensorRecvToXlaOp Args321 6 f32_tensor cpu_tpu_module = Done 9 m' /\
    map op_id (mod_ops m') = [3; 4; 5; 9; 6; 7; 8].
Proof.
  eexists. split.
  - exact (xla_recv_on_device_in_place Args321 6 f32_tensor cpu_tpu_module
             (mkOp 6 "recv"%string (DTensorRecv "t1"%string tpu_layout) []
                [i32_tensor] [] (InCluster 2))
             "t1"%string tpu_layout i32_tensor
             (firstn 3 (mod_ops cpu_tpu_module))
             (skipn 4 (mod_ops cpu_tpu_module))
             (sample_module_wf _ _ _ _ _) eq_refl eq_refl eq_refl eq_refl
             eq_refl).
  - reflexivity.
Defined.

(* ---------- the compilation key and the cluster ---------- *)
Lemma GetOrCreateCompilationKey_cluster op m key m1 :
  GetOrCreateCompilationKey op m = Done key m1 ->
  mod_clusters m1 = mod_clusters m /\ mod_funcs m1 = mod_funcs m /\
  exists o cl,
    lookup_op m op = Some o /\ op_block o = InCluster (cl_id cl) /\
    lookup_cluster m (cl_id cl) = Some cl.
Proof.
  unfold GetOrCreateCompilationKey. intros H.
  apply bind_Done in H as (o & m0 & E & H). apply deref_Done in E as [L ->].
  apply bind_Done in H as (cl & m0 & E & H).
  assert (Cl : forall c, cl = Some c ->
            op_block o = InCluster (cl_id c) /\
            lookup_cluster m (cl_id c) = Some c).
  { unfold getParentOfType_ClusterOp in E.
    destruct (op_block o) as [c0| |]; inversion E; subst; try discriminate.
    intros c Lc. pose proof (lookup_cluster_id _ _ _ Lc) as ->. auto. }
  apply getParentOfType_ClusterOp_Done in E as [-> _].
  destruct cl as [cl|]; [|discriminate].
  destruct (Cl cl eq_refl) as [B Lc].
  apply bind_Done in H as (m0' & m0 & G & H). apply get_Done in G as [-> ->].
  destruct (walk_program_keys _ _).
  - apply ret_Done in H as [_ ->]. splits; auto. exists o, cl. auto.
  - apply bind_Done in H as (f & m0 & E & H).
    apply GetBody_front_Done in E as ->.
    apply bind_Done in H as (r & m2 & C & H).
    apply ret_Done in H as [_ ->].
    apply create_Done in C as (_ & _ & Ec & Ef & _).
    splits; auto. exists o, cl. auto.
Qed.

Lemma LowerDTensorSendToXlaOp_Fails_inv {order} L v x zero m s m' :
  LowerDTensorSendToXlaOp order L v x zero m = Fails s m' ->
  zero = false /\ is_tpu_mesh (mesh L) = false /\
  exists send cl key,
    lookup_op m x = Some send /\ op_block send = InCluster (cl_id cl) /\
    lookup_cluster m (cl_id cl) = Some cl /\
    GetOrCreateCompilationKey x m = Done key m' /\
    (s = InvalidArgument "DTensorSend is not inside a FuncOp" \/
     exists fn, DeviceId fn m' = Fails s m').
Proof.
  unfold LowerDTensorSendToXlaOp. intros H.
  apply bind_Fails in H as [H|(send & m0 & E & H)].
  { now apply never_fails_deref in H. }
  apply deref_Done in E as [Ls ->].
  apply bind_Fails in H as [H|([key tl] & m0 & E & H)].
  { now apply never_fails_DTensorSend_attrs in H. }
  apply DTensorSend_attrs_Done in E as [K ->].
  apply bind_Fails in H as [H|(lowered & m3 & _ & H)].
  2:{ exfalso. revert H. apply never_fails_bind; intros; nofail. }
  destruct (is_tpu_mesh (mesh L)); cbn [negb] in H.
  { now apply never_fails_create in H. }
  apply bind_Fails in H as [H|(pk & m1 & G & H)].
  { now apply never_fails_GetOrCreateCompilationKey in H. }
  destruct (GetOrCreateCompilationKey_cluster _ _ _ _ G)
    as (Ec & Ef & o & cl & Lo & B & Lc).
  rewrite Ls in Lo. inversion Lo; subst o. clear Lo.
  apply bind_Fails in H as [H|(ord & m2 & _ & H)].
  2:{ now apply never_fails_create in H. }
  destruct zero.
  { exfalso. revert H. unfold CreateIntScalarConst. nofail. }
  apply bind_Fails in H as [H|(c & m2 & E & H)].
  { now apply never_fails_getParentOfType_ClusterOp in H. }
  assert (c = Some cl /\ m2 = m1) as [-> ->].
  { unfold getParentOfType_ClusterOp in E. rewrite B in E.
    unfold lookup_cluster in *. rewrite Ec, Lc in E. now inversion E. }
  apply bind_Fails in H as [H|(fn & m2 & E' & H)].
  { now apply never_fails_getParentOfType_FuncOp in H. }
  apply getParentOfType_FuncOp_Done in E' as ->.
  split; [reflexivity|]. split; [reflexivity|].
  destruct fn as [fn|].
  - apply GetDeviceOrdinal_Fails_inv in H as [-> H].
    exists send, cl, pk. splits; auto. right. eauto.
  - inversion H; subst. exists send, cl, pk. splits; auto.
Qed.

(** Property X16.
    When the send across the boundary reports a status it has already
    fetched or created the compilation key of the cluster: the module it
    leaves is the one after [GetOrCreateCompilationKey], with the abstract
    Send still in it.  This happens only from a host mesh and only when the
    device ordinal has to be computed. *)
Theorem xla_send_failure_keeps_key :
  forall order L v x zero m s m',
    wf_module m ->
    LowerDTensorSendToXlaOp order L v x zero m = Fails s m' ->
    zero = false /\ is_tpu_mesh (mesh L) = false /\
    (exists key, GetOrCreateCompilationKey x m = Done key m') /\
    lookup_op m' x = lookup_op m x /\
    mod_funcs m' = mod_funcs m.
Proof.
  intros order L v x zero m s m' W H.
  apply LowerDTensorSendToXlaOp_Fails_inv in H
    as (-> & T & send & cl & key & Ls & _ & _ & G & _).
  splits; eauto.
  - destruct (GetOrCreateCompilationKey_frame _ _ _ _ W G)
      as (_ & _ & _ & _ & Lo & _).
    rewrite Ls. auto.
  - now destruct (GetOrCreateCompilationKey_cluster _ _ _ _ G) as (_ & Ef & _).
Qed.

Lemma xla_send_failure_keeps_key_witness :
  exists s m',
    LowerDTensorSendToXlaOp Args321 cpu_layout (OpResult 3 0) 4 false
      orphan_module
    = Fails s m' /\
    GetOrCreateCompilationKey 4 orphan_module = Done (OpResult 9 0) m' /\
    map op_id (mod_ops m') = [9; 3; 4; 5; 6; 7; 8].
Proof.
  eexists _, _. split; [lazy; reflexivity|].
  match goal with
  | |- GetOrCreateCompilationKey _ _ = Done _ ?m' /\ _ =>
      assert (F : LowerDTensorSendToXlaOp Args321 cpu_layout (OpResult 3 0) 4 false
                    orphan_module
                  = Fails (InvalidArgument "DTensorSend is not inside a FuncOp")
                      m') by (lazy; reflexivity);
      assert (W : wf_module orphan_module)
        by (unfold wf_module; simpl; splits;
            [ repeat constructor; simpl; intuition discriminate
            | intros o Ho; repeat (destruct Ho as [<-|Ho]; [simpl; lia|]);
              destruct Ho
            | intros f Hf; repeat (destruct Hf as [<-|Hf]; [simpl; lia|]);
              destruct Hf ]);
      destruct (xla_send_failure_keeps_key Args321 _ _ _ _ _ _ _ W F)
        as (_ & _ & (key & G) & _)
  end.
  split; [lazy; reflexivity|reflexivity].
Defined.

(** Property X17.
    The check [if (!send_cluster)] of the send across the boundary comes
    after [GetOrCreateCompilationKey], which has asserted the cluster: a
    status is only ever reported for a Send that is inside a cluster, and
    never with the message of that check. *)
Theorem xla_send_cluster_check_unreachable :
  forall order L v x zero m s m',
    LowerDTensorSendToXlaOp order L v x zero m = Fails s m' ->
    (exists send cl,
        lookup_op m x = Some send /\
        op_block send = InCluster (cl_id cl) /\
        lookup_cluster m (cl_id cl) = Some cl) /\
    message s <> "DTensorSend is not inside a ClusterOp"%string.
Proof.
  intros order L v x zero m s m' H.
  apply LowerDTensorSendToXlaOp_Fails_inv in H
    as (_ & _ & send & cl & key & Ls & B & Lc & _ & S).
  split; [eauto|].
  destruct S as [->|(fn & D)]; [discriminate|].
  destruct fn as [f|]; cbn in D.
  - unfold bind, get, nonnull in D. destruct (lookup_func m' f) as [g|];
      cbn in D; [|discriminate].
    destruct (fn_arg_types g); cbn in D; inversion D; subst. discriminate.
  - inversion D; subst. discriminate.
Qed.

Lemma xla_send_cluster_check_unreachable_witness :
  exists s m',
    LowerDTensorSendToXlaOp Args321 cpu_layout (OpResult 3 0) 4 false
      orphan_module
    = Fails s m' /\
    message s <> "DTensorSend is not inside a ClusterOp"%string.
Proof.
  eexists _, _. split; [lazy; reflexivity|].
  match goal with
  | |- message ?s <> _ =>
      assert (F : exists m',
                LowerDTensorSendToXlaOp Args321 cpu_layout (OpResult 3 0) 4 false
                  orphan_module = Fails s m')
        by (eexists; lazy; reflexivity)
  end.
  destruct F as (m' & F).
  exact (proj2 (xla_send_cluster_check_unreachable Args321 _ _ _ _ _ _ _ F)).
Defined.

Lemma LowerDTensorRecvToXlaOp_Fails_inv {order} x ty m s m' :
  LowerDTensorRecvToXlaOp order x ty m = Fails s m' ->
  m' = m /\
  exists recv key layout,
    lookup_op m x = Some recv /\ op_kind recv = DTensorRecv key layout /\
    is_cpu_mesh (mesh layout) = true.
Proof.
  unfold LowerDTensorRecvToXlaOp. intros H.
  apply bind_Fails in H as [H|(recv & m0 & E & H)].
  { now apply never_fails_deref in H. }
  apply deref_Done in E as [Ls ->].
  apply bind_Fails in H as [H|([key layout] & m0 & E & H)].
  { now apply never_fails_DTensorRecv_attrs in H. }
  apply DTensorRecv_attrs_Done in E as [K ->].
  destruct (is_cpu_mesh (mesh layout)) eqn:C.
  2:{ exfalso. revert H. unfold DTensorRecv_getType. nofail. }
  assert (R : exists recv key layout,
    lookup_op m x = Some recv /\ op_kind recv = DTensorRecv key layout /\
    is_cpu_mesh (mesh layout) = true) by (exists recv, key, layout; auto).
  split; [|exact R].
  apply bind_Fails in H as [H|(c & m0 & E & H)].
  { now apply never_fails_getParentOfType_ClusterOp in H. }
  apply getParentOfType_ClusterOp_Done in E as [-> _].
  apply bind_Fails in H as [H|(me & m0 & E & H)].
  { unfold ExtractDeviceMeshFromOp, assign_or_return in H.
    destruct c as [c|]; [destruct (cl_mesh c)|]; now inversion H. }
  apply ExtractDeviceMeshFromOp_Done in E as ->.
  destruct me as [me|]; [|now inversion H].
  apply bind_Fails in H as [H|(cl & m0 & E & H)].
  { now apply never_fails_nonnull in H. }
  apply nonnull_Done in E as [_ ->].
  apply bind_Fails in H as [H|(front & m0 & E & H)].
  { now apply never_fails_GetBody_front in H. }
  apply GetBody_front_Done in E as ->.
  apply bind_Fails in H as [H|(fn & m0 & E & H)].
  { now apply never_fails_getParentOfType_FuncOp in H. }
  apply getParentOfType_FuncOp_Done in E as ->.
  apply bind_Fails in H as [H|(ord & m1 & E & H)].
  { now apply GetDeviceOrdinal_Fails_inv in H as [-> _]. }
  exfalso. revert H. nofail.
Qed.

(** Property X18.
    The receive across the boundary reports a status before it has built
    anything: the mesh of the cluster and the device id are asked for first,
    the compilation key is fetched after them.  The module a failure leaves
    is the one the lowering was given; a status is reported only for a Recv
    on a CPU mesh. *)
Theorem xla_recv_failure_builds_nothing :
  forall order x output_type m s m',
    LowerDTensorRecvToXlaOp order x output_type m = Fails s m' ->
    m' = m /\
    exists recv key layout,
      lookup_op m x = Some recv /\ op_kind recv = DTensorRecv key layout /\
      is_cpu_mesh (mesh layout) = true.
Proof. intros order. exact (@LowerDTensorRecvToXlaOp_Fails_inv order). Qed.

Lemma xla_recv_failure_builds_nothing_witness :
  exists s,
    LowerDTensorRecvToXlaOp Args321 6 i32_tensor orphan_module
    = Fails s orphan_module.
Proof.
  assert (F : exists s m',
            LowerDTensorRecvToXlaOp Args321 6 i32_tensor orphan_module = Fails s m')
    by (eexists _, _; lazy; reflexivity).
  destruct F as (s & m' & F). exists s.
  destruct (xla_recv_failure_builds_nothing Args321 _ _ _ _ _ F) as [E _].
  rewrite E in F. exact F.
Defined.


Lemma program_key_not_recv p key l :
  op_kind p = DTensorRecv key l -> is_program_key p = false.
Proof. unfold is_program_key. now intros ->. Qed.





(* ---------- functions, looked up ---------- *)
Lemma find_app_l {A} (p : A -> bool) l l' a :
  find p l = Some a -> find p (l ++ l') = Some a.
Proof.
  induction l as [|b l IH]; cbn; [discriminate|].
  destruct (p b); auto.
Qed.

Lemma find_app_r {A} (p : A -> bool) l l' :
  find p l = None -> find p (l ++ l') = find p l'.
Proof.
  induction l as [|b l IH]; cbn; auto.
  destruct (p b); [discriminate|auto].
Qed.

Lemma lookup_func_In m f g :
  lookup_func m f = Some g -> In g (mod_funcs m) /\ fn_id g = f.
Proof.
  unfold lookup_func. intros H. apply find_some in H as [H1 H2].
  split; auto. now apply Nat.eqb_eq.
Qed.

Lemma lookup_func_lt m f g :
  wf_module m -> lookup_func m f = Some g -> f < next_id m.
Proof.
  intros (_ & _ & Hfn) L. apply lookup_func_In in L as [L <-]. auto.
Qed.

Lemma lookup_func_fresh m f :
  wf_module m -> next_id m <= f -> lookup_func m f = None.
Proof.
  intros W Hf. destruct (lookup_func m f) as [g|] eqn:L; auto.
  apply (lookup_func_lt _ _ _ W) in L. lia.
Qed.

Lemma lookup_func_same m m' f :
  mod_funcs m' = mod_funcs m -> lookup_func m' f = lookup_func m f.
Proof. unfold lookup_func. now intros ->. Qed.

Lemma getType_mono v m m' t :
  (forall x o, lookup_op m x = Some o -> lookup_op m' x = Some o) ->
  (forall f g, lookup_func m f = Some g -> lookup_func m' f = Some g) ->
  getType v m = Done t m -> getType v m' = Done t m'.
Proof.
  intros Lo Lf. unfold getType. destruct v as [x i|f i].
  - destruct (lookup_op m x) as [o|] eqn:L; [|discriminate].
    rewrite (Lo _ _ L). intros H. apply nonnull_Done in H as [-> _].
    reflexivity.
  - destruct (lookup_func m f) as [g|] eqn:L; [|discriminate].
    rewrite (Lf _ _ L). intros H. apply nonnull_Done in H as [-> _].
    reflexivity.
Qed.

Lemma mapM_getType_mono l m m' tys :
  (forall x o, lookup_op m x = Some o -> lookup_op m' x = Some o) ->
  (forall f g, lookup_func m f = Some g -> lookup_func m' f = Some g) ->
  mapM getType l m = Done tys m -> mapM getType l m' = Done tys m'.
Proof.
  intros Lo Lf. revert tys. induction l as [|v l IH]; intros tys H; cbn in *.
  - apply ret_Done in H as [-> _]. reflexivity.
  - apply bind_Done in H as (t & m0 & E & H).
    pose proof (getType_Done _ _ _ _ E) as ->.
    apply bind_Done in H as (ts & m1 & E' & H).
    pose proof (mapM_getType_Done _ _ _ _ E') as ->.
    apply ret_Done in H as [-> _].
    rewrite (bind_step _ _ m' t m') by (eapply getType_mono; eauto).
    rewrite (bind_step _ _ m' ts m') by auto.
    reflexivity.
Qed.

Lemma mapM_getType_length l m tys m' :
  mapM getType l m = Done tys m' -> List.length tys = List.length l.
Proof.
  revert m tys m'. induction l as [|v l IH]; intros m tys m' H; cbn in H.
  - apply ret_Done in H as [-> _]. reflexivity.
  - apply bind_Done in H as (t & m0 & E & H).
    apply bind_Done in H as (ts & m1 & E' & H).
    apply ret_Done in H as [-> _]. cbn. f_equal. eauto.
Qed.

Lemma mapM_getType_hd l m tys m' v :
  mapM getType l m = Done tys m' ->
  nth_error l 0 = Some v ->
  exists t, nth_error tys 0 = Some t /\ getType v m = Done t m.
Proof.
  destruct l as [|v' l]; [discriminate|]. cbn. intros H E.
  inversion E; subst v'.
  apply bind_Done in H as (t & m0 & Et & H).
  pose proof (getType_Done _ _ _ _ Et) as ->.
  apply bind_Done in H as (ts & m1 & E' & H).
  apply ret_Done in H as [-> _]. exists t. auto.
Qed.

Section GenerateBranchesBodies.

Variable OpName : Op -> string.
Variable OpHash : Op -> nat.
Variable V : Type.
Variable fn : OpBuilder -> Loc -> option Value -> V -> M OpId.
Variable Pop : Op -> Prop.

(** what the branch body [fn] makes of the branch function and which
    operations it leaves in it *)
Variable Body : FuncOp -> FuncOp -> V -> list Op -> Prop.

Hypothesis fn_ok :
  forall id loc arg value m r m',
    wf_module m ->
    fn {| ip_block := InFunc id; ip_before := None |} loc arg value m
    = Done r m' ->
    wf_module m' /\
    mod_clusters m' = mod_clusters m /\
    next_id m <= next_id m' /\
    map func_sig (mod_funcs m') = map func_sig (mod_funcs m) /\
    (forall x o, lookup_op m x = Some o -> lookup_op m' x = Some o) /\
    (exists o, lookup_op m' r = Some o) /\
    (forall o, In o (mod_ops m') ->
               In o (mod_ops m) \/ (next_id m <= op_id o /\ Pop o)).

Hypothesis fn_frame :
  forall id loc arg value m r m',
    wf_module m ->
    (forall a, arg = Some a -> a = BlockArgument id 0) ->
    fn {| ip_block := InFunc id; ip_before := None |} loc arg value m
    = Done r m' ->
    forall f g, f <> id -> lookup_func m f = Some g -> lookup_func m' f = Some g.

Hypothesis fn_body :
  forall id loc value m r m' g,
    wf_module m ->
    lookup_func m id = Some g ->
    fn {| ip_block := InFunc id; ip_before := None |} loc
      (if Nat.ltb 0 (List.length (fn_arg_types g))
       then Some (BlockArgument id 0) else None) value m
    = Done r m' ->
    exists g' os,
      lookup_func m' id = Some g' /\
      (forall o, In o os -> lookup_op m' (op_id o) = Some o) /\
      Body g g' value os.

(** one iteration, step by step *)
Lemma GenerateBranches_step op result_types fmt value rest index st m
    branches m' :
  wf_module m ->
  GenerateBranches_from OpName OpHash index op st result_types fmt
    (value :: rest) fn m = Done branches m' ->
  exists tys name st' m2 r m3 m4 branches',
    mapM getType (op_operands op) m = Done tys m /\
    wf_module m2 /\
    mod_ops m2 = mod_ops m /\ next_id m2 = S (next_id m) /\
    mod_funcs m2
    = mod_funcs m
      ++ [branch_func (next_id m) (op_loc op) name tys result_types] /\
    fn {| ip_block := InFunc (next_id m); ip_before := None |} (op_loc op)
      (if Nat.ltb 0 (List.length tys)
       then Some (BlockArgument (next_id m) 0) else None) value m2
    = Done r m3 /\
    wf_module m4 /\ next_id m3 <= next_id m4 /\
    mod_funcs m4 = mod_funcs m3 /\
    (forall x o, lookup_op m3 x = Some o -> lookup_op m4 x = Some o) /\
    GenerateBranches_from OpName OpHash (S index) op st' result_types fmt
      rest fn m4 = Done branches' m' /\
    branches = name :: branches'.
Proof.
  intros W H. cbn [GenerateBranches_from] in H.
  apply bind_Done in H as (tys & m0 & E & H).
  pose proof (mapM_getType_Done _ _ _ _ E) as ->. rename E into Ety.
  apply bind_Done in H as (id & m1 & E & H).
  apply fresh_id_Done in E as (-> & En1 & Eo1 & Ef1 & Ec1).
  apply bind_Done in H as ([name st'] & m2 & E & H).
  apply SymbolTable_insert_Done in E as (Eo2 & Ec2 & En2 & Ef2 & Fresh & Pre).
  assert (W2 : wf_module m2).
  { apply (wf_same_ops m); auto; [congruence|lia|].
    intros f Hf. rewrite Ef2, Ef1 in Hf. apply in_app_iff in Hf as [Hf|Hf].
    - destruct W as (_ & _ & Hfn). apply Hfn in Hf. lia.
    - destruct Hf as [<-|[]]. cbn. lia. }
  apply bind_Done in H as (branch_op & m3 & E & H).
  pose proof (fn_ok _ _ _ _ _ _ _ W2 E)
    as (W3 & Ec3 & En3 & Ef3 & Lo3 & (bo & Lb) & Hin3).
  apply bind_Done in H as (branch & m4 & E' & H).
  apply deref_Done in E' as [Lb' ->].
  apply bind_Done in H as (ret_op & m4 & C & H).
  use_create W3 C.
  apply bind_Done in H as (branches' & m5 & E' & H).
  apply ret_Done in H as [-> <-].
  exists tys, name, st', m2, branch_op, m3, m4, branches'.
  splits; auto; try congruence; try lia.
  rewrite Ef2, Ef1. reflexivity.
Qed.

Lemma GenerateBranches_from_frame op result_types fmt :
  forall values index st m branches m',
    wf_module m ->
    GenerateBranches_from OpName OpHash index op st result_types fmt values
      fn m = Done branches m' ->
    forall f g,
      f < next_id m -> lookup_func m f = Some g -> lookup_func m' f = Some g.
Proof.
  induction values as [|value rest IH]; intros index st m branches m' W H.
  - cbn in H. apply ret_Done in H as [_ ->]. auto.
  - apply (GenerateBranches_step _ _ _ _ _ _ _ _ _ _ W) in H
      as (tys & name & st' & m2 & r & m3 & m4 & branches' & _ & W2 & Eo2 & En2
          & Ef2 & F & W4 & N34 & Ef4 & _ & G & _).
    pose proof (fn_ok _ _ _ _ _ _ _ W2 F) as (_ & _ & N23 & _).
    intros f g Hf L.
    apply (IH _ _ _ _ _ W4 G); [lia|].
    rewrite (lookup_func_same m3 m4) by exact Ef4.
    assert (A : forall a,
              (if Nat.ltb 0 (List.length tys)
               then Some (BlockArgument (next_id m) 0) else None) = Some a ->
              a = BlockArgument (next_id m) 0).
    { intros a. destruct (Nat.ltb 0 (List.length tys)); intros E;
        inversion E; reflexivity. }
    apply (fn_frame _ _ _ _ _ _ _ W2 A F); [lia|].
    unfold lookup_func. rewrite Ef2. now apply find_app_l.
Qed.

Lemma GenerateBranches_from_bodies op result_types fmt :
  forall values index st m branches m',
    wf_module m ->
    GenerateBranches_from OpName OpHash index op st result_types fmt values
      fn m = Done branches m' ->
    forall i value,
      nth_error values i = Some value ->
      exists name tys id g' os,
        nth_error branches i = Some name /\
        mapM getType (op_operands op) m = Done tys m /\
        next_id m <= id /\
        lookup_func m' id = Some g' /\
        (forall o, In o os -> lookup_op m' (op_id o) = Some o) /\
        Body (branch_func id (op_loc op) name tys result_types) g' value os.
Proof.
  induction values as [|value rest IH]; intros index st m branches m' W H i v Hi.
  { destruct i; discriminate. }
  pose proof H as H0.
  apply (GenerateBranches_step _ _ _ _ _ _ _ _ _ _ W) in H
    as (tys & name & st' & m2 & r & m3 & m4 & branches' & Ety & W2 & Eo2 & En2
        & Ef2 & F & W4 & N34 & Ef4 & Lo4 & G & ->).
  pose proof (fn_ok _ _ _ _ _ _ _ W2 F) as (W3 & _ & N23 & _ & Lo3 & _).
  assert (L2 : lookup_func m2 (next_id m)
               = Some (branch_func (next_id m) (op_loc op) name tys
                         result_types)).
  { unfold lookup_func. rewrite Ef2.
    rewrite find_app_r by (apply (lookup_func_fresh m); auto).
    cbn. now rewrite Nat.eqb_refl. }
  destruct (GenerateBranches_from_Done OpName OpHash V fn Pop fn_ok _ _ _ _ _
              _ _ _ _ W4 G) as (_ & _ & _ & Lo5 & _).
  destruct i as [|i].
  - cbn in Hi. inversion Hi; subst v. clear Hi.
    destruct (fn_body _ _ _ _ _ _ _ W2 L2 F) as (g' & os & Lg & Los & B).
    exists name, tys, (next_id m), g', os. splits; auto.
    apply (GenerateBranches_from_frame _ _ _ _ _ _ _ _ _ W4 G); [lia|].
    now rewrite (lookup_func_same m3 m4).
  - cbn in Hi.
    destruct (IH _ _ _ _ _ W4 G i v Hi)
      as (name' & tys' & id & g' & os & Nb & Ety' & Hid & Lg & Los & B).
    assert (Lo04 : forall x o, lookup_op m x = Some o ->
                               lookup_op m4 x = Some o).
    { intros x o L. apply Lo4, Lo3. now rewrite (lookup_same_ops m m2). }
    assert (Lf04 : forall f g, lookup_func m f = Some g ->
                               lookup_func m4 f = Some g).
    { intros f g L. rewrite (lookup_func_same m3 m4) by exact Ef4.
      pose proof (lookup_func_lt _ _ _ W L).
      assert (A : forall a,
                (if Nat.ltb 0 (List.length tys)
                 then Some (BlockArgument (next_id m) 0) else None) = Some a ->
                a = BlockArgument (next_id m) 0).
      { intros a. destruct (Nat.ltb 0 (List.length tys)); intros E;
          inversion E; reflexivity. }
      apply (fn_frame _ _ _ _ _ _ _ W2 A F); [lia|].
      unfold lookup_func. rewrite Ef2. now apply find_app_l. }
    pose proof (mapM_getType_mono _ _ _ _ Lo04 Lf04 Ety) as Ety4.
    rewrite Ety4 in Ety'. inversion Ety'; subst tys'.
    exists name', tys, id, g', os. splits; auto. lia.
Qed.

End GenerateBranchesBodies.

(* ---------- argument attributes ---------- *)
Lemma lookup_func_map (h : FuncOp -> FuncOp) m m' f :
  mod_funcs m' = map h (mod_funcs m) ->
  (forall g, fn_id (h g) = fn_id g) ->
  lookup_func m' f = option_map h (lookup_func m f).
Proof.
  intros E Hh. unfold lookup_func. rewrite E. clear E.
  induction (mod_funcs m) as [|g l IH]; cbn; auto.
  rewrite Hh. destruct (Nat.eqb (fn_id g) f); cbn; auto.
Qed.

Lemma set_nth_0 {A} (a : A) l l' :
  set_nth 0 a l = Some l' -> nth_error l' 0 = Some a.
Proof.
  destruct l as [|b l]; cbn; [discriminate|].
  intros H; inversion H; subst. reflexivity.
Qed.

Lemma setArgAttr_spec f name value m u m' :
  setArgAttr f 0 name value m = Done u m' ->
  mod_ops m' = mod_ops m /\ mod_clusters m' = mod_clusters m /\
  next_id m' = next_id m /\
  (forall f' g, f' <> f -> lookup_func m f' = Some g ->
                lookup_func m' f' = Some g) /\
  exists g old attrs,
    lookup_func m f = Some g /\
    nth_error (fn_arg_attrs g) 0 = Some old /\
    nth_error attrs 0 = Some ((name, value) :: old) /\
    lookup_func m' f = Some (with_arg_attrs g attrs).
Proof.
  unfold setArgAttr. intros H.
  apply bind_Done in H as (m0' & m0 & G & H). apply get_Done in G as [-> ->].
  apply bind_Done in H as (g & m0 & E & H). apply nonnull_Done in E as [Lg ->].
  apply bind_Done in H as (old & m0 & E & H).
  apply nonnull_Done in E as [Old ->].
  apply bind_Done in H as (attrs & m0 & E & H).
  apply nonnull_Done in E as [At ->].
  apply update_funcs_Done in H as (Eo & Ef & Ec & En).
  set (h := fun g0 : FuncOp =>
              if Nat.eqb (fn_id g0) f then with_arg_attrs g0 attrs else g0)
    in Ef.
  assert (Hh : forall g0, fn_id (h g0) = fn_id g0).
  { intros g0. unfold h. now destruct (Nat.eqb (fn_id g0) f). }
  pose proof (lookup_func_map h m m' ) as Lm.
  splits; auto.
  - intros f' g0 Hf L. rewrite (Lm f' Ef Hh), L. cbn. f_equal.
    apply lookup_func_In in L as [_ L]. unfold h.
    replace (Nat.eqb (fn_id g0) f) with false; auto.
    symmetry. apply Nat.eqb_neq. congruence.
  - exists g, old, attrs. splits; auto.
    + eapply set_nth_0; eauto.
    + rewrite (Lm f Ef Hh), Lg. cbn. f_equal.
      apply lookup_func_In in Lg as [_ Lg]. unfold h.
      now rewrite Lg, Nat.eqb_refl.
Qed.

(* ---------- the body of a send branch ---------- *)
Lemma send_branch_frame kCustomDeviceAttr send_layout i32_copy tensor_name :
  forall id loc arg value m r m',
    wf_module m ->
    (forall a, arg = Some a -> a = BlockArgument id 0) ->
    send_branch kCustomDeviceAttr send_layout i32_copy tensor_name
      {| ip_block := InFunc id; ip_before := None |} loc arg value m
    = Done r m' ->
    forall f g, f <> id -> lookup_func m f = Some g -> lookup_func m' f = Some g.
Proof.
  intros id loc arg value m r m' W A H f g Hf L. unfold send_branch in H.
  apply bind_Done in H as ([f0 i] & m0 & E & H).
  apply arg_func_Done in E as [-> Ea].
  specialize (A _ Ea). inversion A; subst f0 i.
  apply bind_Done in H as (u & m1 & E & H).
  apply setArgAttr_spec in E as (_ & _ & _ & Fr & _).
  apply Fr in L; [|exact Hf].
  apply bind_Done in H as (val & m2 & E & H).
  apply create_Done in H as (_ & _ & _ & Ef3 & _).
  rewrite (lookup_func_same m2 m') by exact Ef3.
  destruct i32_copy.
  - apply bind_Done in E as (vt & m0 & E' & E).
    apply getType_Done in E' as ->.
    apply bind_Done in E as (cast & m3 & C & E).
    apply ret_Done in E as [_ ->].
    apply create_Done in C as (_ & _ & _ & Ef2 & _).
    now rewrite (lookup_func_same m1 m3).
  - apply ret_Done in E as [_ ->]. exact L.
Qed.

Lemma send_branch_body kCustomDeviceAttr send_layout i32_copy tensor_name :
  forall id loc value m r m' g,
    wf_module m ->
    lookup_func m id = Some g ->
    send_branch kCustomDeviceAttr send_layout i32_copy tensor_name
      {| ip_block := InFunc id; ip_before := None |} loc
      (if Nat.ltb 0 (List.length (fn_arg_types g))
       then Some (BlockArgument id 0) else None) value m
    = Done r m' ->
    exists g' os,
      lookup_func m' id = Some g' /\
      (forall o, In o os -> lookup_op m' (op_id o) = Some o) /\
      exists t old attrs host_send,
        nth_error (fn_arg_types g) 0 = Some t /\
        nth_error (fn_arg_attrs g) 0 = Some old /\
        nth_error attrs 0
        = Some ((kCustomDeviceAttr, ToString send_layout) :: old) /\
        g' = with_arg_attrs g attrs /\
        In host_send os /\
        op_kind host_send
        = _HostSendOp tensor_name (fst value) 0 (snd value) false /\
        op_block host_send = InFunc id /\
        if i32_copy then
          exists cast,
            In cast os /\ op_kind cast = CastOp /\
            op_operands cast = [BlockArgument id 0] /\
            op_types cast = [RankedTensorType (getShape t) (IntegerType 64)] /\
            op_block cast = InFunc id /\
            op_operands host_send = [OpResult (op_id cast) 0]
        else op_operands host_send = [BlockArgument id 0].
Proof.
  intros id loc value m r m' g W Lg H. unfold send_branch in H.
  apply bind_Done in H as ([f0 i] & m0 & E & H).
  apply arg_func_Done in E as [-> Ea].
  destruct (Nat.ltb 0 (List.length (fn_arg_types g))) eqn:Lt; [|discriminate].
  inversion Ea; subst f0 i. clear Ea.
  apply bind_Done in H as (u & m1 & E & H).
  pose proof (setArgAttr_Done _ _ _ _ _ _ _ E) as (Eo1 & Ec1 & En1 & Ef1).
  apply setArgAttr_spec in E
    as (_ & _ & _ & _ & g0 & old & attrs & Lg0 & Old & At & Lg1).
  rewrite Lg in Lg0. inversion Lg0; subst g0. clear Lg0.
  assert (W1 : wf_module m1) by (eapply wf_funcs_sig; eauto).
  apply bind_Done in H as (val & m2 & E & H).
  destruct i32_copy.
  - apply bind_Done in E as (vt & m0 & E' & E).
    pose proof (getType_Done _ _ _ _ E') as ->.
    unfold getType in E'. rewrite Lg1 in E'.
    apply nonnull_Done in E' as [Et _]. cbn [with_arg_attrs fn_arg_types] in Et.
    apply bind_Done in E as (cast & m3 & C & E).
    apply ret_Done in E as [-> ->].
    pose proof (create_Done _ _ _ _ _ _ _ _ C) as (_ & _ & _ & Ef2 & _).
    pose proof (create_Done _ _ _ _ _ _ _ _ H) as (_ & _ & _ & Ef3 & _).
    use_create W1 C. use_create W0 H.
    exists (with_arg_attrs g attrs),
      [new_op {| ip_block := InFunc id; ip_before := None |} loc CastOp
         [BlockArgument id 0]
         [RankedTensorType (getShape vt) (IntegerType 64)] m1;
       new_op {| ip_block := InFunc id; ip_before := None |} loc
         (_HostSendOp tensor_name (fst value) 0 (snd value) false)
         [OpResult cast 0] [] m3].
    splits.
    + rewrite (lookup_func_same m3 m'), (lookup_func_same m1 m3); auto.
    + intros o [<-|[<-|[]]]; cbn [new_op op_id].
      * apply Lo0. subst cast. exact Ln.
      * subst r. exact Ln0.
    + exists vt, old, attrs.
      exists (new_op {| ip_block := InFunc id; ip_before := None |} loc
                (_HostSendOp tensor_name (fst value) 0 (snd value) false)
                [OpResult cast 0] [] m3).
      split; [exact Et|]. split; [exact Old|]. split; [exact At|].
      split; [reflexivity|]. split; [right; left; reflexivity|].
      split; [reflexivity|]. split; [reflexivity|].
      exists (new_op {| ip_block := InFunc id; ip_before := None |} loc CastOp
                [BlockArgument id 0]
                [RankedTensorType (getShape vt) (IntegerType 64)] m1).
      split; [left; reflexivity|]. split; [reflexivity|].
      split; [reflexivity|]. split; [reflexivity|]. split; [reflexivity|].
      cbn [new_op op_operands op_id]. now subst cast.
  - apply ret_Done in E as [-> ->].
    pose proof (create_Done _ _ _ _ _ _ _ _ H) as (_ & _ & _ & Ef3 & _).
    use_create W1 H.
    assert (exists t, nth_error (fn_arg_types g) 0 = Some t) as (t & Et).
    { destruct (fn_arg_types g) as [|t ts]; [|cbn; eauto].
      cbn in Lt. discriminate. }
    exists (with_arg_attrs g attrs),
      [new_op {| ip_block := InFunc id; ip_before := None |} loc
         (_HostSendOp tensor_name (fst value) 0 (snd value) false)
         [BlockArgument id 0] [] m1].
    splits.
    + now rewrite (lookup_func_same m1 m').
    + intros o [<-|[]]; cbn [new_op op_id]. subst r. exact Ln.
    + exists t, old, attrs.
      exists (new_op {| ip_block := InFunc id; ip_before := None |} loc
                (_HostSendOp tensor_name (fst value) 0 (snd value) false)
                [BlockArgument id 0] [] m1).
      split; [exact Et|]. split; [exact Old|]. split; [exact At|].
      split; [reflexivity|]. split; [left; reflexivity|].
      split; [reflexivity|]. split; reflexivity.
Qed.

(* ---------- the body of a receive branch ---------- *)
Lemma recv_branch_frame kLayoutAttr recv_layout type tensor_name :
  forall id loc arg value m r m',
    wf_module m ->
    (forall a, arg = Some a -> a = BlockArgument id 0) ->
    recv_branch kLayoutAttr recv_layout type tensor_name
      {| ip_block := InFunc id; ip_before := None |} loc arg value m
    = Done r m' ->
    forall f g, f <> id -> lookup_func m f = Some g -> lookup_func m' f = Some g.
Proof.
  intros id loc arg value m r m' W _ H f g _ L. unfold recv_branch in H.
  apply bind_Done in H as (r0 & m1 & C & H).
  apply create_Done in C as (_ & _ & _ & Ef1 & _).
  apply bind_Done in H as (u & m2 & S & H).
  apply ret_Done in H as [_ ->].
  unfold SetSingleLayoutOnOp, setAttr in S.
  apply update_ops_Done in S as (_ & _ & Ef2 & _).
  rewrite (lookup_func_same m m2) by congruence. exact L.
Qed.

Lemma recv_branch_body kLayoutAttr recv_layout type tensor_name :
  forall id loc arg value m r m' g,
    wf_module m ->
    lookup_func m id = Some g ->
    recv_branch kLayoutAttr recv_layout type tensor_name
      {| ip_block := InFunc id; ip_before := None |} loc arg value m
    = Done r m' ->
    exists g' os,
      lookup_func m' id = Some g' /\
      (forall o, In o os -> lookup_op m' (op_id o) = Some o) /\
      g' = g /\
      exists host_recv,
        os = [host_recv] /\
        op_kind host_recv
        = _HostRecvOp tensor_name (fst value) 0 (snd value) /\
        op_operands host_recv = [] /\
        op_types host_recv = [type] /\
        op_attrs host_recv = [(kLayoutAttr, ToString recv_layout)] /\
        op_block host_recv = InFunc id.
Proof.
  intros id loc arg value m r m' g W Lg H. unfold recv_branch in H.
  apply bind_Done in H as (r0 & m1 & C & H).
  pose proof (create_Done _ _ _ _ _ _ _ _ C) as (_ & _ & _ & Ef1 & _).
  use_create W C.
  apply bind_Done in H as (u & m2 & S & H).
  apply ret_Done in H as [-> <-].
  unfold SetSingleLayoutOnOp, setAttr in S.
  set (f := fun o : Op =>
              if Nat.eqb (op_id o) r0
              then with_attr kLayoutAttr (ToString recv_layout) o else o) in S.
  assert (Hf : forall o, op_id (f o) = op_id o).
  { intros o. unfold f. now destruct (Nat.eqb (op_id o) r0). }
  apply (update_ops_spec f _ _ _ Hf W0) in S
    as (W2 & Eo2 & Ec2 & Ef2 & En2 & Lk2).
  exists g,
    [with_attr kLayoutAttr (ToString recv_layout)
       (new_op {| ip_block := InFunc id; ip_before := None |} loc
          (_HostRecvOp tensor_name (fst value) 0 (snd value)) [] [type] m)].
  splits; auto.
  - rewrite (lookup_func_same m m') by congruence. exact Lg.
  - intros o [<-|[]]. cbn [with_attr new_op op_id].
    rewrite Lk2. subst r0. rewrite Ln. cbn [option_map]. f_equal.
    unfold f. cbn [new_op op_id]. now rewrite Nat.eqb_refl.
  - eexists. splits; reflexivity.
Qed.

Lemma nth_error_combine {A B} (l1 : list A) (l2 : list B) i a b :
  nth_error l1 i = Some a -> nth_error l2 i = Some b ->
  nth_error (combine l1 l2) i = Some (a, b).
Proof.
  revert l2 i. induction l1 as [|x l1 IH]; intros l2 i H1 H2.
  - destruct i; discriminate.
  - destruct l2 as [|y l2]; [destruct i; discriminate|].
    destruct i as [|i]; cbn in *.
    + now inversion H1; inversion H2; subst.
    + auto.
Qed.

(* ---------- the steps of the one-to-one send ---------- *)
Lemma LowerOneToOneSend_steps {order} OpName OpHash kCustomDeviceAttr
    send_layout recv_mesh x m r m' :
  LowerOneToOneDTensorSendToTFHostSend OpName OpHash kCustomDeviceAttr order
    send_layout recv_mesh x m = Done r m' ->
  exists send key tl input input_type cluster me fn ord m1 branches m2 m3,
    lookup_op m x = Some send /\ op_kind send = DTensorSend key tl /\
    nth_error (op_operands send) 0 = Some input /\
    getType input m = Done input_type m /\
    op_block send = InCluster (cl_id cluster) /\
    lookup_cluster m (cl_id cluster) = Some cluster /\
    cl_mesh cluster = OkValue (Some me) /\
    GetDeviceOrdinal order me (op_loc send) fn (OpBuilder_at send) false m
    = Done ord m1 /\
    GenerateBranches_from OpName OpHash 0 send {| uniquingCounter := 0 |}
      [] "{0}_send_{1}_{2}"
      (combine (local_devices (mesh send_layout)) (local_devices recv_mesh))
      (send_branch kCustomDeviceAttr send_layout
         (isInteger 32 (getElementType input_type)) key) m1
    = Done branches m2 /\
    create (OpBuilder_at send) (op_loc send) (CaseOp branches false)
      (ord :: op_operands send) [] m2 = Done r m3 /\
    (if String.eqb (device_type recv_mesh) "GPU"
     then erase x m3 = Done tt m' else m' = m3).
Proof.
  intros H. unfold LowerOneToOneDTensorSendToTFHostSend in H.
  apply bind_Done in H as (send & m0 & E & H). apply deref_Done in E as [Ls ->].
  apply bind_Done in H as ([key tl] & m0 & E & H).
  apply DTensorSend_attrs_Done in E as [K ->].
  apply bind_Done in H as (input & m0 & E & H).
  apply nonnull_Done in E as [In0 ->].
  apply bind_Done in H as (ity & m0 & Ety & H).
  pose proof (getType_Done _ _ _ _ Ety) as ->.
  apply bind_Done in H as (cl & m0 & Ecl & H).
  pose proof (getParentOfType_ClusterOp_Done _ _ _ _ Ecl) as [-> Cl].
  apply bind_Done in H as (fn & m0 & E & H).
  apply bind_Done in E as (c & m1 & E1 & E). apply nonnull_Done in E1 as [-> ->].
  apply getParentOfType_FuncOp_Done in E as ->.
  specialize (Cl c eq_refl).
  assert (Lc : lookup_cluster m (cl_id c) = Some c).
  { unfold getParentOfType_ClusterOp in Ecl. rewrite Cl in Ecl.
    now inversion Ecl. }
  apply bind_Done in H as (me & m0 & Em & H).
  pose proof (ExtractDeviceMeshFromOp_Done _ _ _ _ Em) as ->.
  apply bind_Done in H as (me' & m0 & E & H). apply nonnull_Done in E as [-> ->].
  assert (Me : cl_mesh c = OkValue (Some me')).
  { cbn in Em. unfold assign_or_return in Em.
    destruct (cl_mesh c); inversion Em; subst; reflexivity. }
  apply bind_Done in H as (ord & m1 & Eord & H).
  apply bind_Done in H as (branches & m2 & EG & H).
  apply bind_Done in H as (case_op & m3 & EC & H).
  apply bind_Done in H as ([] & m4 & EE & H).
  apply ret_Done in H as [<- <-].
  exists send, key, tl, input, ity, c, me', fn, ord, m1, branches, m2, m3.
  splits; auto.
  destruct (String.eqb (device_type recv_mesh) "GPU"); auto.
  now apply ret_Done in EE as [_ ->].
Qed.

(** what the one-to-one send leaves for the pair of devices [i] *)
Lemma one_to_one_send_bodies {order} OpName OpHash kCustomDeviceAttr send_layout
    recv_mesh x m r m' :
  wf_module m ->
  LowerOneToOneDTensorSendToTFHostSend OpName OpHash kCustomDeviceAttr order
    send_layout recv_mesh x m = Done r m' ->
  exists send key tl input input_type branches,
    lookup_op m x = Some send /\ op_kind send = DTensorSend key tl /\
    nth_error (op_operands send) 0 = Some input /\
    getType input m = Done input_type m /\
    (exists case_op,
        lookup_op m' r = Some case_op /\
        op_kind case_op = CaseOp branches false) /\
    forall i sd rd,
      nth_error (local_devices (mesh send_layout)) i = Some sd ->
      nth_error (local_devices recv_mesh) i = Some rd ->
      exists name g host_send,
        nth_error branches i = Some name /\
        next_id m <= fn_id g /\
        lookup_func m' (fn_id g) = Some g /\
        sym_name g = name /\ sym_visibility g = Private /\
        List.length (fn_arg_types g) = List.length (op_operands send) /\
        nth_error (fn_arg_types g) 0 = Some input_type /\
        fn_result_types g = [] /\
        nth_error (fn_arg_attrs g) 0
        = Some [(kCustomDeviceAttr, ToString send_layout)] /\
        lookup_op m' (op_id host_send) = Some host_send /\
        op_kind host_send = _HostSendOp key sd 0 rd false /\
        op_block host_send = InFunc (fn_id g) /\
        if isInteger 32 (getElementType input_type) then
          exists cast,
            lookup_op m' (op_id cast) = Some cast /\
            op_kind cast = CastOp /\
            op_operands cast = [BlockArgument (fn_id g) 0] /\
            op_types cast
            = [RankedTensorType (getShape input_type) (IntegerType 64)] /\
            op_block cast = InFunc (fn_id g) /\
            op_operands host_send = [OpResult (op_id cast) 0]
        else op_operands host_send = [BlockArgument (fn_id g) 0].
Proof.
  intros W H.
  apply LowerOneToOneSend_steps in H
    as (send & key & tl & input & ity & cl & me & fn & ord & m1 & branches
        & m2 & m3 & Ls & K & In0 & Ety & _ & _ & _ & Eord & EG & EC & EE).
  destruct (GetDeviceOrdinal_Done _ _ _ _ _ _ _ _ W Eord)
    as (_ & _ & _ & _ & W1 & Ef1 & _ & En1 & _ & Lo1 & _).
  destruct (GenerateBranches_from_Done OpName OpHash _ _ (fun _ => True)
              (send_branch_ok _ _ _ _) _ _ _ _ _ _ _ _ _ W1 EG)
    as (W2 & _ & En2 & Lo2 & _).
  pose proof (create_Done _ _ _ _ _ _ _ _ EC) as (_ & _ & _ & Ef3 & _).
  apply (create_spec _ _ _ _ _ _ _ _ W2) in EC
    as (W3 & Er & En3 & _ & _ & Ln & Lo3 & _).
  assert (Hx : x < next_id m) by (eapply wf_lookup_lt; eauto).
  assert (Fin : mod_funcs m' = mod_funcs m3 /\
                (forall y o, y <> x -> lookup_op m3 y = Some o ->
                             lookup_op m' y = Some o)).
  { destruct (String.eqb (device_type recv_mesh) "GPU").
    - apply (erase_spec _ _ _ _ W3) in EE
        as (_ & _ & _ & _ & Ef' & _ & Lo' & _).
      split; auto. intros y o Hy L. now rewrite Lo'.
    - subst m'. auto. }
  destruct Fin as (Ef' & Lo').
  assert (Lf01 : forall f g, lookup_func m f = Some g ->
                             lookup_func m1 f = Some g).
  { intros f g L. now rewrite (lookup_func_same m m1). }
  pose proof (getType_mono _ _ _ _ Lo1 Lf01 Ety) as Ety1.
  exists send, key, tl, input, ity, branches.
  split; [exact Ls|]. split; [exact K|]. split; [exact In0|].
  split; [exact Ety|]. split.
  { eexists. split; [apply Lo'; [lia|]; subst r; exact Ln|reflexivity]. }
  intros i sd rd Hsd Hrd.
  pose proof (nth_error_combine _ _ _ _ _ Hsd Hrd) as Hi.
  destruct (GenerateBranches_from_bodies OpName OpHash _ _ (fun _ => True)
              (fun g g' (value : string * string) os =>
                 exists t old attrs host_send,
                   nth_error (fn_arg_types g) 0 = Some t /\
                   nth_error (fn_arg_attrs g) 0 = Some old /\
                   nth_error attrs 0
                   = Some ((kCustomDeviceAttr, ToString send_layout) :: old) /\
                   g' = with_arg_attrs g attrs /\
                   In host_send os /\
                   op_kind host_send
                   = _HostSendOp key (fst value) 0 (snd value) false /\
                   op_block host_send = InFunc (fn_id g) /\
                   if isInteger 32 (getElementType ity) then
                     exists cast,
                       In cast os /\ op_kind cast = CastOp /\
                       op_operands cast = [BlockArgument (fn_id g) 0] /\
                       op_types cast
                       = [RankedTensorType (getShape t) (IntegerType 64)] /\
                       op_block cast = InFunc (fn_id g) /\
                       op_operands host_send = [OpResult (op_id cast) 0]
                   else op_operands host_send = [BlockArgument (fn_id g) 0])
              (send_branch_ok _ _ _ _) (send_branch_frame _ _ _ _)
              ltac:(intros id loc value m0 r0 m0' g W0 Lg Hb;
                    pose proof (lookup_func_In _ _ _ Lg) as [_ Eid];
                    rewrite Eid;
                    exact (send_branch_body _ _ _ _ _ _ _ _ _ _ _ W0 Lg Hb))
              _ _ _ _ _ _ _ _ _ W1 EG i (sd, rd) Hi)
    as (name & tys & id & g' & os & Nb & Etys & Hid & Lg & Los
        & t & old & attrs & hs & Et & Old & At & -> & Hhs & Khs & Bhs & Cast).
  cbn [branch_func fn_arg_types fn_arg_attrs fn_id fst snd] in *.
  destruct (mapM_getType_hd _ _ _ _ _ Etys In0) as (t' & Et' & Ety1').
  rewrite Ety1 in Ety1'. inversion Ety1'; subst t'.
  rewrite Et in Et'. inversion Et'; subst t. clear Et'.
  assert (Old' : old = []).
  { destruct tys; [discriminate|]. cbn in Old. now inversion Old. }
  subst old.
  assert (Keep : forall o,
    lookup_op m2 (op_id o) = Some o -> op_kind o <> op_kind send ->
    lookup_op m' (op_id o) = Some o).
  { intros o L Hk. apply Lo'; [|apply Lo3; exact L].
    intros Ex. rewrite Ex in L.
    assert (Lx : lookup_op m2 x = Some send) by auto.
    rewrite Lx in L. inversion L; subst o. now apply Hk. }
  exists name, (with_arg_attrs (branch_func id (op_loc send) name tys []) attrs),
    hs.
  cbn [with_arg_attrs branch_func fn_id sym_name sym_visibility fn_arg_types
       fn_result_types fn_arg_attrs].
  split; [exact Nb|]. split; [lia|]. split.
  { rewrite (lookup_func_same m3 m') by exact Ef'.
    now rewrite (lookup_func_same m2 m3) by exact Ef3. }
  split; [reflexivity|]. split; [reflexivity|]. split.
  { eapply mapM_getType_length; eauto. }
  split; [exact Et|]. split; [reflexivity|]. split; [exact At|].
  split.
  { apply Keep; [now apply Los|]. rewrite Khs, K. discriminate. }
  split; [exact Khs|]. split; [exact Bhs|].
  destruct (isInteger 32 (getElementType ity)).
  - destruct Cast as (cast & Hc & Kc & Oc & Tc & Bc & Oh).
    exists cast. splits; auto.
    apply Keep; [now apply Los|]. rewrite Kc, K. discriminate.
  - exact Cast.
Qed.

(** what the one-to-one receive leaves for the pair of devices [i] *)
Lemma one_to_one_recv_bodies {order} OpName OpHash kLayoutAttr LocalType
    send_mesh recv_layout x m r m' :
  wf_module m ->
  LowerOneToOneDTensorRecvToTFHostRecv OpName OpHash kLayoutAttr LocalType order
    send_mesh recv_layout x m = Done r m' ->
  exists recv key layout recv_type local branches,
    lookup_op m x = Some recv /\ op_kind recv = DTensorRecv key layout /\
    nth_error (op_types recv) 0 = Some recv_type /\
    LocalType layout recv_type = OkValue local /\
    (exists case_id case_op,
        lookup_op m' case_id = Some case_op /\
        op_kind case_op = CaseOp branches false) /\
    forall i sd rd,
      nth_error (local_devices send_mesh) i = Some sd ->
      nth_error (local_devices (mesh recv_layout)) i = Some rd ->
      exists name g host_recv,
        nth_error branches i = Some name /\
        next_id m <= fn_id g /\
        lookup_func m' (fn_id g) = Some g /\
        sym_name g = name /\ sym_visibility g = Private /\
        List.length (fn_arg_types g) = List.length (op_operands recv) /\
        fn_result_types g = [declared_output_type recv_type local] /\
        lookup_op m' (op_id host_recv) = Some host_recv /\
        op_kind host_recv = _HostRecvOp key sd 0 rd /\
        op_operands host_recv = [] /\
        op_types host_recv = [declared_output_type recv_type local] /\
        op_attrs host_recv = [(kLayoutAttr, ToString recv_layout)] /\
        op_block host_recv = InFunc (fn_id g).
Proof.
  intros W H.
  destruct (LowerOneToOneRecv_steps _ _ _ _ _ _ _ _ _ _ H)
    as (recv & key & layout & cluster & me & fn & ord & m1 & recv_type
        & local & branches & m2 & case_id & m3 & m4 & m5 & Ls & K & Eord
        & Ety & ELT & EG & EC & EL & ER & EE).
  set (wide := declared_output_type recv_type local) in *.
  assert (Hx : x < next_id m) by (eapply wf_lookup_lt; eauto).
  destruct (GetDeviceOrdinal_Done _ _ _ _ _ _ _ _ W Eord)
    as (_ & _ & _ & _ & W1 & Ef1 & _ & En1 & _ & Lo1 & _).
  destruct (GenerateBranches_from_Done OpName OpHash _ _ _
              (recv_branch_ok _ _ _ _) _ _ _ _ _ _ _ _ _ W1 EG)
    as (W2 & _ & En2 & Lo2 & _).
  pose proof (create_Done _ _ _ _ _ _ _ _ EC) as (_ & _ & _ & Ef3 & _).
  apply (create_spec _ _ _ _ _ _ _ _ W2) in EC
    as (W3 & Er3 & En3 & _ & _ & Ln3 & Lo3 & _).
  assert (Step4 : wf_module m4 /\ mod_funcs m4 = mod_funcs m3 /\
                  (forall y o, lookup_op m3 y = Some o ->
                               lookup_op m4 y = Some o)).
  { destruct (isInteger 32 (getElementType recv_type)).
    - pose proof (create_Done _ _ _ _ _ _ _ _ EL) as (_ & _ & _ & Ef4 & _).
      apply (create_spec _ _ _ _ _ _ _ _ W3) in EL
        as (W4 & _ & _ & _ & _ & _ & Lo4 & _). auto.
    - destruct EL as [_ ->]. auto. }
  destruct Step4 as (W4 & Ef4 & Lo4).
  apply (Value_replaceAllUsesWith_spec _ _ _ _ _ W4) in ER
    as (W5 & _ & _ & Ef5 & _ & Lk5).
  apply (erase_spec _ _ _ _ W5) in EE
    as (_ & _ & _ & _ & Ef6 & _ & Lo6 & _).
  assert (Funcs : mod_funcs m' = mod_funcs m2) by congruence.
  exists recv, key, layout, recv_type, local, branches.
  split; [exact Ls|]. split; [exact K|]. split; [exact Ety|].
  split; [exact ELT|]. split.
  { exists case_id. eexists. split.
    - rewrite Lo6 by lia. rewrite Lk5, (Lo4 _ _ Ln3). reflexivity.
    - reflexivity. }
  intros i sd rd Hsd Hrd.
  pose proof (nth_error_combine _ _ _ _ _ Hsd Hrd) as Hi.
  destruct (GenerateBranches_from_bodies OpName OpHash _ _ _
              (fun g g' (value : string * string) os =>
                 g' = g /\
                 exists host_recv,
                   os = [host_recv] /\
                   op_kind host_recv
                   = _HostRecvOp key (fst value) 0 (snd value) /\
                   op_operands host_recv = [] /\
                   op_types host_recv = [wide] /\
                   op_attrs host_recv = [(kLayoutAttr, ToString recv_layout)] /\
                   op_block host_recv = InFunc (fn_id g))
              (recv_branch_ok _ _ _ _) (recv_branch_frame _ _ _ _)
              ltac:(intros id loc value m0 r0 m0' g W0 Lg Hb;
                    pose proof (lookup_func_In _ _ _ Lg) as [_ Eid];
                    rewrite Eid;
                    exact (recv_branch_body _ _ _ _ _ _ _ _ _ _ _ _ W0 Lg Hb))
              _ _ _ _ _ _ _ _ _ W1 EG i (sd, rd) Hi)
    as (name & tys & id & g' & os & Nb & Etys & Hid & Lg & Los
        & -> & hr & -> & Khr & Ohr & Thr & Ahr & Bhr).
  cbn [branch_func fn_id fst snd] in *.
  exists name, (branch_func id (op_loc recv) name tys [wide]), hr.
  cbn [branch_func fn_id sym_name sym_visibility fn_arg_types
       fn_result_types].
  split; [exact Nb|]. split; [lia|]. split.
  { now rewrite (lookup_func_same m2 m') by exact Funcs. }
  split; [reflexivity|]. split; [reflexivity|]. split.
  { eapply mapM_getType_length; eauto. }
  split; [reflexivity|]. split.
  { pose proof (Los hr (or_introl eq_refl)) as L.
    assert (Hne : op_id hr <> x).
    { intros Ex. rewrite Ex in L.
      assert (Lx : lookup_op m2 x = Some recv) by auto.
      rewrite Lx in L. inversion L; subst hr. rewrite K in Khr.
      discriminate. }
    rewrite Lo6 by exact Hne. rewrite Lk5, (Lo4 _ _ (Lo3 _ _ L)).
    cbn [option_map]. f_equal. now apply map_operands_nil. }
  splits; auto.
Qed.

(** Property X21.
    The one-to-one send pairs the devices by position: for every [i] with
    an [i]-th local device on both sides, the [i]-th entry of the branch
    table of the [Case] names a private function that takes the operands of
    the abstract Send, returns nothing, carries the string form of the
    sending layout as the custom-device attribute of its first argument, and
    holds a [_HostSend], under the key of the abstract Send, from the [i]-th
    sending device to the [i]-th receiving device. *)
Theorem one_to_one_send_pairs_devices :
  forall order OpName OpHash kCustomDeviceAttr send_layout recv_mesh x m r m',
    wf_module m ->
    LowerOneToOneDTensorSendToTFHostSend OpName OpHash kCustomDeviceAttr order
      send_layout recv_mesh x m = Done r m' ->
    exists send key tl branches case_op,
      lookup_op m x = Some send /\ op_kind send = DTensorSend key tl /\
      lookup_op m' r = Some case_op /\
      op_kind case_op = CaseOp branches false /\
      forall i sd rd,
        nth_error (local_devices (mesh send_layout)) i = Some sd ->
        nth_error (local_devices recv_mesh) i = Some rd ->
        exists name g host_send,
          nth_error branches i = Some name /\
          lookup_func m' (fn_id g) = Some g /\
          sym_name g = name /\ sym_visibility g = Private /\
          List.length (fn_arg_types g) = List.length (op_operands send) /\
          fn_result_types g = [] /\
          nth_error (fn_arg_attrs g) 0
          = Some [(kCustomDeviceAttr, ToString send_layout)] /\
          lookup_op m' (op_id host_send) = Some host_send /\
          op_kind host_send = _HostSendOp key sd 0 rd false /\
          op_block host_send = InFunc (fn_id g).
Proof.
  intros order OpName OpHash kC send_layout recv_mesh x m r m' W H.
  destruct (one_to_one_send_bodies _ _ _ _ _ _ _ _ _ W H)
    as (send & key & tl & input & ity & branches & Ls & K & _ & _
        & (case_op & Lc & Kc) & Each).
  exists send, key, tl, branches, case_op. splits; auto.
  intros i sd rd Hsd Hrd.
  destruct (Each i sd rd Hsd Hrd)
    as (name & g & hs & A1 & _ & A2 & A3 & A4 & A5 & _ & A6 & A7 & A8 & A9
        & A10 & _).
  exists name, g, hs. splits; auto.
Qed.

(** Property X22.
    The one-to-one send widens 32-bit integers inside the branch: when the
    value sent has 32-bit integer elements every branch function casts its
    argument to a 64-bit integer tensor of the same shape and sends the
    result of the cast; for every other element type it sends its argument
    as it is. *)
Theorem one_to_one_send_widens_i32 :
  forall order OpName OpHash kCustomDeviceAttr send_layout recv_mesh x m r m',
    wf_module m ->
    LowerOneToOneDTensorSendToTFHostSend OpName OpHash kCustomDeviceAttr order
      send_layout recv_mesh x m = Done r m' ->
    exists send input input_type,
      lookup_op m x = Some send /\
      nth_error (op_operands send) 0 = Some input /\
      getType input m = Done input_type m /\
      forall i sd rd,
        nth_error (local_devices (mesh send_layout)) i = Some sd ->
        nth_error (local_devices recv_mesh) i = Some rd ->
        exists g host_send key,
          lookup_func m' (fn_id g) = Some g /\
          nth_error (fn_arg_types g) 0 = Some input_type /\
          lookup_op m' (op_id host_send) = Some host_send /\
          op_kind host_send = _HostSendOp key sd 0 rd false /\
          op_block host_send = InFunc (fn_id g) /\
          if isInteger 32 (getElementType input_type) then
            exists cast,
              lookup_op m' (op_id cast) = Some cast /\
              op_kind cast = CastOp /\
              op_operands cast = [BlockArgument (fn_id g) 0] /\
              op_types cast
              = [RankedTensorType (getShape input_type) (IntegerType 64)] /\
              op_block cast = InFunc (fn_id g) /\
              op_operands host_send = [OpResult (op_id cast) 0]
          else op_operands host_send = [BlockArgument (fn_id g) 0].
Proof.
  intros order OpName OpHash kC send_layout recv_mesh x m r m' W H.
  destruct (one_to_one_send_bodies _ _ _ _ _ _ _ _ _ W H)
    as (send & key & tl & input & ity & branches & Ls & K & In0 & Ety
        & _ & Each).
  exists send, input, ity. splits; auto.
  intros i sd rd Hsd Hrd.
  destruct (Each i sd rd Hsd Hrd)
    as (name & g & hs & _ & _ & A2 & _ & _ & _ & A5 & _ & _ & A8 & A9
        & A10 & A11).
  exists g, hs, key. splits; auto.
Qed.

(** Property X23.
    The one-to-one receive pairs the devices by position: for every [i]
    with an [i]-th local device on both sides, the [i]-th entry of the
    branch table of the [Case] names a private function that returns the
    declared output type and holds a [_HostRecv] of that type, under the key
    of the abstract Recv, from the [i]-th sending device to the [i]-th
    receiving device, with the receiving layout recorded on it. *)
Theorem one_to_one_recv_pairs_devices :
  forall order OpName OpHash kLayoutAttr LocalTypeFromGlobalType send_mesh
         recv_layout x m r m',
    wf_module m ->
    LowerOneToOneDTensorRecvToTFHostRecv OpName OpHash kLayoutAttr
      LocalTypeFromGlobalType order send_mesh recv_layout x m = Done r m' ->
    exists recv key layout recv_type local branches case_id case_op,
      lookup_op m x = Some recv /\ op_kind recv = DTensorRecv key layout /\
      nth_error (op_types recv) 0 = Some recv_type /\
      LocalTypeFromGlobalType layout recv_type = OkValue local /\
      lookup_op m' case_id = Some case_op /\
      op_kind case_op = CaseOp branches false /\
      forall i sd rd,
        nth_error (local_devices send_mesh) i = Some sd ->
        nth_error (local_devices (mesh recv_layout)) i = Some rd ->
        exists name g host_recv,
          nth_error branches i = Some name /\
          lookup_func m' (fn_id g) = Some g /\
          sym_name g = name /\ sym_visibility g = Private /\
          List.length (fn_arg_types g) = List.length (op_operands recv) /\
          fn_result_types g = [declared_output_type recv_type local] /\
          lookup_op m' (op_id host_recv) = Some host_recv /\
          op_kind host_recv = _HostRecvOp key sd 0 rd /\
          op_types host_recv = [declared_output_type recv_type local] /\
          op_attrs host_recv = [(kLayoutAttr, ToString recv_layout)] /\
          op_block host_recv = InFunc (fn_id g).
Proof.
  intros order OpName OpHash kL LT send_mesh recv_layout x m r m' W H.
  destruct (one_to_one_recv_bodies _ _ _ _ _ _ _ _ _ _ W H)
    as (recv & key & layout & recv_type & local & branches & Ls & K & Ety
        & ELT & (case_id & case_op & Lc & Kc) & Each).
  exists recv, key, layout, recv_type, local, branches, case_id, case_op.
  splits; auto.
  intros i sd rd Hsd Hrd.
  destruct (Each i sd rd Hsd Hrd)
    as (name & g & hr & A1 & _ & A2 & A3 & A4 & A5 & A6 & A7 & A8 & _ & A9
        & A10 & A11).
  exists name, g, hr. splits; auto.
Qed.

Lemma one_to_one_send_pairs_devices_witness :
  exists r m' host_send,
    LowerOneToOneDTensorSendToTFHostSend sample_OpName sample_OpHash
      "tf._custom_device" Args321 cpu_layout gpu_mesh 4 cpu_gpu_module
    = Done r m' /\
    lookup_op m' (op_id host_send) = Some host_send /\
    op_kind host_send
    = _HostSendOp "t1" "/job:localhost/task:0/device:CPU:1" 0
        "/job:localhost/task:0/device:GPU:1" false.
Proof.
  assert (R : exists r m',
    LowerOneToOneDTensorSendToTFHostSend sample_OpName sample_OpHash
      "tf._custom_device" Args321 cpu_layout gpu_mesh 4 cpu_gpu_module
    = Done r m')
    by (eexists _, _; lazy; reflexivity).
  destruct R as (r & m' & R).
  destruct (one_to_one_send_pairs_devices Args321 _ _ _ _ _ _ _ _ _
              (sample_module_wf _ _ _ _ _) R)
    as (send & key & tl & branches & case_op & Ls & K & _ & _ & Each).
  lazy in Ls. inversion Ls; subst send. lazy in K. inversion K; subst key tl.
  destruct (Each 1 _ _ eq_refl eq_refl)
    as (name & g & hs & _ & _ & _ & _ & _ & _ & _ & Lh & Kh & _).
  exists r, m', hs. auto.
Defined.

Lemma one_to_one_send_widens_i32_witness :
  exists r m' cast host_send,
    LowerOneToOneDTensorSendToTFHostSend sample_OpName sample_OpHash
      "tf._custom_device" Args321 cpu_layout gpu_mesh 4 cpu_gpu_module
    = Done r m' /\
    lookup_op m' (op_id cast) = Some cast /\
    op_types cast = [RankedTensorType [4%Z] (IntegerType 64)] /\
    lookup_op m' (op_id host_send) = Some host_send /\
    op_operands host_send = [OpResult (op_id cast) 0].
Proof.
  assert (R : exists r m',
    LowerOneToOneDTensorSendToTFHostSend sample_OpName sample_OpHash
      "tf._custom_device" Args321 cpu_layout gpu_mesh 4 cpu_gpu_module
    = Done r m')
    by (eexists _, _; lazy; reflexivity).
  destruct R as (r & m' & R).
  destruct (one_to_one_send_widens_i32 Args321 _ _ _ _ _ _ _ _ _
              (sample_module_wf _ _ _ _ _) R)
    as (send & input & ity & Ls & In0 & Ety & Each).
  lazy in Ls. inversion Ls; subst send.
  lazy in In0. inversion In0; subst input.
  lazy in Ety. inversion Ety; subst ity.
  destruct (Each 0 _ _ eq_refl eq_refl)
    as (g & hs & key & _ & _ & Lh & _ & _ & cast & Lc & _ & _ & Tc & _ & Oh).
  exists r, m', cast, hs. auto.
Defined.

Lemma one_to_one_recv_pairs_devices_witness :
  exists r m' host_recv,
    LowerOneToOneDTensorRecvToTFHostRecv sample_OpName sample_OpHash
      "_layout" sample_LocalType Args321 cpu_mesh gpu_layout 6 cpu_gpu_module
    = Done r m' /\
    lookup_op m' (op_id host_recv) = Some host_recv /\
    op_kind host_recv
    = _HostRecvOp "t1" "/job:localhost/task:0/device:CPU:1" 0
        "/job:localhost/task:0/device:GPU:1".
Proof.
  assert (R : exists r m',
    LowerOneToOneDTensorRecvToTFHostRecv sample_OpName sample_OpHash
      "_layout" sample_LocalType Args321 cpu_mesh gpu_layout 6 cpu_gpu_module
    = Done r m')
    by (eexists _, _; lazy; reflexivity).
  destruct R as (r & m' & R).
  destruct (one_to_one_recv_pairs_devices Args321 _ _ _ _ _ _ _ _ _ _
              (sample_module_wf _ _ _ _ _) R)
    as (recv & key & layout & recv_type & local & branches & case_id
        & case_op & Ls & K & _ & _ & _ & _ & Each).
  lazy in Ls. inversion Ls; subst recv. lazy in K. inversion K; subst key layout.
  destruct (Each 1 _ _ eq_refl eq_refl)
    as (name & g & hr & _ & _ & _ & _ & _ & _ & Lh & Kh & _).
  exists r, m', hr. auto.
Defined.

(** Property X24.
    For a tensor whose elements are not 32-bit integers the one-to-one
    receive creates no cast: the branches and the [Case] declare the local
    type of the abstract Recv under the layout the Recv carries, the [Case]
    itself is returned, and every use of the abstract Recv reads the result
    of the [Case]. *)
Theorem one_to_one_recv_without_cast :
  forall order OpName OpHash kLayoutAttr LocalTypeFromGlobalType send_mesh
         recv_layout x m lowered m' recv recv_type,
    wf_module m ->
    lookup_op m x = Some recv ->
    nth_error (op_types recv) 0 = Some recv_type ->
    isInteger 32 (getElementType recv_type) = false ->
    LowerOneToOneDTensorRecvToTFHostRecv OpName OpHash kLayoutAttr
      LocalTypeFromGlobalType order send_mesh recv_layout x m
    = Done lowered m' ->
    exists key layout local case_op,
      op_kind recv = DTensorRecv key layout /\
      LocalTypeFromGlobalType layout recv_type = OkValue local /\
      lookup_op m' lowered = Some case_op /\
      (exists branches, op_kind case_op = CaseOp branches false) /\
      op_types case_op = [local] /\
      filter is_cast (created m m') = [] /\
      (forall o k sd i rd,
          In o (created m m') -> op_kind o = _HostRecvOp k sd i rd ->
          op_types o = [local]) /\
      erased m' x /\
      users m' x = [] /\
      (forall y o,
          y <> x -> lookup_op m y = Some o ->
          lookup_op m' y
          = Some (map_operands
                    (substitute (OpResult x 0) (OpResult lowered 0)) o)).
Proof.
  intros order OpName OpHash kL LT sm rl x m r m' recv recv_type W Ls Ety I32 H.
  destruct (LowerOneToOneRecv_steps _ _ _ _ _ _ _ _ _ _ H)
    as (recv' & key & layout & cluster & me & fn & ord & m1 & recv_type'
        & local & branches & m2 & case_id & m3 & m4 & m5 & Ls' & K & Eord
        & Ety' & ELT & EG & EC & EL & ER & EE).
  rewrite Ls in Ls'. inversion Ls'; subst recv'. clear Ls'.
  rewrite Ety in Ety'. inversion Ety'; subst recv_type'. clear Ety'.
  unfold declared_output_type in *. rewrite I32 in *.
  destruct EL as [-> ->].
  set (S := map_operands (substitute (OpResult x 0) (OpResult case_id 0))) in *.
  assert (Hx : x < next_id m) by (eapply wf_lookup_lt; eauto).
  apply (GetDeviceOrdinal_Done _ _ _ _ _ _ _ _ W) in Eord
    as (table & did & _ & _ & W1 & _ & _ & En1 & _ & Lo1 & _ & Hin1).
  apply (GenerateBranches_from_Done OpName OpHash _ _ _
           (recv_branch_ok _ _ _ _) _ _ _ _ _ _ _ _ _ W1) in EG
    as (W2 & _ & En2 & Lo2 & _ & _ & _ & _ & _ & Hin2).
  apply (create_spec _ _ _ _ _ _ _ _ W2) in EC
    as (W3 & Er3 & En3 & _ & _ & Ln3 & Lo3 & Hin3).
  set (case_new := new_op (OpBuilder_at recv) (op_loc recv)
                     (CaseOp branches false) (ord :: op_operands recv)
                     [local] m2) in *.
  apply (Value_replaceAllUsesWith_spec _ _ _ _ _ W3) in ER
    as (W5 & Eo5 & _ & _ & En5 & Lk5).
  fold S in Eo5, Lk5.
  pose proof (erase_erased _ _ _ _ EE) as [_ U6].
  apply (erase_spec _ _ _ _ W5) in EE
    as (W6 & Er6 & _ & _ & _ & En6 & Lo6 & Hin6).
  assert (Hcase : case_id <> x) by lia.
  assert (Origin : forall o,
    In o (created m m') ->
    exists p, o = S p /\
      (p = case_new \/ host_recv_of local p \/ is_return p \/
       In p (ordinal_ops order (OpBuilder_at recv) (cl_loc cluster) table did
               (next_id m) false))).
  { intros o Ho. apply created_In in Ho as [Ho Hid].
    apply Hin6 in Ho as [Ho _]. rewrite Eo5 in Ho.
    apply in_map_iff in Ho as (p & <- & Hp). exists p. split; [reflexivity|].
    apply Hin3 in Hp as [->|Hp]; [now left|].
    apply Hin2 in Hp as [Hp|[_ [Hp|Hp]]]; [|tauto|tauto].
    apply Hin1 in Hp as [Hp|Hp]; [tauto|].
    destruct W as (_ & Hlt & _). apply Hlt in Hp. cbn in Hid. lia. }
  exists key, layout, local, (S case_new). splits; auto.
  - rewrite Lo6 by exact Hcase. rewrite Lk5, Ln3. reflexivity.
  - exists branches. reflexivity.
  - apply filter_nil. intros o Ho.
    destruct (Origin o Ho) as (p & -> & Cases).
    unfold is_cast. cbn [S map_operands op_kind].
    destruct Cases as [->|[((k & sd & rd & Kp) & _)|[[Kr _]|Hp]]].
    + reflexivity.
    + now rewrite Kp.
    + now rewrite Kr.
    + apply ordinal_ops_no_cast in Hp as [Hp _].
      unfold is_cast in Hp. exact Hp.
  - intros o k sd i rd Ho Ko.
    destruct (Origin o Ho) as (p & -> & Cases). cbn in Ko.
    destruct Cases as [->|[(_ & T & _)|[[Kr _]|Hp]]];
      try (cbn in Ko; discriminate).
    + exact T.
    + congruence.
    + apply ordinal_ops_no_cast in Hp as [_ Hp]. now destruct (Hp k sd i rd).
  - intros y o Hy Lo. rewrite Lo6 by exact Hy.
    rewrite Lk5, (Lo3 _ _ (Lo2 _ _ (Lo1 _ _ Lo))). reflexivity.
Qed.

Lemma one_to_one_recv_without_cast_witness :
  exists r m' case_op,
    LowerOneToOneDTensorRecvToTFHostRecv sample_OpName sample_OpHash
      "_layout" sample_LocalType Args321 cpu_mesh gpu_layout 6 float_module
    = Done r m' /\
    lookup_op m' r = Some case_op /\
    op_types case_op = [f32_tensor] /\
    filter is_cast (created float_module m') = [].
Proof.
  assert (R : exists r m',
    LowerOneToOneDTensorRecvToTFHostRecv sample_OpName sample_OpHash
      "_layout" sample_LocalType Args321 cpu_mesh gpu_layout 6 float_module
    = Done r m')
    by (eexists _, _; lazy; reflexivity).
  destruct R as (r & m' & R).
  destruct (one_to_one_recv_without_cast Args321 sample_OpName sample_OpHash
              "_layout"%string sample_LocalType cpu_mesh gpu_layout 6
              float_module r m'
              (mkOp 6 "recv"%string (DTensorRecv "t1"%string gpu_layout) []
                 [f32_tensor] [] (InCluster 2))
              f32_tensor (sample_module_wf _ _ _ _ _) eq_refl eq_refl eq_refl
              R)
    as (key & layout & local & case_op & K & ELT & Lc & _ & Tc & Nc & _).
  inversion K; subst key layout. inversion ELT; subst local.
  exists r, m', case_op. auto.
Defined.

(* ---------- the branching lowerings report few statuses ---------- *)
Lemma never_fails_SymbolTable_insert st f :
  never_fails (SymbolTable_insert st f).
Proof.
  unfold SymbolTable_insert.
  apply never_fails_bind; [apply never_fails_get|]. intros m.
  destruct (taken _ _).
  - apply never_fails_bind; [apply never_fails_nonnull|]. intros [name c].
    nofail.
  - nofail.
Qed.

Lemma never_fails_arg_func arg : never_fails (arg_func arg).
Proof.
  unfold arg_func. apply never_fails_bind; [apply never_fails_nonnull|].
  intros [o i|f i]; nofail.
Qed.

Lemma never_fails_send_branch k L i32 key b loc arg pair :
  never_fails (send_branch k L i32 key b loc arg pair).
Proof.
  unfold send_branch.
  apply never_fails_bind; [apply never_fails_arg_func|]. intros [f i].
  apply never_fails_bind; [apply never_fails_setArgAttr|]. intros _.
  apply never_fails_bind; [|intros; apply never_fails_create].
  destruct i32; nofail.
Qed.

Lemma never_fails_recv_branch k L ty key b loc arg pair :
  never_fails (recv_branch k L ty key b loc arg pair).
Proof.
  unfold recv_branch, SetSingleLayoutOnOp, setAttr. nofail.
Qed.

Lemma never_fails_GenerateBranches_from OpName OpHash V
    (fn : OpBuilder -> Loc -> option Value -> V -> M OpId) op results fmt :
  (forall b loc arg v, never_fails (fn b loc arg v)) ->
  forall values index st,
    never_fails
      (GenerateBranches_from OpName OpHash index op st results fmt values fn).
Proof.
  intros Hfn. induction values as [|v rest IH]; intros index st;
    cbn [GenerateBranches_from].
  - nofail.
  - apply never_fails_bind; [apply never_fails_mapM; apply never_fails_getType|].
    intros tys.
    apply never_fails_bind; [apply never_fails_fresh_id|]. intros id.
    apply never_fails_bind; [apply never_fails_SymbolTable_insert|].
    intros [name st'].
    apply never_fails_bind; [apply Hfn|]. intros branch_op.
    apply never_fails_bind; [apply never_fails_deref|]. intros branch.
    apply never_fails_bind; [apply never_fails_create|]. intros _.
    apply never_fails_bind; [apply IH|]. intros branches. nofail.
Qed.

Lemma ExtractDeviceMeshFromOp_Fails c m s m' :
  ExtractDeviceMeshFromOp c m = Fails s m' -> m' = m.
Proof.
  unfold ExtractDeviceMeshFromOp, assign_or_return.
  destruct c as [c|]; [destruct (cl_mesh c)|]; intros H; now inversion H.
Qed.

Lemma LowerOneToOneSend_Fails_inv {order} OpName OpHash kCustomDeviceAttr
    send_layout recv_mesh x m s m' :
  LowerOneToOneDTensorSendToTFHostSend OpName OpHash kCustomDeviceAttr order
    send_layout recv_mesh x m = Fails s m' ->
  m' = m.
Proof.
  unfold LowerOneToOneDTensorSendToTFHostSend. intros H.
  apply bind_Fails in H as [H|(send & m0 & E & H)].
  { now apply never_fails_deref in H. }
  apply deref_Done in E as [_ ->].
  apply bind_Fails in H as [H|([key tl] & m0 & E & H)].
  { now apply never_fails_DTensorSend_attrs in H. }
  apply DTensorSend_attrs_Done in E as [_ ->].
  apply bind_Fails in H as [H|(input & m0 & E & H)].
  { now apply never_fails_nonnull in H. }
  apply nonnull_Done in E as [_ ->].
  apply bind_Fails in H as [H|(ity & m0 & E & H)].
  { now apply never_fails_getType in H. }
  apply getType_Done in E as ->.
  apply bind_Fails in H as [H|(cl & m0 & E & H)].
  { now apply never_fails_getParentOfType_ClusterOp in H. }
  apply getParentOfType_ClusterOp_Done in E as [-> _].
  apply bind_Fails in H as [H|(fn & m0 & E & H)].
  { exfalso. revert H. nofail. }
  apply bind_Done in E as (c & m1 & E1 & E). apply nonnull_Done in E1 as [_ ->].
  apply getParentOfType_FuncOp_Done in E as ->.
  apply bind_Fails in H as [H|(me & m0 & E & H)].
  { now apply ExtractDeviceMeshFromOp_Fails in H. }
  apply ExtractDeviceMeshFromOp_Done in E as ->.
  apply bind_Fails in H as [H|(me' & m0 & E & H)].
  { now apply never_fails_nonnull in H. }
  apply nonnull_Done in E as [_ ->].
  apply bind_Fails in H as [H|(ord & m1 & E & H)].
  { now apply GetDeviceOrdinal_Fails_inv in H as [-> _]. }
  exfalso. revert H.
  apply never_fails_bind.
  { apply never_fails_GenerateBranches_from. intros.
    apply never_fails_send_branch. }
  intros branches. nofail.
  destruct (String.eqb (device_type recv_mesh) "GPU"); nofail.
Qed.

(** Property X25.
    The one-to-one send reports a status only from reading the mesh of the
    cluster or the device id, both before it builds anything: the module a
    failure leaves is the one the lowering was given.  Generating the
    branches and the [Case] reports no status. *)
Theorem one_to_one_send_failure_builds_nothing :
  forall order OpName OpHash kCustomDeviceAttr send_layout recv_mesh x m s m',
    LowerOneToOneDTensorSendToTFHostSend OpName OpHash kCustomDeviceAttr order
      send_layout recv_mesh x m = Fails s m' ->
    m' = m.
Proof.
  intros order OpName OpHash kCustomDeviceAttr.
  exact (@LowerOneToOneSend_Fails_inv order OpName OpHash kCustomDeviceAttr).
Qed.

Lemma one_to_one_send_failure_builds_nothing_witness :
  exists s,
    LowerOneToOneDTensorSendToTFHostSend sample_OpName sample_OpHash
      "tf._custom_device" Args321 cpu_layout gpu_mesh 4 orphan_module
    = Fails s orphan_module.
Proof.
  assert (F : exists s m',
    LowerOneToOneDTensorSendToTFHostSend sample_OpName sample_OpHash
      "tf._custom_device" Args321 cpu_layout gpu_mesh 4 orphan_module
    = Fails s m')
    by (eexists _, _; lazy; reflexivity).
  destruct F as (s & m' & F). exists s.
  pose proof (one_to_one_send_failure_builds_nothing Args321 _ _ _ _ _ _ _ _ _
                F) as E.
  rewrite E in F. exact F.
Defined.

Lemma LowerOneToOneRecv_Fails_inv {order} OpName OpHash kLayoutAttr LocalType
    send_mesh recv_layout x m s m' :
  LowerOneToOneDTensorRecvToTFHostRecv OpName OpHash kLayoutAttr LocalType order
    send_mesh recv_layout x m = Fails s m' ->
  m' = m \/
  exists recv key layout recv_type cluster me fn ord,
    lookup_op m x = Some recv /\ op_kind recv = DTensorRecv key layout /\
    nth_error (op_types recv) 0 = Some recv_type /\
    LocalType layout recv_type = NotOk s /\
    GetDeviceOrdinal order me (cl_loc cluster) fn (OpBuilder_at recv) false m
    = Done ord m'.
Proof.
  unfold LowerOneToOneDTensorRecvToTFHostRecv. intros H.
  apply bind_Fails in H as [H|(recv & m0 & E & H)].
  { now apply never_fails_deref in H. }
  apply deref_Done in E as [Ls ->].
  apply bind_Fails in H as [H|([key layout] & m0 & E & H)].
  { now apply never_fails_DTensorRecv_attrs in H. }
  apply DTensorRecv_attrs_Done in E as [K ->].
  apply bind_Fails in H as [H|(cl & m0 & E & H)].
  { now apply never_fails_getParentOfType_ClusterOp in H. }
  apply getParentOfType_ClusterOp_Done in E as [-> _].
  apply bind_Fails in H as [H|(fn & m0 & E & H)].
  { exfalso. revert H. nofail. }
  apply bind_Done in E as (c & m1 & E1 & E). apply nonnull_Done in E1 as [_ ->].
  apply getParentOfType_FuncOp_Done in E as ->.
  apply bind_Fails in H as [H|(me & m0 & E & H)].
  { left. now apply ExtractDeviceMeshFromOp_Fails in H. }
  apply ExtractDeviceMeshFromOp_Done in E as ->.
  apply bind_Fails in H as [H|(me' & m0 & E & H)].
  { now apply never_fails_nonnull in H. }
  apply nonnull_Done in E as [_ ->].
  apply bind_Fails in H as [H|(cluster & m0 & E & H)].
  { now apply never_fails_nonnull in H. }
  apply nonnull_Done in E as [_ ->].
  apply bind_Fails in H as [H|(ord & m1 & Eord & H)].
  { left. now apply GetDeviceOrdinal_Fails_inv in H as [-> _]. }
  apply bind_Fails in H as [H|(recv_type & m0 & E & H)].
  { now apply never_fails_nonnull in H. }
  apply nonnull_Done in E as [Ety ->].
  apply bind_Fails in H as [H|(local & m0 & E & H)].
  { right. unfold assign_or_return in H.
    destruct (LocalType layout recv_type) as [lt|s0] eqn:ELT;
      inversion H; subst.
    exists recv, key, layout, recv_type, cluster, me', fn, ord. splits; auto. }
  exfalso. revert H.
  apply never_fails_bind.
  { apply never_fails_GenerateBranches_from. intros.
    apply never_fails_recv_branch. }
  intros branches.
  apply never_fails_bind; [apply never_fails_create|]. intros case_op.
  apply never_fails_bind.
  { destruct (isInteger 32 (getElementType recv_type)); nofail. }
  intros lowered. unfold Value_replaceAllUsesWith. nofail.
Qed.

(** Property X26.
    The one-to-one receive asks for the local type after it has built the
    device ordinal: when [LocalTypeFromGlobalType] reports a status the
    lowering returns it with the five ops of the ordinal already in the
    module; every other status leaves the module untouched.  In both cases
    no branch function has been generated and the abstract Recv is still
    there. *)
Theorem one_to_one_recv_failure_keeps_ordinal :
  forall order OpName OpHash kLayoutAttr LocalTypeFromGlobalType send_mesh
         recv_layout x m s m',
    wf_module m ->
    LowerOneToOneDTensorRecvToTFHostRecv OpName OpHash kLayoutAttr
      LocalTypeFromGlobalType order send_mesh recv_layout x m = Fails s m' ->
    mod_funcs m' = mod_funcs m /\
    lookup_op m' x = lookup_op m x /\
    (m' = m \/
     exists recv key layout recv_type,
       lookup_op m x = Some recv /\ op_kind recv = DTensorRecv key layout /\
       nth_error (op_types recv) 0 = Some recv_type /\
       LocalTypeFromGlobalType layout recv_type = NotOk s /\
       List.length (mod_ops m') = 5 + List.length (mod_ops m)).
Proof.
  intros order OpName OpHash kL LT sm rl x m s m' W H.
  apply LowerOneToOneRecv_Fails_inv in H
    as [->|(recv & key & layout & recv_type & cluster & me & fn & ord & Ls & K
            & Ety & ELT & Eord)]; [auto|].
  destruct (GetDeviceOrdinal_Done _ _ _ _ _ _ _ _ W Eord)
    as (table & did & _ & _ & W1 & Ef1 & _ & _ & _ & Lo1 & _).
  destruct (lookup_split _ _ _ Ls) as (pre & post & Eo).
  destruct (GetDeviceOrdinal_emits_aux order me (cl_loc cluster) fn
              (OpBuilder_at recv) false m ord m' pre recv post W eq_refl Eo
              Eord)
    as (table' & did' & _ & _ & Eo' & _).
  splits; auto.
  - rewrite Ls. auto.
  - right. exists recv, key, layout, recv_type. splits; auto.
    rewrite Eo', Eo, !length_app, ordinal_ops_length. cbn [List.length]. lia.
Qed.

Lemma one_to_one_recv_failure_keeps_ordinal_witness :
  exists s m',
    LowerOneToOneDTensorRecvToTFHostRecv sample_OpName sample_OpHash
      "_layout" failing_LocalType Args321 cpu_mesh gpu_layout 6 cpu_gpu_module
    = Fails s m' /\
    List.length (mod_ops m') = 11.
Proof.
  assert (F : exists s m',
    LowerOneToOneDTensorRecvToTFHostRecv sample_OpName sample_OpHash
      "_layout" failing_LocalType Args321 cpu_mesh gpu_layout 6 cpu_gpu_module
    = Fails s m')
    by (eexists _, _; lazy; reflexivity).
  destruct F as (s & m' & F). exists s, m'. split; [exact F|].
  destruct (one_to_one_recv_failure_keeps_ordinal Args321 _ _ _ _ _ _ _ _ _ _
              (sample_module_wf _ _ _ _ _) F)
    as (_ & _ & [E|(recv & key & layout & recv_type & _ & _ & _ & _ & Len)]).
  - exfalso. rewrite E in F. lazy in F. discriminate.
  - exact Len.
Defined.






(* ---------- the names of the branch functions ---------- *)
Lemma send_branch_name_inj a b i j :
  send_branch_name a b i = send_branch_name a b j -> i = j.
Proof.
  unfold send_branch_name. intros H.
  apply append_inj_l in H. cbn in H. inversion H as [H'].
  apply append_inj_l in H'. cbn in H'. inversion H' as [H''].
  now apply decimal_inj.
Qed.

Lemma receive_branch_name_inj a b i j :
  receive_branch_name a b i = receive_branch_name a b j -> i = j.
Proof.
  unfold receive_branch_name. intros H.
  apply append_inj_l in H. cbn in H. inversion H as [H'].
  apply append_inj_l in H'. cbn in H'. inversion H' as [H''].
  now apply decimal_inj.
Qed.

Lemma SymbolTable_insert_free st f m name st' m' :
  ~ In (sym_name f) (map sym_name (mod_funcs m)) ->
  SymbolTable_insert st f m = Done (name, st') m' ->
  name = sym_name f /\ st' = st.
Proof.
  intros Free H. unfold SymbolTable_insert in H.
  apply bind_Done in H as (m0' & m0 & G & H). apply get_Done in G as [-> ->].
  apply taken_false in Free. rewrite Free in H.
  apply bind_Done in H as (u & m1 & U & H).
  apply ret_Done in H as [H _]. now inversion H.
Qed.

Section GenerateBranchesNames.

Variable OpName : Op -> string.
Variable OpHash : Op -> nat.
Variable V : Type.
Variable fn : OpBuilder -> Loc -> option Value -> V -> M OpId.
Variable Pop : Op -> Prop.

Hypothesis fn_ok :
  forall id loc arg value m r m',
    wf_module m ->
    fn {| ip_block := InFunc id; ip_before := None |} loc arg value m
    = Done r m' ->
    wf_module m' /\
    mod_clusters m' = mod_clusters m /\
    next_id m <= next_id m' /\
    map func_sig (mod_funcs m') = map func_sig (mod_funcs m) /\
    (forall x o, lookup_op m x = Some o -> lookup_op m' x = Some o) /\
    (exists o, lookup_op m' r = Some o) /\
    (forall o, In o (mod_ops m') ->
               In o (mod_ops m) \/ (next_id m <= op_id o /\ Pop o)).

Variable op : Op.
Variable fmt : string.

Hypothesis asked_inj :
  forall i j,
    formatv fmt [OpName op; decimal (OpHash op); decimal i]
    = formatv fmt [OpName op; decimal (OpHash op); decimal j] ->
    i = j.

Lemma GenerateBranches_from_names result_types :
  forall values index st m branches m',
    wf_module m ->
    (forall i, i < List.length values ->
               ~ In (formatv fmt [OpName op; decimal (OpHash op);
                                  decimal (index + i)])
                    (map sym_name (mod_funcs m))) ->
    GenerateBranches_from OpName OpHash index op st result_types fmt values
      fn m = Done branches m' ->
    branches
    = map (fun i => formatv fmt [OpName op; decimal (OpHash op); decimal i])
        (seq index (List.length values)) /\
    map sym_name (mod_funcs m')
    = map sym_name (mod_funcs m) ++ branches.
Proof.
  induction values as [|value rest IH];
    intros index st m branches m' W Free H; cbn [GenerateBranches_from] in H.
  - apply ret_Done in H as [-> ->]. cbn. now rewrite app_nil_r.
  - apply bind_Done in H as (tys & m0 & E & H).
    apply mapM_getType_Done in E as ->.
    apply bind_Done in H as (id & m1 & E & H).
    apply fresh_id_Done in E as (-> & En1 & Eo1 & Ef1 & Ec1).
    apply bind_Done in H as ([name st'] & m2 & E & H).
    assert (Free0 : ~ In (formatv fmt [OpName op; decimal (OpHash op);
                                       decimal index])
                         (map sym_name (mod_funcs m1))).
    { rewrite Ef1. specialize (Free 0). rewrite Nat.add_0_r in Free.
      apply Free. cbn. lia. }
    assert (En : name = formatv fmt [OpName op; decimal (OpHash op);
                                     decimal index]).
    { refine (proj1 (SymbolTable_insert_free _ _ _ _ _ _ _ E)). exact Free0. }
    apply SymbolTable_insert_Done in E as (Eo2 & Ec2 & En2 & Ef2 & _ & _).
    assert (W2 : wf_module m2).
    { apply (wf_same_ops m); auto; [congruence|lia|].
      intros f Hf. rewrite Ef2, Ef1 in Hf. apply in_app_iff in Hf as [Hf|Hf].
      - destruct W as (_ & _ & Hfn). apply Hfn in Hf. lia.
      - destruct Hf as [<-|[]]. cbn. lia. }
    apply bind_Done in H as (branch_op & m3 & E & H).
    apply (fn_ok _ _ _ _ _ _ _ W2) in E
      as (W3 & Ec3 & En3 & Ef3 & Lo3 & (bo & Lb) & Hin3).
    apply bind_Done in H as (branch & m4 & E & H).
    apply deref_Done in E as [Lb' ->].
    apply bind_Done in H as (ret_op & m4 & C & H).
    use_create W3 C.
    apply bind_Done in H as (branches' & m5 & E & H).
    apply ret_Done in H as [-> <-].
    assert (Names4 : map sym_name (mod_funcs m4)
                     = map sym_name (mod_funcs m) ++ [name]).
    { assert (S4 : map func_sig (mod_funcs m4)
                   = map func_sig (mod_funcs m) ++ [func_sig
                       (with_name (setVisibility Private
                          (FuncOp_create (next_id m) (op_loc op)
                             (formatv fmt [OpName op; decimal (OpHash op);
                                           decimal index]) tys result_types))
                          name)]).
      { rewrite Ef, Ef3, Ef2, Ef1, map_app. reflexivity. }
      apply (f_equal (map sig_name)) in S4.
      rewrite map_app, !map_map in S4. exact S4. }
    apply IH in E as [Eb Enames]; [|exact W0|].
    + split.
      * cbn [List.length seq map]. now rewrite En, Eb.
      * rewrite Enames, Names4, <- app_assoc. reflexivity.
    + intros i Hi Hn. rewrite Names4 in Hn.
      apply in_app_iff in Hn as [Hn|[Hn|[]]].
      * apply (Free (S i)); [cbn; lia|].
        now replace (index + S i) with (S index + i) by lia.
      * rewrite En in Hn. apply asked_inj in Hn. lia.
Qed.

End GenerateBranchesNames.

(** Property X28.
    Where the names are free, the branch functions of a one-to-one lowering
    are called [<op name>_send_<hash>_<i>], and [_receive_] for a Recv, with
    [i] counting the device pairs from 0: these are the symbols added to the
    module and the entries of the branch table of the [Case], in this
    order. *)
Theorem one_to_one_branch_names :
  forall order OpName OpHash kCustomDeviceAttr kLayoutAttr
         LocalTypeFromGlobalType m x o,
    wf_module m ->
    lookup_op m x = Some o ->
    (forall send_layout recv_mesh r m',
        let n := List.length (combine (local_devices (mesh send_layout))
                                (local_devices recv_mesh)) in
        let names := map (send_branch_name (OpName o) (OpHash o)) (seq 0 n) in
        (forall name, In name names ->
                      ~ In name (map sym_name (mod_funcs m))) ->
        LowerOneToOneDTensorSendToTFHostSend OpName OpHash kCustomDeviceAttr
          order send_layout recv_mesh x m = Done r m' ->
        map sym_name (mod_funcs m') = map sym_name (mod_funcs m) ++ names /\
        exists case_op,
          lookup_op m' r = Some case_op /\
          op_kind case_op = CaseOp names false) /\
    (forall send_mesh recv_layout r m',
        let n := List.length (combine (local_devices send_mesh)
                                (local_devices (mesh recv_layout))) in
        let names :=
          map (receive_branch_name (OpName o) (OpHash o)) (seq 0 n) in
        (forall name, In name names ->
                      ~ In name (map sym_name (mod_funcs m))) ->
        LowerOneToOneDTensorRecvToTFHostRecv OpName OpHash kLayoutAttr
          LocalTypeFromGlobalType order send_mesh recv_layout x m = Done r m' ->
        map sym_name (mod_funcs m') = map sym_name (mod_funcs m) ++ names /\
        exists case_id case_op,
          lookup_op m' case_id = Some case_op /\
          op_kind case_op = CaseOp names false).
Proof.
  intros order OpName OpHash kC kL LT m x o W Lo. split.
  - intros send_layout recv_mesh r m' n names Free H.
    apply LowerOneToOneSend_steps in H
      as (send & key & tl & input & ity & cl & me & fn & ord & m1 & branches
          & m2 & m3 & Ls & K & In0 & Ety & B & Lc & Me & Eord & EG & EC & EE).
    rewrite Lo in Ls. inversion Ls; subst send. clear Ls.
    destruct (GetDeviceOrdinal_Done _ _ _ _ _ _ _ _ W Eord)
      as (_ & _ & _ & _ & W1 & Ef1 & _ & En1 & _ & Lo1 & _).
    destruct (GenerateBranches_from_Done OpName OpHash _ _ (fun _ => True)
                (send_branch_ok _ _ _ _) _ _ _ _ _ _ _ _ _ W1 EG)
      as (W2 & _ & En2 & Lo2 & _).
    destruct (GenerateBranches_from_names OpName OpHash _ _ (fun _ => True)
                (send_branch_ok kC send_layout
                   (isInteger 32 (getElementType ity)) key) o "{0}_send_{1}_{2}"
                ltac:(intros i j; rewrite !formatv_send;
                      apply send_branch_name_inj)
                []
                (combine (local_devices (mesh send_layout))
                   (local_devices recv_mesh))
                0 {| uniquingCounter := 0 |} m1 branches m2 W1)
      as [Eb Enames]; [|exact EG|].
    { intros i Hi. rewrite Ef1, formatv_send. apply Free.
      apply in_map. apply in_seq. cbn. fold n. lia. }
    assert (Eb' : branches = names).
    { rewrite Eb. apply map_ext. intros i. apply formatv_send. }
    pose proof (create_Done _ _ _ _ _ _ _ _ EC) as (_ & _ & _ & Ef3 & _).
    apply (create_spec _ _ _ _ _ _ _ _ W2) in EC
      as (W3 & Er & En3 & _ & _ & Ln & Lo3 & _).
    assert (Hx : x < next_id m) by (eapply wf_lookup_lt; eauto).
    assert (Fin : mod_funcs m' = mod_funcs m3 /\
                  (forall y q, y <> x -> lookup_op m3 y = Some q ->
                               lookup_op m' y = Some q)).
    { destruct (String.eqb (device_type recv_mesh) "GPU").
      - apply (erase_spec _ _ _ _ W3) in EE
          as (_ & _ & _ & _ & Ef' & _ & Lo' & _).
        split; auto. intros y q Hy L. now rewrite Lo'.
      - subst m'. auto. }
    destruct Fin as (Ef' & Lo'). split.
    + rewrite Ef', Ef3, Enames, Ef1, Eb'. reflexivity.
    + eexists. split; [apply Lo'; [lia|]; subst r; exact Ln|].
      cbn. now rewrite Eb'.
  - intros send_mesh recv_layout r m' n names Free H.
    destruct (LowerOneToOneRecv_steps _ _ _ _ _ _ _ _ _ _ H)
      as (recv & key & layout & cluster & me & fn & ord & m1 & recv_type
          & local & branches & m2 & case_id & m3 & m4 & m5 & Ls & K & Eord
          & Ety & ELT & EG & EC & EL & ER & EE).
    rewrite Lo in Ls. inversion Ls; subst recv. clear Ls.
    assert (Hx : x < next_id m) by (eapply wf_lookup_lt; eauto).
    destruct (GetDeviceOrdinal_Done _ _ _ _ _ _ _ _ W Eord)
      as (_ & _ & _ & _ & W1 & Ef1 & _ & En1 & _ & Lo1 & _).
    destruct (GenerateBranches_from_Done OpName OpHash _ _ _
                (recv_branch_ok _ _ _ _) _ _ _ _ _ _ _ _ _ W1 EG)
      as (W2 & _ & En2 & Lo2 & _).
    destruct (GenerateBranches_from_names OpName OpHash _ _ _
                (recv_branch_ok kL recv_layout
                   (declared_output_type recv_type local) key) o "{0}_receive_{1}_{2}"
                ltac:(intros i j; rewrite !formatv_receive;
                      apply receive_branch_name_inj)
                [declared_output_type recv_type local]
                (combine (local_devices send_mesh)
                   (local_devices (mesh recv_layout)))
                0 {| uniquingCounter := 0 |} m1 branches m2 W1)
      as [Eb Enames]; [|exact EG|].
    { intros i Hi. rewrite Ef1, formatv_receive. apply Free.
      apply in_map. apply in_seq. cbn. fold n. lia. }
    assert (Eb' : branches = names).
    { rewrite Eb. apply map_ext. intros i. apply formatv_receive. }
    pose proof (create_Done _ _ _ _ _ _ _ _ EC) as (_ & _ & _ & Ef3 & _).
    apply (create_spec _ _ _ _ _ _ _ _ W2) in EC
      as (W3 & Er3 & En3 & _ & _ & Ln3 & Lo3 & _).
    assert (Step4 : wf_module m4 /\ mod_funcs m4 = mod_funcs m3 /\
                    (forall y q, lookup_op m3 y = Some q ->
                                 lookup_op m4 y = Some q)).
    { destruct (isInteger 32 (getElementType recv_type)).
      - pose proof (create_Done _ _ _ _ _ _ _ _ EL) as (_ & _ & _ & Ef4 & _).
        apply (create_spec _ _ _ _ _ _ _ _ W3) in EL
          as (W4 & _ & _ & _ & _ & _ & Lo4 & _). auto.
      - destruct EL as [_ ->]. auto. }
    destruct Step4 as (W4 & Ef4 & Lo4).
    apply (Value_replaceAllUsesWith_spec _ _ _ _ _ W4) in ER
      as (W5 & _ & _ & Ef5 & _ & Lk5).
    apply (erase_spec _ _ _ _ W5) in EE
      as (_ & _ & _ & _ & Ef6 & _ & Lo6 & _).
    split.
    + rewrite Ef6, Ef5, Ef4, Ef3, Enames, Ef1, Eb'. reflexivity.
    + exists case_id. eexists. split.
      * rewrite Lo6 by lia. rewrite Lk5, (Lo4 _ _ Ln3). reflexivity.
      * cbn. now rewrite Eb'.
Qed.

Lemma one_to_one_branch_names_witness :
  exists r m',
    LowerOneToOneDTensorSendToTFHostSend sample_OpName sample_OpHash
      "tf._custom_device" Args321 cpu_layout gpu_mesh 4 cpu_gpu_module
    = Done r m' /\
    map sym_name (mod_funcs m')
    = ["main"; "tf.DTensorSend_send_21_0"; "tf.DTensorSend_send_21_1"]%string.
Proof.
  assert (R : exists r m',
    LowerOneToOneDTensorSendToTFHostSend sample_OpName sample_OpHash
      "tf._custom_device" Args321 cpu_layout gpu_mesh 4 cpu_gpu_module
    = Done r m')
    by (eexists _, _; lazy; reflexivity).
  destruct R as (r & m' & R). exists r, m'. split; [exact R|].
  destruct (proj1 (one_to_one_branch_names Args321 sample_OpName sample_OpHash
                     "tf._custom_device"%string "_layout"%string
                     sample_LocalType cpu_gpu_module 4
                     (mkOp 4 "send"%string
                        (DTensorSend "t1"%string gpu_layout) [OpResult 3 0]
                        [] [] (InCluster 1))
                     (sample_module_wf _ _ _ _ _) eq_refl)
              cpu_layout gpu_mesh r m') as [E _]; [|exact R|exact E].
  intros name Hn. simpl in Hn. simpl.
  destruct Hn as [<-|[<-|[]]]; intros [H|[]]; discriminate.
Defined.
